(** * Newelle Planning: the markdown section and checklist engine

    A shallow embedding of the core operations of [newelle_planning.py]
    (class [NewellePlanningExtension]) and the properties of its
    natural-language specification.

    Modelling conventions.
    - A Python [str] is a [text], a list of characters; a character is a
      code point below 256 held in an [ascii].  Whitespace ([str.strip],
      the regular-expression class [\s]) and [str.lower] are the Unicode
      ones restricted to that range.
    - The three documents are the fields of a [world]; an absent file is
      [None].  Files are read and written in text mode, so a document is the
      text Python reads.  Input and output never fail in the model, hence the
      [except Exception] handlers of the operations are never entered.
    - The literal result strings start with a pictograph; a [reply] keeps it
      as its constructor.
    - One operation reads the clock once; [now] is that reading.
    - [difflib.SequenceMatcher(None, a, b).ratio()] belongs to the Python
      library; it is a parameter [ratio] of the development.  Its value is
      the quotient of two lengths: scores are rationals, which compare with
      each other and with 0.8 and 0.9 as the floating-point numbers of the
      source do for texts of any length met in practice.
    - Text mode turns a carriage return that is read into a line end; the
      texts of the model hold none, so a text is read back as it was
      written.
    - Paths are those of a POSIX system.
    - Of the widgets, the computations on the planning data are embedded:
      the grouping of the items by phase, as the rows that are appended to
      the list box, and the change detection of the mini app. *)

From Stdlib Require Import String Ascii DecimalString.
From Stdlib Require Import List Arith Bool Lia QArith.
From Stdlib Require Import DecimalNat Permutation.
Import ListNotations.

Local Open Scope list_scope.
Local Open Scope nat_scope.

(** ** Text *)

Definition text := list ascii.

Definition str (s : string) : text := list_ascii_of_string s.

Definition NL : ascii := "010"%char.

(** [str.isspace] for one character: the code points 9-13, 28-32, 133, 160. *)
Definition is_space (c : ascii) : bool :=
  let n := nat_of_ascii c in
  ((9 <=? n) && (n <=? 13)) || ((28 <=? n) && (n <=? 32))
  || (n =? 133) || (n =? 160).

(** [str.lower] for one character: A-Z and the capital letters 192-222
    other than the multiplication sign 215 move up by 32. *)
Definition lower_char (c : ascii) : ascii :=
  let n := nat_of_ascii c in
  if ((65 <=? n) && (n <=? 90))
     || ((192 <=? n) && (n <=? 222) && negb (n =? 215))
  then ascii_of_nat (n + 32) else c.

Definition lower (s : text) : text := map lower_char s.

Definition text_eqb (a b : text) : bool :=
  if list_eq_dec ascii_dec a b then true else false.

(** [s.startswith(p)] *)
Fixpoint prefixb (p s : text) : bool :=
  match p, s with
  | [], _ => true
  | a :: p', b :: s' => Ascii.eqb a b && prefixb p' s'
  | _ :: _, [] => false
  end.

(** [s.find(pat)]: the lowest index at which [pat] occurs; [None] is -1. *)
Fixpoint find (pat s : text) : option nat :=
  if prefixb pat s then Some 0
  else match s with
       | [] => None
       | _ :: s' => option_map S (find pat s')
       end.

(** [s.find(pat, start)] for [0 <= start]. *)
Definition find_from (pat s : text) (start : nat) : option nat :=
  if start <=? length s
  then option_map (Nat.add start) (find pat (skipn start s))
  else None.

(** [pat in s] *)
Definition contains (pat s : text) : bool :=
  match find pat s with Some _ => true | None => false end.

(** The longest whitespace prefix and what follows it. *)
Fixpoint take_space (s : text) : text :=
  match s with
  | c :: s' => if is_space c then c :: take_space s' else []
  | [] => []
  end.

Fixpoint lstrip (s : text) : text :=
  match s with
  | c :: s' => if is_space c then lstrip s' else s
  | [] => []
  end.

Fixpoint rstrip (s : text) : text :=
  match s with
  | [] => []
  | c :: s' =>
      match rstrip s' with
      | [] => if is_space c then [] else [c]
      | r => c :: r
      end
  end.

Definition strip (s : text) : text := rstrip (lstrip s).

(** [s.count(pat)], the number of non-overlapping occurrences scanning
    from the left; [skip] characters of the last occurrence are still to
    be passed. *)
Fixpoint count_from (pat : text) (skip : nat) (s : text) : nat :=
  match s with
  | [] => 0
  | _ :: s' =>
      match skip with
      | S k => count_from pat k s'
      | O => if prefixb pat s
             then S (count_from pat (length pat - 1) s')
             else count_from pat 0 s'
      end
  end.

Definition count (pat s : text) : nat :=
  match pat with
  | [] => S (length s)
  | _ => count_from pat 0 s
  end.

(** [s.replace(pat, "")] for a non-empty [pat]. *)
Fixpoint remove_from (pat : text) (skip : nat) (s : text) : text :=
  match s with
  | [] => []
  | c :: s' =>
      match skip with
      | S k => remove_from pat k s'
      | O => if prefixb pat s
             then remove_from pat (length pat - 1) s'
             else c :: remove_from pat 0 s'
      end
  end.

(** [s.split('\n')] *)
Fixpoint split_nl (s : text) : list text :=
  match s with
  | [] => [[]]
  | c :: s' =>
      if Ascii.eqb c NL then [] :: split_nl s'
      else match split_nl s' with
           | l :: ls => (c :: l) :: ls
           | [] => [[c]]
           end
  end.

(** [f.readlines()]: the lines with their line ends. *)
Fixpoint readlines (s : text) : list text :=
  match s with
  | [] => []
  | c :: s' =>
      if Ascii.eqb c NL then [c] :: readlines s'
      else match readlines s' with
           | l :: ls => (c :: l) :: ls
           | [] => [[c]]
           end
  end.

(** [str(n)] for a natural number. *)
Definition dec (n : nat) : text := str (NilEmpty.string_of_uint (Nat.to_uint n)).


(** ["sep".join(parts)] *)
Fixpoint join (sep : text) (parts : list text) : text :=
  match parts with
  | [] => []
  | [p] => p
  | p :: ps => p ++ sep ++ join sep ps
  end.

(** [lines[i] = x] for an index within the list. *)
Fixpoint set_nth (i : nat) (x : text) (lines : list text) : list text :=
  match lines, i with
  | [], _ => []
  | _ :: ls, O => x :: ls
  | l :: ls, S j => l :: set_nth j x ls
  end.

(** ** The regular expressions of the checklist model *)

Definition is_bullet (c : ascii) : bool :=
  Ascii.eqb c "-"%char || Ascii.eqb c "*"%char.

(** The pattern [\s*[-*]\s*\[ \]] tried at the start of [s].  A bullet and
    a bracket are no whitespace, so both [\s*] take the whole run of
    whitespace in front of them and the match, when there is one, is
    unique.  The result is the text matched before the box (group 1 of
    the pattern of [mark_complete]'s substitution) and the text after the
    box. *)
Definition box_split (s : text) : option (text * text) :=
  match lstrip s with
  | b :: s2 =>
      if is_bullet b && prefixb (str "[ ]") (lstrip s2)
      then Some (take_space s ++ b :: take_space s2, skipn 3 (lstrip s2))
      else None
  | [] => None
  end.

(** The helper of [mark_complete]:
    [re.match(r'^\s*[-*]\s*\[ \]', line) is not None]. *)
Definition is_incomplete_task (line : text) : bool :=
  match box_split line with Some _ => true | None => false end.

(** [re.sub(r'^\s*[-*]\s*\[ \]\s*', '', line).strip()] *)
Definition task_text (line : text) : text :=
  strip (match box_split line with
         | Some (_, rest) => lstrip rest
         | None => line
         end).

(** The substitution [re.sub(pattern, r'\1[x]', line, count=1)] of
    [mark_complete], whose pattern is the one of [box_split] with the part
    before the box as group 1: the pattern is searched from the left and
    its first match is rewritten. *)
Fixpoint mark_line (line : text) : text :=
  match box_split line with
  | Some (g, rest) => g ++ str "[x]" ++ rest
  | None =>
      match line with
      | c :: line' => c :: mark_line line'
      | [] => []
      end
  end.

(** The tail [\s+(.+)$] of the two patterns of [_parse_todos_from_plan] on
    the rest of a line (a line of [split('\n')] holds no line end): at
    least one whitespace character, then at least one character.  The
    group is what follows the run of whitespace; when nothing follows, the
    greedy [\s+] gives its last character back to the group. *)
Definition sep_text (s : text) : option text :=
  match s with
  | d :: rest =>
      if is_space d then
        match lstrip rest with
        | [] => match rest with
                | [] => None
                | _ => Some [last rest d]
                end
        | r => Some r
        end
      else None
  | [] => None
  end.

(** [re.match(r'^###\s+(.+)$', line)], giving group 1. *)
Definition phase_match (line : text) : option text :=
  if prefixb (str "###") line then sep_text (skipn 3 line) else None.

(** [re.match(r'^-\s+\[([ x])\]\s+(.+)$', line)], giving whether group 1
    is [x], and group 2. *)
Definition todo_match (line : text) : option (bool * text) :=
  match line with
  | dash :: d :: rest =>
      if Ascii.eqb dash "-"%char && is_space d then
        match lstrip rest with
        | opening :: m :: closing :: s =>
            if Ascii.eqb opening "["%char
               && (Ascii.eqb m " "%char || Ascii.eqb m "x"%char)
               && Ascii.eqb closing "]"%char
            then
              match sep_text s with
              | Some txt => Some (Ascii.eqb m "x"%char, txt)
              | None => None
              end
            else None
        | _ => None
        end
      else None
  | _ => None
  end.

Record todo := mk_todo {
  todo_text : text;
  todo_completed : bool;
  todo_phase : option text
}.

(** The loop of [_parse_todos_from_plan] from a given [current_phase]. *)
Fixpoint parse_lines (current_phase : option text) (lines : list text)
  : list todo :=
  match lines with
  | [] => []
  | line :: rest =>
      let current_phase :=
        match phase_match line with
        | Some p => Some p
        | None => current_phase
        end in
      match todo_match line with
      | Some (completed, txt) =>
          mk_todo txt completed current_phase :: parse_lines current_phase rest
      | None => parse_lines current_phase rest
      end
  end.

Definition _parse_todos_from_plan (content : text) : list todo :=
  parse_lines None (split_nl content).

(** Case-insensitive comparison of a literal with the start of [s]
    ([re.IGNORECASE] on code points below 256). *)
Fixpoint ci_prefixb (p s : text) : bool :=
  match p, s with
  | [], _ => true
  | a :: p', b :: s' =>
      Ascii.eqb (lower_char a) (lower_char b) && ci_prefixb p' s'
  | _ :: _, [] => false
  end.

(** [.*] then the literal: the literal after any number of characters
    other than a line end. *)
Fixpoint dotstar_then (p s : text) : bool :=
  if ci_prefixb p s then true
  else match s with
       | c :: s' => if Ascii.eqb c NL then false else dotstar_then p s'
       | [] => false
       end.

(** [\s+.*] then the literal. *)
Fixpoint ws_plus_then (p s : text) : bool :=
  match s with
  | c :: s' =>
      if is_space c
      then if dotstar_then p s' then true else ws_plus_then p s'
      else false
  | [] => false
  end.

(** Whether [###\s+.*{re.escape(phase)}] matches at the start of [s]. *)
Definition heading_ci_match (phase s : text) : bool :=
  if prefixb (str "###") s then ws_plus_then phase (skipn 3 s) else false.

(** [re.compile(rf"^###\s+.*{re.escape(phase)}",
    re.MULTILINE | re.IGNORECASE).search(s)], giving [match.start()]:
    the first start of a line at which the pattern matches.  [bol] tells
    whether [s] begins a line. *)
Fixpoint search_heading (phase : text) (bol : bool) (s : text) : option nat :=
  if (if bol then heading_ci_match phase s else false) then Some 0
  else match s with
       | [] => None
       | c :: s' => option_map S (search_heading phase (Ascii.eqb c NL) s')
       end.

(** ** Documents, settings and replies *)

(** The planning directory: whether it exists, whether it holds entries
    other than the three documents, and the documents [task_plan.md],
    [findings.md] and [progress.md].  A directory that does not exist holds
    no document. *)
Record world := mk_world {
  dir_exists : bool;
  other_entries : bool;
  task_plan : option text;
  findings : option text;
  progress : option text
}.

Definition set_task_plan (c : text) (w : world) : world :=
  mk_world (dir_exists w) (other_entries w) (Some c) (findings w) (progress w).

Definition set_findings (c : text) (w : world) : world :=
  mk_world (dir_exists w) (other_entries w) (task_plan w) (Some c) (progress w).

Definition set_progress (c : text) (w : world) : world :=
  mk_world (dir_exists w) (other_entries w) (task_plan w) (findings w) (Some c).

(** [os.makedirs(planning_dir, exist_ok=True)] *)
Definition _ensure_planning_dir (w : world) : world :=
  mk_world true (other_entries w) (task_plan w) (findings w) (progress w).

(** [os.path.exists] of a document. *)
Definition present (d : option text) : bool :=
  match d with Some _ => true | None => false end.

(** The reading of the clock by [datetime.datetime.now()]. *)
Record datetime := mk_datetime {
  year : nat; month : nat; day : nat; hour : nat; minute : nat
}.

Definition pad2 (n : nat) : text :=
  if n <? 10 then "0"%char :: dec n else dec n.

(** [strftime("%Y-%m-%d %H:%M")], for a year of four digits. *)
Definition format_date (d : datetime) : text :=
  dec (year d) ++ "-"%char :: pad2 (month d) ++ "-"%char :: pad2 (day d)
  ++ " "%char :: pad2 (hour d) ++ ":"%char :: pad2 (minute d).

(** The status block of [get_status]: task name, progress counts, error
    count, directory and the presence of the two other documents. *)
Record status_report := mk_report {
  report_task_name : text;
  report_completed : nat;
  report_total : nat;
  report_errors : nat;
  report_dir : text;
  report_has_findings : bool;
  report_has_progress : bool
}.

(** What an operation returns.  [Raw] is document text; [Done], [Warning]
    and [Failed] are the strings that start with the check mark, the
    warning sign and the cross mark, followed by a blank and the message;
    [Report] and [NoSession] are the two results of [get_status]. *)
Inductive reply :=
| Raw (body : text)
| Done (msg : text)
| Warning (msg : text)
| Failed (msg : text)
| Report (r : status_report)
| NoSession.

(** ** Templates *)

Definition TASK_PLAN_TEMPLATE (task_name date objective phases : text) : text :=
  str "# Task Plan: " ++ task_name ++ str "
Created: " ++ date ++ str "
Status: In Progress

## Objective
" ++ objective ++ str "

## Phases
" ++ phases ++ str "

## Decisions
<!-- Record key decisions here -->

## Error Log
<!-- Log any errors or failed attempts here -->

## Notes
<!-- Additional notes and observations -->
".

Definition FINDINGS_TEMPLATE (task_name date : text) : text :=
  str "# Findings: " ++ task_name ++ str "
Created: " ++ date ++ str "

## Research Notes
<!-- Store research and findings here instead of context -->

## Technical Decisions
<!-- Record technical choices and rationale -->

## Key Discoveries

## References

## Code Snippets
<!-- Important code patterns found -->
".

Definition PROGRESS_TEMPLATE (task_name date : text) : text :=
  str "# Progress Log: " ++ task_name ++ str "
Created: " ++ date ++ str "

## Status Check
<!-- 5-Question Check when resuming -->
1. What is the current specific goal?
2. What has been done so far?
3. What is the immediate next step?
4. What information is missing?
5. Are there any errors or blockers?

## Session Log

### " ++ date ++ str "
- Started task
- Created planning files

## Test Results
<!-- Document test outcomes here -->
| Test | Result | Notes |
|------|--------|-------|

## Next Steps
".

(** The default phases of [create_plan]. *)
Definition DEFAULT_PHASES : text :=
  str "### Phase 1: Planning
- [ ] Define requirements
- [ ] Identify dependencies
- [ ] Create initial plan
".

(** The loop of [create_plan] over [enumerate(phases, 1)], from number [i]. *)
Fixpoint phase_blocks (i : nat) (phases : list text) : text :=
  match phases with
  | [] => []
  | phase :: rest =>
      str "### Phase " ++ dec i ++ str ": " ++ phase
      ++ NL :: str "- [ ] " ++ [NL; NL] ++ phase_blocks (S i) rest
  end.

Definition phases_content (phases : list text) : text :=
  match phases with
  | [] => DEFAULT_PHASES
  | _ => strip (phase_blocks 1 phases)
  end.

(** ** Operations *)

(** The dictionary built by [_get_planning_data]; the directory is the
    setting [planning_dir]. *)
Record planning_data := mk_data {
  data_task_name : text;
  data_objective : text;
  data_todos : list todo;
  data_completed : nat;
  data_total : nat;
  data_errors : nat;
  data_exists : bool;
  data_has_findings : bool;
  data_has_progress : bool
}.

(** The lazy group [(.+?)] of the objective pattern under [re.DOTALL]: the
    shortest non-empty start of [s] that is followed by a line end and two
    hash signs, or by the end of the text. *)
Fixpoint lazy_body (s : text) : text :=
  match s with
  | [] => []
  | c :: s' => c :: (if prefixb (NL :: str "##") s' then [] else lazy_body s')
  end.

(** The objective pattern is the heading line [## Objective] followed by
    the lazy group: it matches at the first occurrence of the heading line
    that some character follows. *)
Definition objective_of (content : text) : text :=
  let marker := str "## Objective" ++ [NL] in
  match find marker content with
  | Some p =>
      match skipn (p + length marker) content with
      | [] => []
      | body => strip (lazy_body body)
      end
  | None => []
  end.

Definition ERROR_MARKER : text := str "### Error at".

Definition _get_planning_data (w : world) : planning_data :=
  match task_plan w with
  | None =>
      mk_data (str "No Plan") [] [] 0 0 0 false
        (present (findings w)) (present (progress w))
  | Some content =>
      let task_name :=
        if contains (str "# Task Plan:") content
        then strip (remove_from (str "# Task Plan:") 0
                      (hd [] (split_nl content)))
        else str "No Plan" in
      let todos := _parse_todos_from_plan content in
      mk_data task_name (objective_of content) todos
        (length (filter todo_completed todos)) (length todos)
        (count ERROR_MARKER content) true
        (present (findings w)) (present (progress w))
  end.

(** A candidate of the fuzzy search: line index, score, item text. *)
Definition candidate : Type := nat * Q * text.

Definition score (c : candidate) : Q := snd (fst c).

(** [candidates.sort(key=lambda x: x[1], reverse=True)]: the sort is
    stable, so among equal scores the earlier candidate stays first. *)
Fixpoint insert_desc (x : candidate) (l : list candidate) : list candidate :=
  match l with
  | [] => [x]
  | y :: l' =>
      if Qle_bool (score y) (score x) then x :: l
      else y :: insert_desc x l'
  end.

Definition sort_desc (l : list candidate) : list candidate :=
  fold_right insert_desc [] l.

(** [min] of a sequence; [None] is the [ValueError] on an empty one. *)
Definition list_min (l : list nat) : option nat :=
  match l with
  | [] => None
  | x :: xs => Some (fold_right Nat.min x xs)
  end.

(** The positions [p] of a list of search results with [p > 0]. *)
Fixpoint positive_positions (l : list (option nat)) : list nat :=
  match l with
  | [] => []
  | Some (S p) :: l' => S p :: positive_positions l'
  | _ :: l' => positive_positions l'
  end.

(** The positions of a list of search results other than -1. *)
Fixpoint found_positions (l : list (option nat)) : list nat :=
  match l with
  | [] => []
  | Some p :: l' => p :: found_positions l'
  | None :: l' => found_positions l'
  end.

Section Operations.

(** [difflib.SequenceMatcher(None, a, b).ratio()] *)
Variable ratio : text -> text -> Q.

(** The settings [planning_directory] (resolved to a path) and
    [max_plan_length], and the clock. *)
Variable planning_dir : text.
Variable max_plan_length : nat.
Variable now : datetime.

Definition _get_date : text := format_date now.

Definition _truncate (txt : text) : text :=
  let maxlength := if max_plan_length =? 0 then 4000 else max_plan_length in
  if maxlength <? length txt
  then firstn maxlength txt
       ++ NL :: str "... (truncated to " ++ dec maxlength ++ str " characters)"
  else txt.

Definition create_plan (task_name objective : text) (phases : list text)
           (w : world) : reply * world :=
  let w := _ensure_planning_dir w in
  let date := _get_date in
  let w := set_task_plan
             (TASK_PLAN_TEMPLATE task_name date objective
                (phases_content phases)) w in
  let w := set_findings (FINDINGS_TEMPLATE task_name date) w in
  let w := set_progress (PROGRESS_TEMPLATE task_name date) w in
  (Done (str "Created planning files in " ++ planning_dir ++ [NL; NL]
         ++ str "Task: " ++ task_name ++ NL :: str "Objective: " ++ objective),
   w).

(** The body shared by [read_plan] and [read_findings] once the file is
    read. *)
Definition read_from (start_char : Z) (content : text) : reply :=
  if (0 <? start_char)%Z then
    if (Z.of_nat (length content) <=? start_char)%Z
    then Warning (str "End of file reached.")
    else Raw (_truncate (skipn (Z.to_nat start_char) content))
  else Raw (_truncate content).

Definition read_plan (start_char : Z) (w : world) : reply * world :=
  match task_plan w with
  | None => (Warning (str "No task_plan.md found. Use create_plan to start."), w)
  | Some content => (read_from start_char content, w)
  end.

Definition read_findings (start_char : Z) (w : world) : reply * world :=
  match findings w with
  | None => (Warning (str "No findings.md found."), w)
  | Some content => (read_from start_char content, w)
  end.

(** The new text of [update_plan] and whether the section was found. *)
Definition update_plan_text (section content plan_content : text)
  : bool * text :=
  let section_marker := str "## " ++ section in
  match find section_marker plan_content with
  | Some p =>
      let section_start := p + length section_marker in
      match find_from (NL :: str "## ") plan_content section_start with
      | None =>
          (true, firstn section_start plan_content ++ NL :: content ++ [NL])
      | Some next_section =>
          (true, firstn section_start plan_content ++ NL :: content ++ [NL]
                 ++ skipn next_section plan_content)
      end
  | None =>
      (false, rstrip plan_content ++ [NL; NL] ++ str "## " ++ section
              ++ NL :: content ++ [NL])
  end.

Definition update_plan (section content : text) (w : world) : reply * world :=
  match task_plan w with
  | None => (Warning (str "No task_plan.md found."), w)
  | Some plan_content =>
      match update_plan_text section content plan_content with
      | (true, new_content) =>
          (Done (str "Updated section '" ++ section ++ str "'"),
           set_task_plan new_content w)
      | (false, new_content) =>
          (Done (str "Added new section '" ++ section ++ str "'"),
           set_task_plan new_content w)
      end
  end.

(** The first loop of [mark_complete], stopped by [break]: the index of
    the first unchecked line whose text is the stripped argument. *)
Fixpoint exact_search (phase_or_item : text) (lines : list text) (i : nat)
  : option nat :=
  match lines with
  | [] => None
  | line :: rest =>
      if is_incomplete_task line
         && text_eqb (task_text line) (strip phase_or_item)
      then Some i
      else exact_search phase_or_item rest (S i)
  end.

(** The second loop of [mark_complete], collecting the candidates. *)
Fixpoint collect_candidates (target : text) (lines : list text) (i : nat)
  : list candidate :=
  match lines with
  | [] => []
  | line :: rest =>
      if is_incomplete_task line then
        let txt := task_text line in
        let task_lower := lower txt in
        if contains target task_lower
        then (i, 9 # 10, txt) :: collect_candidates target rest (S i)
        else
          let r := ratio target task_lower in
          if negb (Qle_bool r (8 # 10))
          then (i, r, txt) :: collect_candidates target rest (S i)
          else collect_candidates target rest (S i)
      else collect_candidates target rest (S i)
  end.

(** [best_match_idx] at the end of the two searches; [None] is -1. *)
Definition best_match_idx (phase_or_item : text) (lines : list text)
  : option nat :=
  let target := lower (strip phase_or_item) in
  match exact_search phase_or_item lines 0 with
  | Some i => Some i
  | None =>
      match sort_desc (collect_candidates target lines 0) with
      | c :: _ => Some (fst (fst c))
      | [] => None
      end
  end.

Definition mark_complete (phase_or_item : text) (w : world) : reply * world :=
  match task_plan w with
  | None => (Warning (str "No task_plan.md found."), w)
  | Some content =>
      let lines := readlines content in
      match best_match_idx phase_or_item lines with
      | Some i =>
          let line := nth i lines [] in
          let lines := set_nth i (mark_line line) lines in
          (Done (str "Marked as complete: " ++ task_text line),
           set_task_plan (concat lines) w)
      | None =>
          (Warning (str "Item '" ++ phase_or_item
                    ++ str "' not found (or already completed)"), w)
      end
  end.

(** The new text of [add_todo]; [None] is the [ValueError] that [min]
    raises on an empty sequence. *)
Definition add_todo_text (item : text) (phase : option text) (content : text)
  : option text :=
  let new_item := str "- [ ] " ++ item in
  match phase with
  | Some (c :: ph) =>
      let phase := c :: ph in
      let phase_start :=
        match find (str "### " ++ phase) content with
        | Some p => Some p
        | None => search_heading phase true content
        end in
      match phase_start with
      | Some p =>
          let next_section := find_from (NL :: str "###") content (p + 1) in
          let next_h2 := find_from (NL :: str "## ") content (p + 1) in
          let insert_pos :=
            match list_min (found_positions [next_section; next_h2]) with
            | Some m => m
            | None => length content
            end in
          Some (rstrip (firstn insert_pos content) ++ NL :: new_item ++ [NL]
                ++ skipn insert_pos content)
      | None =>
          Some (rstrip content ++ [NL; NL] ++ str "### " ++ phase
                ++ NL :: new_item ++ [NL])
      end
  | _ =>
      if contains (str "## Phases") content then
        let notes_pos := find (str "## Notes") content in
        let error_pos := find (str "## Error Log") content in
        match list_min (positive_positions
                          [notes_pos; error_pos; Some (length content)]) with
        | Some insert_pos =>
            Some (rstrip (firstn insert_pos content) ++ NL :: new_item
                  ++ [NL; NL] ++ skipn insert_pos content)
        | None => None
        end
      else Some (rstrip content ++ [NL; NL] ++ str "## Tasks"
                 ++ NL :: new_item ++ [NL])
  end.

Definition add_todo (item : text) (phase : option text) (w : world)
  : reply * world :=
  match task_plan w with
  | None => (Warning (str "No task_plan.md found."), w)
  | Some content =>
      match add_todo_text item phase content with
      | Some new_content =>
          (Done (str "Added todo: " ++ item
                 ++ match phase with
                    | Some (c :: ph) => str " (Phase: " ++ c :: ph ++ str ")"
                    | _ => []
                    end),
           set_task_plan new_content w)
      | None => (Failed (str "Error: min() arg is an empty sequence"), w)
      end
  end.

(** The new text of [save_finding]. *)
Definition save_finding_text (title content category findings_content : text)
  : text :=
  let timestamp := _get_date in
  let new_finding :=
    NL :: str "### " ++ title ++ NL :: "*"%char :: timestamp
    ++ "*"%char :: [NL; NL] ++ content ++ [NL] in
  let category_marker := str "## " ++ category in
  match find category_marker findings_content with
  | Some p =>
      let category_pos := p + length category_marker in
      match find_from (NL :: str "## ") findings_content category_pos with
      | None => rstrip findings_content ++ new_finding
      | Some next_h2 =>
          rstrip (firstn next_h2 findings_content) ++ new_finding ++ [NL]
          ++ skipn next_h2 findings_content
      end
  | None =>
      rstrip findings_content ++ [NL; NL] ++ str "## " ++ category
      ++ new_finding
  end.

Definition save_finding (title content category : text) (w : world)
  : reply * world :=
  let (w, findings_content) :=
    match findings w with
    | None =>
        let created := FINDINGS_TEMPLATE (str "Task") _get_date in
        (set_findings created (_ensure_planning_dir w), created)
    | Some existing => (w, existing)
    end in
  (Done (str "Saved finding: '" ++ title ++ str "'"),
   set_findings (save_finding_text title content category findings_content) w).

(** The new text of [log_progress]. *)
Definition log_progress_text (entry : text) (include_timestamp : bool)
           (content : text) : text :=
  let timestamp :=
    if include_timestamp then "["%char :: _get_date ++ str "] " else [] in
  let new_entry := str "- " ++ timestamp ++ entry in
  match find (str "## Session Log") content with
  | Some p =>
      let session_pos := p + length (str "## Session Log") in
      firstn session_pos content ++ NL :: new_entry
      ++ skipn session_pos content
  | None =>
      rstrip content ++ [NL; NL] ++ str "## Session Log" ++ NL :: new_entry
      ++ [NL]
  end.

Definition log_progress (entry : text) (include_timestamp : bool) (w : world)
  : reply * world :=
  let (w, content) :=
    match progress w with
    | None =>
        let created := PROGRESS_TEMPLATE (str "Task") _get_date in
        (set_progress created (_ensure_planning_dir w), created)
    | Some existing => (w, existing)
    end in
  (Done (str "Logged: " ++ entry),
   set_progress (log_progress_text entry include_timestamp content) w).

(** The new text of the plan in [log_error]. *)
Definition log_error_text (error context content : text) : text :=
  let timestamp := _get_date in
  let error_entry :=
    NL :: str "### Error at " ++ timestamp ++ NL :: str "**Error:** " ++ error
    ++ [NL]
    ++ match context with
       | [] => []
       | _ => str "**Context:** " ++ context ++ [NL]
       end in
  match find (str "## Error Log") content with
  | Some p =>
      let error_pos := p + length (str "## Error Log") in
      match find_from (NL :: str "## ") content error_pos with
      | None => rstrip content ++ error_entry
      | Some next_h2 =>
          rstrip (firstn next_h2 content) ++ error_entry ++ [NL]
          ++ skipn next_h2 content
      end
  | None => rstrip content ++ [NL; NL] ++ str "## Error Log" ++ error_entry
  end.

Definition log_error (error context : text) (w : world) : reply * world :=
  match task_plan w with
  | None => (Warning (str "No task_plan.md found."), w)
  | Some content =>
      let w := set_task_plan (log_error_text error context content) w in
      let w := snd (log_progress (str "ERROR: " ++ error) true w) in
      (Warning (str "Logged error: " ++ error), w)
  end.

(** [get_status]; the percentage of the literal string, a floating-point
    quotient, is left out of the report. *)
Definition get_status (w : world) : reply * world :=
  let data := _get_planning_data w in
  if data_exists data then
    (Report (mk_report (data_task_name data) (data_completed data)
               (data_total data) (data_errors data) planning_dir
               (data_has_findings data) (data_has_progress data)), w)
  else (NoSession, w).

Definition remove_documents (w : world) : world :=
  mk_world (dir_exists w) (other_entries w) None None None.

Definition cleanup_plan (w : world) : reply * world :=
  if dir_exists w then
    let files_removed :=
      (if present (task_plan w) then [str "task_plan.md"] else [])
      ++ (if present (findings w) then [str "findings.md"] else [])
      ++ (if present (progress w) then [str "progress.md"] else []) in
    let msg := str "Cleaned up: " ++ join (str ", ") files_removed in
    if other_entries w
    then (Done (msg ++ str " (directory kept)"), remove_documents w)
    else (Done msg, mk_world false false None None None)
  else (Warning (str "No planning directory."), w).

Definition check_plan_integrity (w : world) : reply * world :=
  let data := _get_planning_data w in
  if data_exists data then
    let pending := data_total data - data_completed data in
    let issues :=
      (if data_has_findings data then [] else [str "- Missing findings.md"])
      ++ (if data_has_progress data then [] else [str "- Missing progress.md"])
      ++ (if 0 <? pending
          then [str "- " ++ dec pending ++ str " tasks pending in task_plan.md"]
          else [])
      ++ match progress w with
         | Some content =>
             if contains (str "- ") content then []
             else [str "- progress.md seems empty (no bullet points)"]
         | None => []
         end in
    match issues with
    | [] =>
        (Done (str "Plan Integrity Check Passed!" ++ NL
               :: str "- All files present" ++ NL
               :: str "- All " ++ dec (data_total data)
               ++ str " tasks completed" ++ NL :: str "- Progress logged"), w)
    | _ =>
        (Warning (str "Plan Incomplete / Issues Found:" ++ NL
                  :: join [NL] issues), w)
    end
  else (Warning (str "No plan found."), w).

(** The twelve logical operations with their arguments; an absent optional
    argument of the source has its default. *)
Inductive operation :=
| CreatePlan (task_name objective : text) (phases : list text)
| ReadPlan (start_char : Z)
| UpdatePlan (section content : text)
| MarkComplete (phase_or_item : text)
| AddTodo (item : text) (phase : option text)
| SaveFinding (title content category : text)
| ReadFindings (start_char : Z)
| LogProgress (entry : text) (include_timestamp : bool)
| LogError (error context : text)
| GetStatus
| CheckPlanIntegrity
| CleanupPlan.

Definition run (op : operation) (w : world) : reply * world :=
  match op with
  | CreatePlan task_name objective phases =>
      create_plan task_name objective phases w
  | ReadPlan start_char => read_plan start_char w
  | UpdatePlan section content => update_plan section content w
  | MarkComplete phase_or_item => mark_complete phase_or_item w
  | AddTodo item phase => add_todo item phase w
  | SaveFinding title content category =>
      save_finding title content category w
  | ReadFindings start_char => read_findings start_char w
  | LogProgress entry include_timestamp =>
      log_progress entry include_timestamp w
  | LogError error context => log_error error context w
  | GetStatus => get_status w
  | CheckPlanIntegrity => check_plan_integrity w
  | CleanupPlan => cleanup_plan w
  end.

End Operations.

(** ** Notions used to state the properties *)

(** [pat] occurs in [s] at offset [p]. *)
Definition occurs_at (pat s : text) (p : nat) : Prop :=
  exists a b, s = a ++ pat ++ b /\ length a = p.

(** [p] is the first offset from [start] on at which [pat] occurs in [s]. *)
Definition first_occurrence_from (pat s : text) (start p : nat) : Prop :=
  start <= p /\ occurs_at pat s p
  /\ forall q, start <= q -> q < p -> ~ occurs_at pat s q.

Definition first_occurrence (pat s : text) (p : nat) : Prop :=
  first_occurrence_from pat s 0 p.

(** [pat] occurs nowhere in [s] from offset [start] on. *)
Definition absent_from (pat s : text) (start : nat) : Prop :=
  forall q, start <= q -> ~ occurs_at pat s q.

Definition all_space (w : text) : Prop :=
  Forall (fun c => is_space c = true) w.

(** [r] is [s] without its trailing whitespace. *)
Definition right_trimmed (s r : text) : Prop :=
  (exists w, s = r ++ w /\ all_space w)
  /\ (r = [] \/ exists r' c, r = r' ++ [c] /\ is_space c = false).

(** [new] is [content] with a non-empty fragment put in, at the end of the
    text when [at_end] is set; [trimmed] is the whitespace that stood in
    front of the insertion point and is dropped. *)
Definition inserts (content new trimmed : text) (at_end : bool) : Prop :=
  exists pre post fragment,
    content = pre ++ trimmed ++ post /\ all_space trimmed
    /\ new = pre ++ fragment ++ post /\ fragment <> []
    /\ (at_end = true -> post = []).

(** The trailing whitespace of [s], which [s.rstrip()] drops. *)
Definition trailing_space (s : text) : text := skipn (length (rstrip s)) s.

Definition is_create_plan (op : operation) : bool :=
  match op with CreatePlan _ _ _ => true | _ => false end.

(** The operations that read or edit the plan document. *)
Definition needs_plan (op : operation) : bool :=
  match op with
  | ReadPlan _ | UpdatePlan _ _ | MarkComplete _ | AddTodo _ _
  | LogError _ _ | GetStatus | CheckPlanIntegrity => true
  | _ => false
  end.

(** The result of such an operation when there is no plan. *)
Definition not_found_reply (op : operation) : reply :=
  match op with
  | ReadPlan _ =>
      Warning (str "No task_plan.md found. Use create_plan to start.")
  | GetStatus => NoSession
  | CheckPlanIntegrity => Warning (str "No plan found.")
  | _ => Warning (str "No task_plan.md found.")
  end.

(** The counts of a status reply: completed, total, errors. *)
Definition status_counts (r : reply) : option (nat * nat * nat) :=
  match r with
  | Report s => Some (report_completed s, report_total s, report_errors s)
  | _ => None
  end.

(** One block of the phase list of [create_plan]. *)
Definition phase_block (numbered : nat * text) : text :=
  str "### Phase " ++ dec (fst numbered) ++ str ": " ++ snd numbered
  ++ NL :: str "- [ ] " ++ [NL; NL].

(** The scenario of the specification, run at a fixed clock reading. *)
Definition scenario_status (ratio : text -> text -> Q) (planning_dir : text)
           (w : world) : reply :=
  let now := mk_datetime 2026 11 3 9 5 in
  let w := snd (create_plan planning_dir now (str "Refactor")
                  (str "Speed up parser")
                  [str "Investigate"; str "Implement"] w) in
  let w := snd (add_todo (str "Profile hotspots") (Some (str "Investigate"))
                  w) in
  let w := snd (mark_complete ratio (str "Profile hotspots") w) in
  fst (get_status planning_dir w).

(** *** The resolution order of [mark_complete], in the words of the
    specification *)

Section Resolution.

Variable ratio : text -> text -> Q.

(** An unchecked item whose trimmed text is the trimmed argument. *)
Definition exact_item (phase_or_item line : text) : bool :=
  is_incomplete_task line && text_eqb (task_text line) (strip phase_or_item).

(** The score of a line: 0.9 for an unchecked item whose lower-cased text
    contains the lower-cased trimmed argument, the similarity ratio for
    another unchecked item when it exceeds 0.8, none otherwise. *)
Definition line_score (phase_or_item line : text) : option Q :=
  let target := lower (strip phase_or_item) in
  let task_lower := lower (task_text line) in
  if negb (is_incomplete_task line) then None
  else if contains target task_lower then Some (9 # 10)
  else if negb (Qle_bool (ratio target task_lower) (8 # 10))
       then Some (ratio target task_lower)
       else None.

(** The line that the specification selects: the first exact item; or,
    without one, the scored line that no line beats and no earlier line
    equals; or none when no line is exact or scored. *)
Inductive resolves (phase_or_item : text) (lines : list text)
  : option nat -> Prop :=
| resolves_exact (before : list text) (line : text) (after : list text) :
    lines = before ++ line :: after ->
    exact_item phase_or_item line = true ->
    (forall l, In l before -> exact_item phase_or_item l = false) ->
    resolves phase_or_item lines (Some (length before))
| resolves_scored (before : list text) (line : text) (after : list text)
                  (q : Q) :
    lines = before ++ line :: after ->
    (forall l, In l lines -> exact_item phase_or_item l = false) ->
    line_score phase_or_item line = Some q ->
    (forall l q', In l before -> line_score phase_or_item l = Some q' ->
                  (q' < q)%Q) ->
    (forall l q', In l after -> line_score phase_or_item l = Some q' ->
                  (q' <= q)%Q) ->
    resolves phase_or_item lines (Some (length before))
| resolves_none :
    (forall l, In l lines ->
               exact_item phase_or_item l = false
               /\ line_score phase_or_item l = None) ->
    resolves phase_or_item lines None.

End Resolution.

(** A text without a line end. *)
Definition no_nl (l : text) : Prop := ~ In NL l.

(** The lines that [readlines] returns: every line but the last ends with
    its line end, the last one may lack it, and none is empty. *)
Inductive lines_wf : list text -> Prop :=
| lines_wf_nil : lines_wf []
| lines_wf_last (l : text) : l <> [] -> no_nl l -> lines_wf [l]
| lines_wf_cons (l : text) (ls : list text) :
    no_nl l -> lines_wf ls -> lines_wf ((l ++ [NL]) :: ls).

(** An unchecked checklist line as [mark_complete] accepts it, without
    its line end: indentation, bullet, whitespace, the empty box and the
    rest. *)
Definition unchecked_line (indent : text) (bullet : ascii) (gap rest : text)
  : text :=
  indent ++ bullet :: gap ++ str "[ ]" ++ rest.

(** The same line with the box checked. *)
Definition checked_line (indent : text) (bullet : ascii) (gap rest : text)
  : text :=
  indent ++ bullet :: gap ++ str "[x]" ++ rest.

(** The lines that the checklist parser recognises, in words: at column 0
    a dash, at least one whitespace character, the box with a blank or an
    [x], at least one whitespace character, and a non-empty text. *)
Definition checklist_form (line : text) : Prop :=
  exists gap mark sep txt,
    line = "-"%char :: gap ++ "["%char :: mark :: "]"%char :: sep ++ txt
    /\ gap <> [] /\ all_space gap
    /\ (mark = " "%char \/ mark = "x"%char)
    /\ sep <> [] /\ all_space sep /\ txt <> [].

Definition is_todo_line (line : text) : bool :=
  match todo_match line with Some _ => true | None => false end.

(** No text after the box: nothing follows it, or one whitespace
    character alone. *)
Definition no_item_text (rest : text) : Prop :=
  rest = [] \/ exists c, rest = [c] /\ is_space c = true.

(** No occurrence of [pat] in [a ++ b] starts in [a] and ends in [b]. *)
Definition no_span (pat a b : text) : Prop :=
  forall a1 a2, a = a1 ++ a2 -> a2 <> [] ->
                prefixb pat (a2 ++ b) = true -> prefixb pat a2 = true.

(** The entry that [log_error] writes into the plan. *)
Definition error_entry (date error context : text) : text :=
  NL :: str "### Error at " ++ date ++ NL :: str "**Error:** " ++ error
  ++ [NL]
  ++ match context with
     | [] => []
     | _ => str "**Context:** " ++ context ++ [NL]
     end.

(** The text [s] begins with a heading that mentions [phase]: three hash
    signs, whitespace, any characters of one line, and the phase name in
    any letter case. *)
Definition heading_mentions (phase s : text) : Prop :=
  exists ws mid found rest,
    s = str "###" ++ ws ++ mid ++ found ++ rest
    /\ ws <> [] /\ all_space ws /\ no_nl mid /\ lower found = lower phase.

(** Such a heading begins at offset [p] of [s], at the start of a line;
    [bol] tells whether [s] itself begins a line. *)
Definition heading_at_from (bol : bool) (phase s : text) (p : nat) : Prop :=
  exists a rest,
    s = a ++ rest /\ length a = p
    /\ ((a = [] /\ bol = true) \/ exists a', a = a' ++ [NL])
    /\ heading_mentions phase rest.

Definition heading_at (phase content : text) (p : nat) : Prop :=
  heading_at_from true phase content p.

(** The first heading of the document that mentions [phase]. *)
Definition first_heading (phase content : text) (p : nat) : Prop :=
  heading_at phase content p
  /\ forall q, q < p -> ~ heading_at phase content q.

(** Where [add_todo] puts an item under the heading found at [p]: in front
    of the first line end after [p] that is followed by three hash signs,
    or by two and a blank, or at the end of the document. *)
Definition section_end (content : text) (p e : nat) : Prop :=
  (e = length content
   /\ absent_from (NL :: str "###") content (p + 1)
   /\ absent_from (NL :: str "## ") content (p + 1))
  \/ (p + 1 <= e
      /\ (occurs_at (NL :: str "###") content e
          \/ occurs_at (NL :: str "## ") content e)
      /\ forall q, p + 1 <= q -> q < e ->
                   ~ occurs_at (NL :: str "###") content q
                   /\ ~ occurs_at (NL :: str "## ") content q).

(** Where [add_todo] puts an item without a phase: at the first offset at
    which [## Notes] or [## Error Log] occurs, or at the end of the
    document. *)
Definition notes_or_errors (content : text) (e : nat) : Prop :=
  (e = length content
   /\ absent_from (str "## Notes") content 0
   /\ absent_from (str "## Error Log") content 0)
  \/ ((occurs_at (str "## Notes") content e
       \/ occurs_at (str "## Error Log") content e)
      /\ forall q, q < e ->
                   ~ occurs_at (str "## Notes") content q
                   /\ ~ occurs_at (str "## Error Log") content q).

(** The character budget of a read: the setting [max_plan_length], or
    4000 when it is unset. *)
Definition effective_budget (max_plan_length : nat) : nat :=
  if max_plan_length =? 0 then 4000 else max_plan_length.

(** The notice that [_truncate] appends. *)
Definition truncation_notice (budget : nat) : text :=
  NL :: str "... (truncated to " ++ dec budget ++ str " characters)".

(** The entry that [save_finding] writes. *)
Definition finding_entry (date title content : text) : text :=
  NL :: str "### " ++ title ++ NL :: "*"%char :: date
  ++ "*"%char :: [NL; NL] ++ content ++ [NL].


(** The document characters of a reply to a read with the given budget:
    the text without the notice of [_truncate]; a warning holds none. *)
Definition page_text (budget : nat) (r : reply) : text :=
  match r with
  | Raw body => firstn budget body
  | _ => []
  end.

(** The value of [current_phase] in the loop of [_parse_todos_from_plan]
    after the given lines. *)
Fixpoint phase_after (current_phase : option text) (lines : list text)
  : option text :=
  match lines with
  | [] => current_phase
  | line :: rest =>
      phase_after (match phase_match line with
                   | Some p => Some p
                   | None => current_phase
                   end) rest
  end.

(** The lines of a plan that [mark_complete] can still check. *)
Definition unchecked_lines (content : text) : list text :=
  filter is_incomplete_task (readlines content).

(** A decimal digit. *)
Definition is_digit (c : ascii) : bool :=
  (48 <=? nat_of_ascii c) && (nat_of_ascii c <=? 57).




(** ** The grouping of the items in the widgets *)

(** Equality of two values of [todo['phase']], a title or [None]. *)
Definition phase_eqb (a b : option text) : bool :=
  match a, b with
  | None, None => true
  | Some x, Some y => text_eqb x y
  | _, _ => false
  end.

(** One step of the loop that groups the items in [TodoListWidget] and in
    [_update_content] of the mini app: [phases[phase].append(todo)], with a
    new key put behind the keys of the dictionary. *)
Fixpoint phases_add (phase : option text) (t : todo)
         (phases : list (option text * list todo))
  : list (option text * list todo) :=
  match phases with
  | [] => [(phase, [t])]
  | (k, ts) :: rest =>
      if phase_eqb k phase then (k, ts ++ [t]) :: rest
      else (k, ts) :: phases_add phase t rest
  end.

(** The dictionary [phases] after the loop, in the order of its keys. *)
Definition group_by_phase (todos : list todo)
  : list (option text * list todo) :=
  fold_left (fun phases t => phases_add (todo_phase t) t phases) todos [].

(** What is appended to the list box: the header of a phase or the row of
    an item. *)
Inductive list_row :=
| PhaseHeader (title : text)
| TodoRow (t : todo).

(** The rows in the order in which they are appended; a header is put in
    front of a group when there is more than one group and the phase is
    neither [None] nor empty. *)
Definition todo_rows (todos : list todo) : list list_row :=
  let phases := group_by_phase todos in
  flat_map
    (fun entry =>
       match fst entry with
       | Some (c :: title) =>
           if 1 <? length phases then [PhaseHeader (c :: title)] else []
       | _ => []
       end ++ map TodoRow (snd entry))
    phases.

(** The items of the rows, headers left out. *)
Fixpoint row_items (rows : list list_row) : list todo :=
  match rows with
  | [] => []
  | PhaseHeader _ :: rest => row_items rest
  | TodoRow t :: rest => t :: row_items rest
  end.

(** ** The mini app *)

(** The text by which [_update_content] tells whether the planning data
    changed: task name, completed, total and errors, joined by
    underscores. *)
Definition data_hash (d : planning_data) : text :=
  data_task_name d ++ "_"%char :: dec (data_completed d)
  ++ "_"%char :: dec (data_total d) ++ "_"%char :: dec (data_errors d).

(** [PlanningMiniApp._update_content] on the field [_last_data_hash]: the
    new value of the field, and the data from which the content is built
    again, or [None] when the content is left as it is. *)
Definition _update_content (_last_data_hash : option text) (w : world)
  : option text * option planning_data :=
  let data := _get_planning_data w in
  match _last_data_hash with
  | Some last =>
      if text_eqb (data_hash data) last then (_last_data_hash, None)
      else (Some (data_hash data), Some data)
  | None => (Some (data_hash data), Some data)
  end.

(** ** Paths *)

(** [os.path.isabs] and [os.path.join] of two components, as they are on
    a POSIX system. *)
Definition isabs (p : text) : bool := prefixb (str "/") p.

Definition path_join (a b : text) : text :=
  if prefixb (str "/") b then b
  else match a with
       | [] => b
       | _ => if Ascii.eqb (last a " "%char) "/"%char then a ++ b
              else a ++ "/"%char :: b
       end.

(** [_get_planning_dir] for the value of the setting [planning_directory]
    (empty when unset) and the working directory. *)
Definition _get_planning_dir (planning_directory cwd : text) : text :=
  let base_dir :=
    match planning_directory with
    | [] => str "."
    | _ => planning_directory
    end in
  if isabs base_dir then base_dir else path_join cwd base_dir.

Definition _file_path (planning_directory cwd filename : text) : text :=
  path_join (_get_planning_dir planning_directory cwd) filename.


(** * Properties *)

(** ** Examples of the text functions *)

Example split_nl_ex : split_nl (str "a
b
") = [str "a"; str "b"; []].
Proof. reflexivity. Qed.

Example readlines_ex : readlines (str "a
b
c") = [str "a
"; str "b
"; str "c"].
Proof. reflexivity. Qed.

Example count_ex : count (str "aa") (str "aaaaa") = 2.
Proof. reflexivity. Qed.

Example rstrip_ex : rstrip (str " a b  ") = str " a b".
Proof. reflexivity. Qed.

Example dec_ex : dec 2026 = str "2026" /\ dec 0 = str "0".
Proof. split; reflexivity. Qed.

(** ** Prefixes and occurrences *)

Lemma prefixb_app (p r : text) : prefixb p (p ++ r) = true.
Proof.
  induction p as [|a p IH]; simpl; [reflexivity|].
  now rewrite Ascii.eqb_refl, IH.
Qed.

Lemma prefixb_true (p s : text) :
  prefixb p s = true <-> exists r, s = p ++ r.
Proof.
  split.
  - revert s; induction p as [|a p IH]; intros s H.
    + now exists s.
    + destruct s as [|b s]; simpl in H; [discriminate|].
      apply andb_true_iff in H as [Hab Hp].
      apply Ascii.eqb_eq in Hab; subst b.
      destruct (IH _ Hp) as [r ->]. now exists r.
  - intros [r ->]. apply prefixb_app.
Qed.

Lemma occurs_at_0 (pat s : text) :
  occurs_at pat s 0 <-> prefixb pat s = true.
Proof.
  rewrite prefixb_true. split.
  - intros (a & b & -> & Ha). destruct a; [|discriminate]. now exists b.
  - intros [r ->]. now exists [], r.
Qed.

Lemma occurs_at_S (pat : text) (c : ascii) (s : text) (p : nat) :
  occurs_at pat (c :: s) (S p) <-> occurs_at pat s p.
Proof.
  split.
  - intros (a & b & E & Ha). destruct a as [|x a]; [discriminate|].
    simpl in E, Ha. injection E as -> ->. injection Ha as Ha.
    now exists a, b.
  - intros (a & b & -> & Ha). exists (c :: a), b. simpl. now rewrite Ha.
Qed.

Lemma occurs_at_bound (pat s : text) (p : nat) :
  occurs_at pat s p -> p + length pat <= length s.
Proof.
  intros (a & b & -> & <-). rewrite !length_app. lia.
Qed.

Lemma occurs_at_skipn (pat s : text) (k p : nat) :
  k <= length s -> (occurs_at pat (skipn k s) p <-> occurs_at pat s (k + p)).
Proof.
  revert s; induction k as [|k IH]; intros s Hk; simpl.
  - reflexivity.
  - destruct s as [|c s]; simpl in Hk; [lia|].
    rewrite occurs_at_S. apply IH. lia.
Qed.

Lemma find_Some (pat s : text) (p : nat) :
  find pat s = Some p <-> first_occurrence pat s p.
Proof.
  unfold first_occurrence, first_occurrence_from.
  revert p; induction s as [|c s IH]; intros p; simpl.
  - destruct (prefixb pat []) eqn:E.
    + split.
      * intros [= <-]. repeat split; [lia|now apply occurs_at_0|lia].
      * intros (_ & H & Hmin). destruct p; [reflexivity|].
        exfalso. apply (Hmin 0); [lia|lia|now apply occurs_at_0].
    + split; [discriminate|]. intros (_ & H & _).
      pose proof (occurs_at_bound _ _ _ H) as Hb. simpl in Hb.
      assert (p = 0) by lia. subst p. apply occurs_at_0 in H. congruence.
  - destruct (prefixb pat (c :: s)) eqn:E.
    + split.
      * intros [= <-]. repeat split; [lia|now apply occurs_at_0|lia].
      * intros (_ & H & Hmin). destruct p; [reflexivity|].
        exfalso. apply (Hmin 0); [lia|lia|now apply occurs_at_0].
    + destruct p as [|p].
      * split.
        -- destruct (find pat s); discriminate.
        -- intros (_ & H & _). apply occurs_at_0 in H. congruence.
      * split.
        -- destruct (find pat s) as [q|] eqn:F; [|discriminate].
           intros [= <-]. destruct (proj1 (IH q) eq_refl) as (_ & H & Hmin).
           repeat split; [lia|now apply occurs_at_S|].
           intros [|r] _ Hr Hocc.
           ++ apply occurs_at_0 in Hocc. congruence.
           ++ apply occurs_at_S in Hocc. apply (Hmin r); [lia|lia|assumption].
        -- intros (_ & H & Hmin). apply occurs_at_S in H.
           rewrite (proj2 (IH p)); [reflexivity|].
           repeat split; [lia|assumption|].
           intros r _ Hr Hocc. apply (Hmin (S r)); [lia|lia|].
           now apply occurs_at_S.
Qed.

Lemma find_None (pat s : text) :
  find pat s = None <-> absent_from pat s 0.
Proof.
  unfold absent_from. induction s as [|c s IH]; simpl.
  - destruct (prefixb pat []) eqn:E.
    + split; [discriminate|]. intros H. exfalso.
      apply (H 0); [lia|now apply occurs_at_0].
    + split; [|reflexivity]. intros _ q _ H.
      pose proof (occurs_at_bound _ _ _ H) as Hb. simpl in Hb.
      assert (q = 0) by lia. subst q. apply occurs_at_0 in H. congruence.
  - destruct (prefixb pat (c :: s)) eqn:E.
    + split; [discriminate|]. intros H. exfalso.
      apply (H 0); [lia|now apply occurs_at_0].
    + split.
      * destruct (find pat s) eqn:F; [discriminate|]. intros _ [|q] _ H.
        -- apply occurs_at_0 in H. congruence.
        -- apply occurs_at_S in H. apply (proj1 IH eq_refl q); [lia|assumption].
      * intros H. rewrite (proj2 IH); [reflexivity|].
        intros q _ Hq. apply (H (S q)); [lia|]. now apply occurs_at_S.
Qed.

Lemma find_from_Some (pat s : text) (start p : nat) :
  start <= length s ->
  (find_from pat s start = Some p <-> first_occurrence_from pat s start p).
Proof.
  intros Hs. unfold find_from.
  destruct (Nat.leb_spec start (length s)) as [_|Hlt]; [|lia].
  split.
  - destruct (find pat (skipn start s)) as [q|] eqn:F; [|discriminate].
    intros [= <-]. apply find_Some in F. destruct F as (_ & H & Hmin).
    repeat split; [lia|now apply occurs_at_skipn|].
    intros r Hr1 Hr2 Hocc. apply (Hmin (r - start)); [lia|lia|].
    apply occurs_at_skipn; [assumption|].
    now replace (start + (r - start)) with r by lia.
  - intros (Hp & H & Hmin).
    assert (F : find pat (skipn start s) = Some (p - start)).
    { apply find_Some. repeat split; [lia| |].
      - apply occurs_at_skipn; [assumption|].
        now replace (start + (p - start)) with p by lia.
      - intros r _ Hr Hocc. apply (Hmin (start + r)); [lia|lia|].
        now apply occurs_at_skipn. }
    rewrite F. simpl. f_equal. lia.
Qed.

Lemma find_from_None (pat s : text) (start : nat) :
  start <= length s ->
  (find_from pat s start = None <-> absent_from pat s start).
Proof.
  intros Hs. unfold find_from.
  destruct (Nat.leb_spec start (length s)) as [_|Hlt]; [|lia].
  split.
  - destruct (find pat (skipn start s)) eqn:F; [discriminate|].
    intros _ q Hq Hocc. apply find_None in F.
    apply (F (q - start)); [lia|]. apply occurs_at_skipn; [assumption|].
    now replace (start + (q - start)) with q by lia.
  - intros H. rewrite (proj2 (find_None pat (skipn start s))); [reflexivity|].
    intros q _ Hocc. apply (H (start + q)); [lia|].
    now apply occurs_at_skipn.
Qed.

Lemma contains_true (pat s : text) :
  contains pat s = true <-> exists p, occurs_at pat s p.
Proof.
  unfold contains. destruct (find pat s) as [p|] eqn:F.
  - apply find_Some in F. destruct F as (_ & H & _).
    split; [now exists p|reflexivity].
  - split; [discriminate|]. intros [p H]. apply find_None in F.
    exfalso. apply (F p); [lia|assumption].
Qed.

(** ** Whitespace *)

Lemma take_space_lstrip (s : text) : take_space s ++ lstrip s = s.
Proof.
  induction s as [|c s IH]; simpl; [reflexivity|].
  destruct (is_space c); simpl; [now rewrite IH|reflexivity].
Qed.

Lemma take_space_all_space (s : text) : all_space (take_space s).
Proof.
  induction s as [|c s IH]; simpl; [constructor|].
  destruct (is_space c) eqn:E; constructor; assumption.
Qed.

Lemma lstrip_head (s : text) (c : ascii) (r : text) :
  lstrip s = c :: r -> is_space c = false.
Proof.
  induction s as [|a s IH]; simpl; [discriminate|].
  destruct (is_space a) eqn:E; [assumption|].
  intros [= <- _]. assumption.
Qed.

Lemma lstrip_nonspace (c : ascii) (s : text) :
  is_space c = false -> lstrip (c :: s) = c :: s.
Proof. intros H. simpl. now rewrite H. Qed.

Lemma lstrip_all_space (w s : text) :
  all_space w -> lstrip (w ++ s) = lstrip s.
Proof.
  induction 1 as [|c w Hc _ IH]; simpl; [reflexivity|]. now rewrite Hc.
Qed.

Lemma take_space_app (w : text) (c : ascii) (s : text) :
  all_space w -> is_space c = false -> take_space (w ++ c :: s) = w.
Proof.
  intros Hw Hc. induction Hw as [|a w Ha _ IH]; simpl.
  - now rewrite Hc.
  - now rewrite Ha, IH.
Qed.

Lemma rstrip_all_space (w : text) : all_space w -> rstrip w = [].
Proof.
  induction 1 as [|c w Hc _ IH]; simpl; [reflexivity|]. now rewrite IH, Hc.
Qed.

Lemma rstrip_app_nonspace (a : text) (c : ascii) (w : text) :
  is_space c = false -> all_space w -> rstrip (a ++ c :: w) = a ++ [c].
Proof.
  intros Hc Hw. induction a as [|x a IH]; simpl.
  - now rewrite (rstrip_all_space w Hw), Hc.
  - rewrite IH. destruct a; reflexivity.
Qed.

Lemma rstrip_spec (s : text) : right_trimmed s (rstrip s).
Proof.
  induction s as [|c s [(w & Hw & Hsp) Hend]]; simpl.
  - split; [exists []; split; [reflexivity|constructor]|now left].
  - destruct (rstrip s) as [|x r] eqn:E.
    + simpl in Hw. subst s. destruct (is_space c) eqn:Hc.
      * split; [|now left]. exists (c :: w). split; [reflexivity|].
        now constructor.
      * split; [now exists w|]. right. now exists [], c.
    + split.
      * exists w. split; [|assumption]. simpl. f_equal. exact Hw.
      * right. destruct Hend as [Hnil|(r' & d & Hr & Hd)]; [discriminate|].
        exists (c :: r'), d. split; [|assumption]. simpl. now rewrite Hr.
Qed.

Lemma right_trimmed_rstrip (s r : text) : right_trimmed s r -> rstrip s = r.
Proof.
  intros [(w & -> & Hw) [->|(r' & c & -> & Hc)]].
  - now apply rstrip_all_space.
  - rewrite <- app_assoc. simpl. now apply rstrip_app_nonspace.
Qed.

Lemma rstrip_length (s : text) : length (rstrip s) <= length s.
Proof.
  destruct (rstrip_spec s) as [(w & Hw & _) _].
  rewrite Hw at 2. rewrite length_app. lia.
Qed.

Lemma rstrip_idem (s : text) : rstrip (rstrip s) = rstrip s.
Proof.
  apply right_trimmed_rstrip. destruct (rstrip_spec s) as [_ Hend].
  split; [|assumption]. exists []. split; [now rewrite app_nil_r|constructor].
Qed.

(** ** Lines *)

Lemma concat_readlines (s : text) : concat (readlines s) = s.
Proof.
  induction s as [|c s IH]; simpl; [reflexivity|].
  destruct (Ascii.eqb c NL).
  - simpl. now rewrite IH.
  - destruct (readlines s) as [|l ls]; simpl in *; now rewrite <- IH.
Qed.

Lemma split_nl_nonempty (s : text) : split_nl s <> [].
Proof.
  induction s as [|c s IH]; simpl; [discriminate|].
  destruct (Ascii.eqb c NL); [discriminate|].
  destruct (split_nl s); [contradiction|discriminate].
Qed.

Lemma split_nl_app (a b : text) :
  split_nl (a ++ NL :: b) = split_nl a ++ split_nl b.
Proof.
  induction a as [|c a IH]; simpl; [reflexivity|].
  destruct (Ascii.eqb c NL) eqn:E.
  - now rewrite IH.
  - rewrite IH. pose proof (split_nl_nonempty a) as Hne.
    destruct (split_nl a) as [|l ls]; [contradiction|]. reflexivity.
Qed.

Lemma split_nl_no_nl (l : text) : no_nl l -> split_nl l = [l].
Proof.
  induction l as [|c l IH]; intros H; simpl; [reflexivity|].
  destruct (Ascii.eqb_spec c NL) as [->|Hc].
  - exfalso. apply H. now left.
  - rewrite IH; [reflexivity|]. intros Hin. apply H. now right.
Qed.


Lemma readlines_line (body rest : text) :
  no_nl body -> readlines (body ++ NL :: rest) = (body ++ [NL]) :: readlines rest.
Proof.
  induction body as [|c body IH]; intros H; simpl.
  - reflexivity.
  - destruct (Ascii.eqb_spec c NL) as [->|Hc].
    + exfalso. apply H. now left.
    + rewrite IH; [reflexivity|]. intros Hin. apply H. now right.
Qed.

Lemma readlines_last (body : text) :
  no_nl body -> body <> [] -> readlines body = [body].
Proof.
  induction body as [|c body IH]; intros H Hne; [contradiction|]. simpl.
  destruct (Ascii.eqb_spec c NL) as [->|Hc].
  - exfalso. apply H. now left.
  - destruct body as [|d body]; [reflexivity|].
    rewrite IH; [reflexivity| |discriminate].
    intros Hin. apply H. now right.
Qed.

Lemma readlines_wf (s : text) : lines_wf (readlines s).
Proof.
  induction s as [|c s IH]; simpl; [constructor|].
  destruct (Ascii.eqb_spec c NL) as [->|Hc].
  - apply (lines_wf_cons [] (readlines s)); [intros []|assumption].
  - destruct (readlines s) as [|l ls].
    + apply lines_wf_last; [discriminate|]. intros [H|[]]. congruence.
    + inversion IH as [|l' Hne Hnl|l' ls' Hnl Hwf]; subst.
      * apply lines_wf_last; [discriminate|].
        intros [H|H]; [congruence|contradiction].
      * apply (lines_wf_cons (c :: l') ls); [|assumption].
        intros [H|H]; [congruence|contradiction].
Qed.

Lemma readlines_concat (ls : list text) :
  lines_wf ls -> readlines (concat ls) = ls.
Proof.
  induction 1 as [|l Hne Hnl|l ls Hnl Hwf IH]; simpl.
  - reflexivity.
  - rewrite app_nil_r. now apply readlines_last.
  - rewrite <- app_assoc. simpl. rewrite readlines_line by assumption.
    now rewrite IH.
Qed.


(** ** Insertions keep the text around the insertion point *)

Lemma rstrip_trailing_space (s : text) :
  s = rstrip s ++ trailing_space s /\ all_space (trailing_space s).
Proof.
  destruct (rstrip_spec s) as [(w & Hw & Hsp) _]. unfold trailing_space.
  assert (E : skipn (length (rstrip s)) s = w).
  { rewrite Hw at 2. rewrite skipn_app, skipn_all, Nat.sub_diag. reflexivity. }
  rewrite E. split; assumption.
Qed.

Lemma rstrip_insert (content fragment new : text) (pos : nat) :
  fragment <> [] ->
  new = rstrip (firstn pos content) ++ fragment ++ skipn pos content ->
  inserts content new (trailing_space (firstn pos content)) false.
Proof.
  intros Hf ->.
  destruct (rstrip_trailing_space (firstn pos content)) as [Hw Hsp].
  exists (rstrip (firstn pos content)), (skipn pos content), fragment.
  repeat split; try assumption; [|discriminate].
  rewrite app_assoc, <- Hw. symmetry. apply firstn_skipn.
Qed.

Lemma rstrip_append (content fragment new : text) (at_end : bool) :
  fragment <> [] ->
  new = rstrip content ++ fragment ->
  inserts content new (trailing_space content) at_end.
Proof.
  intros Hf ->. destruct (rstrip_trailing_space content) as [Hw Hsp].
  exists (rstrip content), [], fragment.
  repeat split; try assumption; now rewrite app_nil_r.
Qed.

Lemma inserts_length (content new trimmed : text) (at_end : bool) :
  inserts content new trimmed at_end ->
  length content < length new + length trimmed.
Proof.
  intros (pre & post & fragment & -> & _ & -> & Hf & _).
  rewrite !length_app. destruct fragment; [contradiction|]. simpl. lia.
Qed.

Lemma positive_positions_end (a b : option nat) (content : text) :
  content <> [] ->
  exists m, list_min (positive_positions [a; b; Some (length content)])
            = Some m.
Proof.
  intros Hc. destruct content as [|x content]; [contradiction|].
  destruct a as [[|a]|]; destruct b as [[|b]|]; simpl; eexists; reflexivity.
Qed.

Lemma add_todo_text_inserts (item : text) (phase : option text)
      (content : text) :
  exists new trimmed,
    add_todo_text item phase content = Some new
    /\ inserts content new trimmed false.
Proof.
  unfold add_todo_text.
  assert (Hno : exists new trimmed,
             (if contains (str "## Phases") content
              then
                match
                  list_min (positive_positions
                              [find (str "## Notes") content;
                               find (str "## Error Log") content;
                               Some (length content)])
                with
                | Some insert_pos =>
                    Some (rstrip (firstn insert_pos content)
                          ++ NL :: (str "- [ ] " ++ item) ++ [NL; NL]
                          ++ skipn insert_pos content)
                | None => None
                end
              else Some (rstrip content ++ [NL; NL] ++ str "## Tasks"
                         ++ NL :: (str "- [ ] " ++ item) ++ [NL])) = Some new
             /\ inserts content new trimmed false).
  { destruct (contains (str "## Phases") content) eqn:Hc.
    - assert (Hne : content <> []) by (intros ->; discriminate).
      destruct (positive_positions_end (find (str "## Notes") content)
                  (find (str "## Error Log") content) content Hne) as [m ->].
      eexists; eexists; split; [reflexivity|].
      apply rstrip_insert
        with (fragment := NL :: (str "- [ ] " ++ item) ++ [NL; NL]).
      + discriminate.
      + simpl. now rewrite <- !app_assoc.
    - eexists; eexists; split; [reflexivity|].
      eapply rstrip_append; [|reflexivity]. discriminate. }
  destruct phase as [[|c ph]|]; [exact Hno| |exact Hno].
  set (phase := c :: ph).
  destruct (match find (str "### " ++ phase) content with
            | Some p => Some p
            | None => search_heading phase true content
            end) as [p|].
  - eexists; eexists; split; [reflexivity|].
    apply rstrip_insert with (fragment := NL :: (str "- [ ] " ++ item) ++ [NL]).
    + discriminate.
    + simpl. now rewrite <- !app_assoc.
  - eexists; eexists; split; [reflexivity|].
    eapply rstrip_append; [|reflexivity]. discriminate.
Qed.

Section Insertion.

Variable now : datetime.

(** C8, as amended.  The insertions keep the text on both sides of the
    insertion point, except for the whitespace right in front of it:
    [add_todo] in either mode, and the branches of [update_plan],
    [save_finding] and [log_error] that append a new section at the end of
    the document, turn a text [pre ++ trimmed ++ post], where [trimmed] is
    whitespace, into [pre ++ fragment ++ post] with a non-empty fragment
    ([post] is empty when a section is appended).  Hence the text before
    the insertion point, right-trimmed, is a prefix of the result, and the
    result is shorter than the document only by less than the whitespace
    dropped: it is longer whenever no whitespace stood in front of the
    insertion point. *)
Theorem insertion_keeps_content
        (item : text) (phase : option text) (section body title category
         error context plan : text) :
  (exists new trimmed,
      add_todo_text item phase plan = Some new
      /\ inserts plan new trimmed false
      /\ length plan < length new + length trimmed)
  /\ (absent_from (str "## " ++ section) plan 0 ->
      fst (update_plan_text section body plan) = false
      /\ inserts plan (snd (update_plan_text section body plan))
           (trailing_space plan) true)
  /\ (absent_from (str "## " ++ category) plan 0 ->
      inserts plan (save_finding_text now title body category plan)
        (trailing_space plan) true)
  /\ (absent_from (str "## Error Log") plan 0 ->
      inserts plan (log_error_text now error context plan)
        (trailing_space plan) true)
  /\ (forall new trimmed at_end,
         inserts plan new trimmed at_end ->
         length plan < length new + length trimmed
         /\ (trimmed = [] -> length plan < length new)).
Proof.
  split; [|split; [|split; [|split]]].
  - destruct (add_todo_text_inserts item phase plan) as (new & w & E & H).
    exists new, w. repeat split; try assumption.
    now apply inserts_length with (at_end := false).
  - intros Habs. apply find_None in Habs. unfold update_plan_text.
    rewrite Habs. simpl fst; simpl snd. split; [reflexivity|].
    eapply rstrip_append; [|reflexivity]. discriminate.
  - intros Habs. apply find_None in Habs. unfold save_finding_text.
    rewrite Habs. eapply rstrip_append; [|reflexivity]. discriminate.
  - intros Habs. apply find_None in Habs. unfold log_error_text.
    rewrite Habs. eapply rstrip_append; [|reflexivity]. discriminate.
  - intros new trimmed at_end H.
    pose proof (inserts_length _ _ _ _ H) as Hl. split; [assumption|].
    intros ->. simpl in Hl. lia.
Qed.

End Insertion.

(** C8 fails as it is stated: with trailing blank lines the appended
    section is shorter than the whitespace it replaces, so the document
    shrinks and the previous text is no prefix of the new one. *)
Lemma insertion_can_shrink :
  let plan := str "# T" ++ repeat NL 20 in
  let updated := snd (update_plan_text (str "A") [] plan) in
  fst (update_plan_text (str "A") [] plan) = false
  /\ length updated < length plan
  /\ prefixb plan updated = false
  /\ exists added, add_todo_text (str "a") None plan = Some added
                   /\ length added < length plan
                   /\ prefixb plan added = false.
Proof.
  repeat split; try (vm_compute; lia).
  eexists. split; [vm_compute; reflexivity|]. split; vm_compute; [lia|reflexivity].
Qed.

(** ** Reading a document *)

Section Reading.

Variable max_plan_length : nat.

Lemma _truncate_within (txt : text) :
  length txt <= effective_budget max_plan_length ->
  _truncate max_plan_length txt = txt.
Proof.
  intros H. unfold _truncate. fold (effective_budget max_plan_length).
  destruct (Nat.ltb_spec (effective_budget max_plan_length) (length txt));
    [lia|reflexivity].
Qed.

Lemma _truncate_beyond (txt : text) :
  effective_budget max_plan_length < length txt ->
  _truncate max_plan_length txt
  = firstn (effective_budget max_plan_length) txt
    ++ truncation_notice (effective_budget max_plan_length)
  /\ length (firstn (effective_budget max_plan_length) txt)
     = effective_budget max_plan_length.
Proof.
  intros H. unfold _truncate. fold (effective_budget max_plan_length).
  destruct (Nat.ltb_spec (effective_budget max_plan_length) (length txt));
    [|lia].
  split; [reflexivity|]. apply firstn_length_le. lia.
Qed.

Lemma read_from_spec (start_char : Z) (content : text) :
  ((0 < start_char)%Z -> (Z.of_nat (length content) <= start_char)%Z ->
   read_from max_plan_length start_char content
   = Warning (str "End of file reached."))
  /\ ((start_char <= 0)%Z \/ (start_char < Z.of_nat (length content))%Z ->
      exists skipped rest,
        content = skipped ++ rest
        /\ Z.of_nat (length skipped) = Z.max 0 start_char
        /\ (length rest <= effective_budget max_plan_length ->
            read_from max_plan_length start_char content = Raw rest)
        /\ (effective_budget max_plan_length < length rest ->
            exists kept dropped,
              rest = kept ++ dropped
              /\ length kept = effective_budget max_plan_length
              /\ read_from max_plan_length start_char content
                 = Raw (kept
                        ++ truncation_notice
                             (effective_budget max_plan_length)))).
Proof.
  unfold read_from. split.
  - intros H1 H2. destruct (Z.ltb_spec 0 start_char); [|lia].
    destruct (Z.leb_spec (Z.of_nat (length content)) start_char); [|lia].
    reflexivity.
  - intros H.
    exists (firstn (Z.to_nat start_char) content),
           (skipn (Z.to_nat start_char) content).
    split; [symmetry; apply firstn_skipn|].
    split; [rewrite length_firstn; lia|].
    assert (E : (if (0 <? start_char)%Z
                 then if (Z.of_nat (length content) <=? start_char)%Z
                      then Warning (str "End of file reached.")
                      else Raw (_truncate max_plan_length
                                  (skipn (Z.to_nat start_char) content))
                 else Raw (_truncate max_plan_length content))
                = Raw (_truncate max_plan_length
                         (skipn (Z.to_nat start_char) content))).
    { destruct (Z.ltb_spec 0 start_char).
      - destruct (Z.leb_spec (Z.of_nat (length content)) start_char);
          [lia|reflexivity].
      - replace (Z.to_nat start_char) with 0%nat by lia. reflexivity. }
    rewrite E. split.
    + intros Hle. now rewrite _truncate_within.
    + intros Hlt. destruct (_truncate_beyond _ Hlt) as [Ht Hk].
      exists (firstn (effective_budget max_plan_length)
                (skipn (Z.to_nat start_char) content)),
             (skipn (effective_budget max_plan_length)
                (skipn (Z.to_nat start_char) content)).
      split; [symmetry; apply firstn_skipn|]. split; [assumption|].
      now rewrite Ht.
Qed.

(** C5, as amended.  [read_plan] and [read_findings] leave the documents
    alone and return: the warning that names the missing file when the
    document is absent; the end-of-file warning for every offset that is
    greater than zero and at least the length of the content; otherwise,
    also for offset 0 on an empty document, the content from the offset
    (from the start for an offset of zero or less), whole when it fits the
    budget and else cut to exactly the budget and followed by the
    truncation notice. *)
Theorem read_document_result (start_char : Z) (w : world) :
  snd (read_plan max_plan_length start_char w) = w
  /\ snd (read_findings max_plan_length start_char w) = w
  /\ (task_plan w = None ->
      fst (read_plan max_plan_length start_char w)
      = Warning (str "No task_plan.md found. Use create_plan to start."))
  /\ (findings w = None ->
      fst (read_findings max_plan_length start_char w)
      = Warning (str "No findings.md found."))
  /\ (forall content read,
         (task_plan w = Some content
          /\ read = fst (read_plan max_plan_length start_char w))
         \/ (findings w = Some content
             /\ read = fst (read_findings max_plan_length start_char w)) ->
         ((0 < start_char)%Z -> (Z.of_nat (length content) <= start_char)%Z ->
          read = Warning (str "End of file reached."))
         /\ ((start_char <= 0)%Z \/ (start_char < Z.of_nat (length content))%Z ->
             exists skipped rest,
               content = skipped ++ rest
               /\ Z.of_nat (length skipped) = Z.max 0 start_char
               /\ (length rest <= effective_budget max_plan_length ->
                   read = Raw rest)
               /\ (effective_budget max_plan_length < length rest ->
                   exists kept dropped,
                     rest = kept ++ dropped
                     /\ length kept = effective_budget max_plan_length
                     /\ read
                        = Raw (kept
                               ++ truncation_notice
                                    (effective_budget max_plan_length))))).
Proof.
  unfold read_plan, read_findings.
  split; [destruct (task_plan w); reflexivity|].
  split; [destruct (findings w); reflexivity|].
  split; [intros ->; reflexivity|].
  split; [intros ->; reflexivity|].
  intros content read [[E ->]|[E ->]]; rewrite E; simpl fst;
    apply read_from_spec.
Qed.

End Reading.

(** C5 fails as it is stated: at offset 0 an empty document is returned as
    it is, without the end-of-file warning, although the offset is not
    below the length of the content. *)
Lemma read_empty_document_at_start :
  let w := mk_world true false (Some []) (Some []) None in
  (Z.of_nat (length (@nil ascii)) <= 0)%Z
  /\ fst (read_plan 4000 0 w) = Raw []
  /\ fst (read_findings 4000 0 w) = Raw []
  /\ fst (read_plan 4000 0 w) <> Warning (str "End of file reached.").
Proof.
  repeat split; [simpl; lia|discriminate].
Qed.

(** The example of the specification: a budget of 10 characters on a
    document of 100 characters. *)
Example read_document_truncates :
  let w := mk_world true false (Some (repeat "a"%char 100)) None None in
  fst (read_plan 10 0 w)
  = Raw (repeat "a"%char 10 ++ NL :: str "... (truncated to 10 characters)")
  /\ fst (read_plan 10 100 w) = Warning (str "End of file reached.").
Proof. split; reflexivity. Qed.

(** ** Looking a section up by name *)

Lemma first_occurrence_split (pat s : text) (p : nat) :
  first_occurrence pat s p ->
  firstn (p + length pat) s = firstn p s ++ pat /\ p + length pat <= length s.
Proof.
  intros (_ & (a & b & -> & <-) & _). split.
  - rewrite firstn_app, firstn_all2 by lia.
    replace (length a + length pat - length a) with (length pat) by lia.
    rewrite firstn_app, firstn_all, Nat.sub_diag, firstn_0, app_nil_r.
    rewrite firstn_app, firstn_all, Nat.sub_diag, firstn_0, app_nil_r.
    reflexivity.
  - rewrite !length_app. lia.
Qed.

Section SectionLookup.

Variable now : datetime.

(** C3, as amended.  [update_plan] and [save_finding] look a section up as
    the first occurrence of the text [## name] anywhere in the document,
    so a name that only starts the title of a heading is found there.
    [update_plan] keeps the document up to the end of that occurrence and
    replaces what follows, up to the next line that starts with [## ], by
    the new content; [save_finding] puts the entry in front of that next
    line, or at the end of the document.  A new section with the name is
    appended at the end of the document exactly when the text [## name]
    occurs nowhere in it. *)
Theorem section_lookup_by_occurrence
        (name content title doc : text) :
  let marker := str "## " ++ name in
  (absent_from marker doc 0 ->
   update_plan_text name content doc
   = (false, rstrip doc ++ [NL; NL] ++ marker ++ NL :: content ++ [NL])
   /\ save_finding_text now title content name doc
      = rstrip doc ++ [NL; NL] ++ marker
        ++ finding_entry (format_date now) title content)
  /\ (forall p,
         first_occurrence marker doc p ->
         (absent_from (NL :: str "## ") doc (p + length marker) ->
          update_plan_text name content doc
          = (true, firstn p doc ++ marker ++ NL :: content ++ [NL])
          /\ save_finding_text now title content name doc
             = rstrip doc ++ finding_entry (format_date now) title content)
         /\ (forall q,
                first_occurrence_from (NL :: str "## ") doc
                  (p + length marker) q ->
                update_plan_text name content doc
                = (true, firstn p doc ++ marker ++ NL :: content ++ [NL]
                         ++ skipn q doc)
                /\ save_finding_text now title content name doc
                   = rstrip (firstn q doc)
                     ++ finding_entry (format_date now) title content
                     ++ [NL] ++ skipn q doc)).
Proof.
  intros marker. split.
  - intros Habs. apply find_None in Habs.
    unfold update_plan_text, save_finding_text. fold marker.
    rewrite Habs. split; reflexivity.
  - intros p Hp. destruct (first_occurrence_split _ _ _ Hp) as [Hcut Hlen].
    apply find_Some in Hp.
    unfold update_plan_text, save_finding_text. fold marker. rewrite Hp.
    split.
    + intros Habs. apply find_from_None in Habs; [|assumption].
      rewrite Habs, Hcut, <- app_assoc. split; reflexivity.
    + intros q Hq. apply find_from_Some in Hq; [|assumption].
      rewrite Hq, Hcut, <- !app_assoc. split; reflexivity.
Qed.

End SectionLookup.

(** C3 fails as it is stated: with only a heading [## Notes] in the
    document, the name [Note] is found inside that heading.  [update_plan]
    reports an updated section, cuts the heading down to [## Note] and
    replaces its body; [save_finding] adds its entry to the section: no
    section is appended. *)
Lemma section_name_prefix_is_found :
  let doc := str "# T" ++ [NL; NL] ++ str "## Notes" ++ NL :: str "old"
             ++ [NL] in
  let now := mk_datetime 2026 1 2 3 4 in
  ~ In (str "## Note") (split_nl doc)
  /\ update_plan_text (str "Note") (str "new") doc
     = (true, str "# T" ++ [NL; NL] ++ str "## Note" ++ NL :: str "new"
              ++ [NL])
  /\ update_plan_text (str "Note") (str "new") doc
     <> (false, rstrip doc ++ [NL; NL] ++ str "## Note" ++ NL :: str "new"
                ++ [NL])
  /\ save_finding_text now (str "t") (str "new") (str "Note") doc
     = str "# T" ++ [NL; NL] ++ str "## Notes" ++ NL :: str "old"
       ++ NL :: str "### t" ++ NL :: str "*2026-01-02 03:04*" ++ [NL; NL]
       ++ str "new" ++ [NL]
  /\ save_finding_text now (str "t") (str "new") (str "Note") doc
     <> rstrip doc ++ [NL; NL] ++ str "## Note" ++ NL :: str "### t"
        ++ NL :: str "*2026-01-02 03:04*" ++ [NL; NL] ++ str "new" ++ [NL].
Proof.
  split; [|split; [|split; [|split]]].
  - vm_compute. intros [H|[H|[H|[H|[H|[]]]]]]; discriminate.
  - vm_compute. reflexivity.
  - vm_compute. discriminate.
  - vm_compute. reflexivity.
  - vm_compute. discriminate.
Qed.

(** ** Operations on an absent plan document *)

Section AbsentPlan.

Variable ratio : text -> text -> Q.
Variable planning_dir : text.
Variable max_plan_length : nat.
Variable now : datetime.

Local Abbreviation exec := (run ratio planning_dir max_plan_length now).

Lemma run_keeps_plan_absent (op : operation) (w : world) :
  is_create_plan op = false -> task_plan w = None ->
  task_plan (snd (exec op w)) = None.
Proof.
  intros Hop Hw. destruct op; try discriminate; simpl;
    unfold read_plan, update_plan, mark_complete, add_todo, save_finding,
      read_findings, log_progress, log_error, get_status,
      check_plan_integrity, cleanup_plan, _get_planning_data;
    rewrite ?Hw; simpl; try assumption.
  - destruct (findings w); simpl; assumption.
  - destruct (findings w); simpl; assumption.
  - destruct (progress w); simpl; assumption.
  - destruct (dir_exists w); [|assumption].
    destruct (other_entries w); reflexivity.
Qed.

(** C7, as amended.  When [task_plan.md] does not exist, every operation
    that reads or edits the plan document ([read_plan], [update_plan],
    [mark_complete], [add_todo], [log_error], [get_status],
    [check_plan_integrity]) returns its not-found result, a warning or,
    for [get_status], the notice that no session is active, and changes no
    document; the other operations ([save_finding], [read_findings],
    [log_progress], [cleanup_plan]) do not look at the plan.  No operation
    other than [create_plan] creates the plan document.  [save_finding] and
    [log_progress] create their own document from its template when it is
    absent and add their content to it; apart from [create_plan], a
    findings document is created by [save_finding] only and a progress
    document by [log_progress] only, also when [log_error] calls it. *)
Theorem absent_plan_is_reported (op : operation) (w : world) :
  (task_plan w = None -> needs_plan op = true ->
   exec op w = (not_found_reply op, w))
  /\ (task_plan w = None -> is_create_plan op = false ->
      task_plan (snd (exec op w)) = None)
  /\ (forall title content category,
         findings w = None ->
         findings (snd (exec (SaveFinding title content category) w))
         = Some (save_finding_text now title content category
                   (FINDINGS_TEMPLATE (str "Task") (format_date now))))
  /\ (forall entry include_timestamp,
         progress w = None ->
         progress (snd (exec (LogProgress entry include_timestamp) w))
         = Some (log_progress_text now entry include_timestamp
                   (PROGRESS_TEMPLATE (str "Task") (format_date now))))
  /\ (findings w = None ->
      findings (snd (exec op w)) <> None ->
      match op with
      | CreatePlan _ _ _ | SaveFinding _ _ _ => True
      | _ => False
      end)
  /\ (progress w = None ->
      progress (snd (exec op w)) <> None ->
      match op with
      | CreatePlan _ _ _ | LogProgress _ _ | LogError _ _ => True
      | _ => False
      end).
Proof.
    split; [|split; [|split; [|split; [|split]]]].
  - intros Hw Hop.
    destruct op; try discriminate; simpl;
      unfold read_plan, update_plan, mark_complete, add_todo, log_error,
        get_status, check_plan_integrity, _get_planning_data;
      rewrite Hw; reflexivity.
  - intros Hw Hop. now apply run_keeps_plan_absent.
  - intros title content category Hf. simpl. unfold save_finding.
    rewrite Hf. reflexivity.
  - intros entry include_timestamp Hp. simpl. unfold log_progress.
    rewrite Hp. reflexivity.
  - intros Hf Hne.
    destruct op; try exact I; simpl in Hne;
      unfold read_plan, update_plan, mark_complete, add_todo,
        read_findings, log_progress, log_error, get_status,
        check_plan_integrity, cleanup_plan in Hne.
    + destruct (task_plan w); simpl in Hne; congruence.
    + destruct (task_plan w); [|simpl in Hne; congruence].
      destruct (update_plan_text section content t) as [[|] ?];
        simpl in Hne; congruence.
    + destruct (task_plan w); [|simpl in Hne; congruence].
      destruct (best_match_idx ratio phase_or_item (readlines t));
        simpl in Hne; congruence.
    + destruct (task_plan w); [|simpl in Hne; congruence].
      destruct (add_todo_text item phase t); simpl in Hne; congruence.
    + rewrite Hf in Hne. simpl in Hne. congruence.
    + destruct (progress w); simpl in Hne; congruence.
    + destruct (task_plan w); [|simpl in Hne; congruence].
      simpl in Hne. unfold log_progress in Hne.
      destruct (progress _); simpl in Hne; congruence.
    + destruct (data_exists (_get_planning_data w)); simpl in Hne; congruence.
    + destruct (data_exists (_get_planning_data w)); [|simpl in Hne; congruence].
      match type of Hne with
      | context [match ?l with [] => _ | _ :: _ => _ end] => destruct l
      end; simpl in Hne; congruence.
    + destruct (dir_exists w); [|simpl in Hne; congruence].
      destruct (other_entries w); simpl in Hne; congruence.
  - intros Hp Hne.
    destruct op; try exact I; simpl in Hne;
      unfold read_plan, update_plan, mark_complete, add_todo, save_finding,
        read_findings, get_status, check_plan_integrity, cleanup_plan in Hne.
    + destruct (task_plan w); simpl in Hne; congruence.
    + destruct (task_plan w); [|simpl in Hne; congruence].
      destruct (update_plan_text section content t) as [[|] ?];
        simpl in Hne; congruence.
    + destruct (task_plan w); [|simpl in Hne; congruence].
      destruct (best_match_idx ratio phase_or_item (readlines t));
        simpl in Hne; congruence.
    + destruct (task_plan w); [|simpl in Hne; congruence].
      destruct (add_todo_text item phase t); simpl in Hne; congruence.
    + destruct (findings w); simpl in Hne; congruence.
    + destruct (findings w); simpl in Hne; congruence.
    + destruct (data_exists (_get_planning_data w)); simpl in Hne; congruence.
    + destruct (data_exists (_get_planning_data w)); [|simpl in Hne; congruence].
      match type of Hne with
      | context [match ?l with [] => _ | _ :: _ => _ end] => destruct l
      end; simpl in Hne; congruence.
    + destruct (dir_exists w); [|simpl in Hne; congruence].
      destruct (other_entries w); simpl in Hne; congruence.
Qed.

End AbsentPlan.

(** C7 fails as it is stated for the operations that do not use the
    plan: without a plan document, [log_progress] and [save_finding] do
    their work and report success, and [read_findings] returns the
    findings. *)
Lemma operation_without_plan_succeeds :
  let w := mk_world true false None (Some (str "# Findings")) None in
  let exec := run (fun _ _ => 0%Q) (str ".") 4000 (mk_datetime 2026 1 2 3 4) in
  task_plan w = None
  /\ fst (exec (LogProgress (str "x") false) w) = Done (str "Logged: x")
  /\ fst (exec (SaveFinding (str "t") (str "c") (str "Notes")) w)
     = Done (str "Saved finding: 't'")
  /\ fst (exec (ReadFindings 0) w) = Raw (str "# Findings").
Proof. repeat split. Qed.


(** ** Creating a plan *)

(** Reassociates concatenations of text to the right. *)
Ltac list_assoc := simpl; repeat (rewrite <- app_assoc; simpl).


Lemma phase_blocks_concat (i : nat) (phases : list text) :
  phase_blocks i phases
  = concat (map phase_block (combine (seq i (length phases)) phases)).
Proof.
  revert i; induction phases as [|p ps IH]; intros i; simpl; [reflexivity|].
  rewrite IH. unfold phase_block. list_assoc. reflexivity.
Qed.

Lemma phase_blocks_shape (i : nat) (phase : text) (rest : list text) :
  exists body,
    phase_blocks i (phase :: rest)
    = ("#"%char :: body ++ ["]"%char]) ++ [" "%char; NL; NL].
Proof.
  revert i phase; induction rest as [|q rest IH]; intros i phase.
  - exists (str "## Phase " ++ dec i ++ str ": " ++ phase ++ NL :: str "- [ ").
    list_assoc. reflexivity.
  - destruct (IH (S i) q) as [body Hb].
    exists (str "## Phase " ++ dec i ++ str ": " ++ phase
            ++ NL :: str "- [ ] " ++ [NL; NL] ++ "#"%char :: body).
    change (phase_blocks i (phase :: q :: rest))
      with (str "### Phase " ++ dec i ++ str ": " ++ phase
            ++ NL :: str "- [ ] " ++ [NL; NL] ++ phase_blocks (S i) (q :: rest)).
    rewrite Hb. list_assoc. reflexivity.
Qed.

Lemma phases_content_blocks (phase : text) (rest : list text) :
  phase_blocks 1 (phase :: rest)
  = phases_content (phase :: rest) ++ [" "%char; NL; NL].
Proof.
  unfold phases_content, strip.
  destruct (phase_blocks_shape 1 phase rest) as [body ->].
  assert (L : lstrip (("#"%char :: body ++ ["]"%char]) ++ [" "%char; NL; NL])
              = ("#"%char :: body) ++ "]"%char :: [" "%char; NL; NL]).
  { simpl. now rewrite <- app_assoc. }
  rewrite L, rstrip_app_nonspace; [reflexivity|reflexivity|].
  repeat constructor.
Qed.

Section Scenario.

Variable ratio : text -> text -> Q.
Variable planning_dir : text.

(** C2, as amended.  With a non-empty phase list [create_plan] writes, for
    the phases numbered from 1, one block each: the level-3 heading
    [### Phase i: name], an unchecked item without text and an empty line;
    the text put into the plan is these blocks without the whitespace at
    their end, so the last item loses its trailing blank.  The status
    parser does not count an item without text.  After the scenario
    [get_status] reports completed=1, total=1 (the added item alone) and
    errors=0. *)
Theorem create_plan_scenario
        (now : datetime) (task_name objective phase : text)
        (rest : list text) (w : world) :
  let phases := phase :: rest in
  task_plan (snd (create_plan planning_dir now task_name objective phases w))
  = Some (TASK_PLAN_TEMPLATE task_name (format_date now) objective
            (phases_content phases))
  /\ phases_content phases ++ [" "%char; NL; NL]
     = concat (map phase_block (combine (seq 1 (length phases)) phases))
  /\ todo_match (str "- [ ] ") = None
  /\ todo_match (str "- [ ]") = None
  /\ status_counts (scenario_status ratio planning_dir w) = Some (1, 1, 0).
Proof.
  intros phases. split; [reflexivity|]. split.
  - unfold phases. now rewrite <- phases_content_blocks, phase_blocks_concat.
  - split; [reflexivity|]. split; [reflexivity|]. vm_compute. reflexivity.
Qed.

End Scenario.

(** C2 fails as it is stated: the two items without text that
    [create_plan] writes are not counted, so the scenario ends with a
    total of 1, not 3. *)
Lemma create_plan_scenario_total :
  status_counts
    (scenario_status (fun _ _ => 0%Q) (str ".")
       (mk_world false false None None None))
  = Some (1, 1, 0)
  /\ status_counts
       (scenario_status (fun _ _ => 0%Q) (str ".")
          (mk_world false false None None None))
     <> Some (1, 3, 0).
Proof. split; vm_compute; [reflexivity|discriminate]. Qed.

(** ** The resolution order of [mark_complete] *)

Lemma split_compare {A : Type} (b1 b2 : list A) (x1 x2 : A) (a1 a2 : list A) :
  b1 ++ x1 :: a1 = b2 ++ x2 :: a2 -> length b1 < length b2 ->
  In x1 b2 /\ In x2 a1.
Proof.
  revert b2; induction b1 as [|y b1 IH]; intros [|z b2] E Hl;
    simpl in *; try lia.
  - injection E as -> ->. split; [now left|].
    apply in_or_app. right. now left.
  - injection E as -> E. destruct (IH b2 E) as [H1 H2]; [lia|].
    split; [now right|assumption].
Qed.

Lemma split_same {A : Type} (b1 b2 : list A) (x1 x2 : A) (a1 a2 : list A) :
  b1 ++ x1 :: a1 = b2 ++ x2 :: a2 -> length b1 = length b2 -> x1 = x2.
Proof.
  revert b2; induction b1 as [|y b1 IH]; intros [|z b2] E Hl;
    simpl in *; try lia.
  - now injection E.
  - injection E as _ E. apply (IH b2 E). lia.
Qed.

Section ResolutionProofs.

Variable ratio : text -> text -> Q.

Lemma exact_search_Some (p : text) (lines : list text) (k i : nat) :
  exact_search p lines k = Some i ->
  exists before line after,
    lines = before ++ line :: after /\ i = k + length before
    /\ exact_item p line = true
    /\ forall l, In l before -> exact_item p l = false.
Proof.
  revert k; induction lines as [|line rest IH]; intros k; simpl;
    [discriminate|].
  fold (exact_item p line). destruct (exact_item p line) eqn:E.
  - intros [= <-]. exists [], line, rest. simpl.
    repeat split; [lia|assumption|contradiction].
  - intros H. destruct (IH _ H) as (b & l & a & -> & -> & Hl & Hb).
    exists (line :: b), l, a. simpl. repeat split; [lia|assumption|].
    intros x [<-|Hx]; [assumption|now apply Hb].
Qed.

Lemma exact_search_None (p : text) (lines : list text) (k : nat) :
  exact_search p lines k = None ->
  forall l, In l lines -> exact_item p l = false.
Proof.
  revert k; induction lines as [|line rest IH]; intros k; simpl;
    [contradiction|].
  fold (exact_item p line). destruct (exact_item p line) eqn:E;
    [discriminate|].
  intros H l [<-|Hl]; [assumption|]. now apply (IH _ H).
Qed.

(** What the second loop adds for one line. *)
Lemma collect_candidates_cons (p line : text) (rest : list text) (k : nat) :
  collect_candidates ratio (lower (strip p)) (line :: rest) k
  = match line_score ratio p line with
    | Some q => [(k, q, task_text line)]
    | None => []
    end ++ collect_candidates ratio (lower (strip p)) rest (S k).
Proof.
  simpl. unfold line_score.
  destruct (is_incomplete_task line); simpl; [|reflexivity].
  destruct (contains (lower (strip p)) (lower (task_text line)));
    [reflexivity|].
  destruct (Qle_bool _ _); reflexivity.
Qed.

Lemma hd_insert_desc (x : candidate) (l : list candidate) :
  hd_error (insert_desc x l)
  = match hd_error l with
    | None => Some x
    | Some y => if Qle_bool (score y) (score x) then Some x else Some y
    end.
Proof.
  destruct l as [|y l]; simpl; [reflexivity|].
  destruct (Qle_bool (score y) (score x)); reflexivity.
Qed.

(** The head of the sorted candidates is the best scored line. *)
Lemma sorted_candidates_head (p : text) (lines : list text) (k : nat) :
  match hd_error (sort_desc (collect_candidates ratio (lower (strip p))
                               lines k)) with
  | None => forall l, In l lines -> line_score ratio p l = None
  | Some c =>
      exists before line after,
        lines = before ++ line :: after
        /\ fst (fst c) = k + length before
        /\ line_score ratio p line = Some (score c)
        /\ (forall l q', In l before -> line_score ratio p l = Some q' ->
                         (q' < score c)%Q)
        /\ (forall l q', In l after -> line_score ratio p l = Some q' ->
                         (q' <= score c)%Q)
  end.
Proof.
  revert k; induction lines as [|line rest IH]; intros k.
  - simpl. contradiction.
  - rewrite collect_candidates_cons. specialize (IH (S k)).
    destruct (line_score ratio p line) as [q|] eqn:Hs.
    + simpl app. simpl sort_desc. fold (sort_desc
        (collect_candidates ratio (lower (strip p)) rest (S k))).
      rewrite hd_insert_desc.
      destruct (hd_error (sort_desc
                  (collect_candidates ratio (lower (strip p)) rest (S k))))
        as [c|].
      * destruct IH as (b & l & a & -> & Hi & Hl & Hb & Ha).
        destruct (Qle_bool (score c) (score (k, q, task_text line))) eqn:Hq.
        -- apply Qle_bool_iff in Hq. unfold score at 2 in Hq. simpl in Hq.
           exists [], line, (b ++ l :: a). simpl.
           repeat split; [lia|assumption|contradiction|].
           intros x q' Hx Hsx. unfold score. simpl.
           apply Qle_trans with (score c); [|assumption].
           apply in_app_or in Hx. destruct Hx as [Hx|[<-|Hx]].
           ++ apply Qlt_le_weak. now apply (Hb x).
           ++ rewrite Hl in Hsx. injection Hsx as <-. apply Qle_refl.
           ++ now apply (Ha x).
        -- assert (Hlt : (q < score c)%Q).
           { apply Qnot_le_lt. intros Hle. apply Qle_bool_iff in Hle.
             unfold score at 2 in Hq. simpl in Hq. congruence. }
           exists (line :: b), l, a. simpl.
           repeat split; [lia|assumption| |assumption].
           intros x q' [<-|Hx] Hsx.
           ++ rewrite Hs in Hsx. now injection Hsx as <-.
           ++ now apply (Hb x).
      * exists [], line, rest. simpl.
        repeat split; [lia|assumption|contradiction|].
        intros x q' Hx Hsx. rewrite (IH x Hx) in Hsx. discriminate.
    + simpl app.
      destruct (hd_error (sort_desc
                  (collect_candidates ratio (lower (strip p)) rest (S k))))
        as [c|].
      * destruct IH as (b & l & a & -> & Hi & Hl & Hb & Ha).
        exists (line :: b), l, a. simpl.
        repeat split; [lia|assumption| |assumption].
        intros x q' [<-|Hx] Hsx; [congruence|now apply (Hb x)].
      * intros x [<-|Hx]; [assumption|now apply IH].
Qed.

Lemma best_match_idx_resolves (p : text) (lines : list text) :
  resolves ratio p lines (best_match_idx ratio p lines).
Proof.
  unfold best_match_idx.
  destruct (exact_search p lines 0) as [i|] eqn:E.
  - destruct (exact_search_Some _ _ _ _ E) as (b & l & a & Hl & -> & He & Hb).
    simpl. now apply resolves_exact with l a.
  - pose proof (exact_search_None _ _ _ E) as Hne.
    pose proof (sorted_candidates_head p lines 0) as H.
    destruct (sort_desc (collect_candidates ratio (lower (strip p)) lines 0))
      as [|c cs]; simpl in H.
    + apply resolves_none. intros l Hl. split; [now apply Hne|now apply H].
    + destruct H as (b & l & a & Hl & Hi & Hs & Hb & Ha).
      simpl in Hi. rewrite Hi.
      now apply resolves_scored with l a (score c).
Qed.

Lemma resolves_functional (p : text) (lines : list text) (r1 r2 : option nat) :
  resolves ratio p lines r1 -> resolves ratio p lines r2 -> r1 = r2.
Proof.
  intros H1 H2.
  destruct H1 as [b1 l1 a1 E1 He1 Hb1|b1 l1 a1 q1 E1 Hn1 Hs1 Hb1 Ha1|Hn1];
    destruct H2 as [b2 l2 a2 E2 He2 Hb2|b2 l2 a2 q2 E2 Hn2 Hs2 Hb2 Ha2|Hn2].
  - f_equal. destruct (Nat.lt_total (length b1) (length b2)) as [H|[H|H]];
      [|assumption|].
    + rewrite E1 in E2. destruct (split_compare _ _ _ _ _ _ E2 H) as [Hin _].
      rewrite (Hb2 _ Hin) in He1. discriminate.
    + rewrite E1 in E2. symmetry in E2.
      destruct (split_compare _ _ _ _ _ _ E2 H) as [Hin _].
      rewrite (Hb1 _ Hin) in He2. discriminate.
  - rewrite (Hn2 l1) in He1; [discriminate|].
    rewrite E1. apply in_or_app. right. now left.
  - destruct (Hn2 l1) as [Hx _]; [|congruence].
    rewrite E1. apply in_or_app. right. now left.
  - rewrite (Hn1 l2) in He2; [discriminate|].
    rewrite E2. apply in_or_app. right. now left.
  - f_equal. destruct (Nat.lt_total (length b1) (length b2)) as [H|[H|H]];
      [|assumption|].
    + rewrite E1 in E2.
      destruct (split_compare _ _ _ _ _ _ E2 H) as [Hin1 Hin2].
      pose proof (Hb2 _ _ Hin1 Hs1) as Hlt.
      pose proof (Ha1 _ _ Hin2 Hs2) as Hle.
      exfalso. apply (Qlt_not_le _ _ Hlt Hle).
    + rewrite E1 in E2. symmetry in E2.
      destruct (split_compare _ _ _ _ _ _ E2 H) as [Hin2 Hin1].
      pose proof (Hb1 _ _ Hin2 Hs2) as Hlt.
      pose proof (Ha2 _ _ Hin1 Hs1) as Hle.
      exfalso. apply (Qlt_not_le _ _ Hlt Hle).
  - destruct (Hn2 l1) as [_ Hx]; [|congruence].
    rewrite E1. apply in_or_app. right. now left.
  - destruct (Hn1 l2) as [Hx _]; [|congruence].
    rewrite E2. apply in_or_app. right. now left.
  - destruct (Hn1 l2) as [_ Hx]; [|congruence].
    rewrite E2. apply in_or_app. right. now left.
  - reflexivity.
Qed.

End ResolutionProofs.

(** ** The line that [mark_complete] rewrites *)

Lemma is_bullet_cases (b : ascii) :
  is_bullet b = true <-> b = "-"%char \/ b = "*"%char.
Proof.
  unfold is_bullet. rewrite orb_true_iff, !Ascii.eqb_eq. reflexivity.
Qed.

Lemma is_bullet_not_space (b : ascii) : is_bullet b = true -> is_space b = false.
Proof.
  intros H. apply is_bullet_cases in H. destruct H as [->| ->]; reflexivity.
Qed.

Lemma box_split_Some (s g rest : text) :
  box_split s = Some (g, rest) ->
  exists indent bullet gap,
    g = indent ++ bullet :: gap /\ all_space indent /\ all_space gap
    /\ is_bullet bullet = true /\ s = unchecked_line indent bullet gap rest.
Proof.
  unfold box_split. destruct (lstrip s) as [|b s2] eqn:E1; [discriminate|].
  destruct (is_bullet b) eqn:Hb; [|discriminate]. cbn [andb].
  destruct (prefixb (str "[ ]") (lstrip s2)) eqn:P; [|discriminate].
  intros [= <- <-]. apply prefixb_true in P. destruct P as [r Hr].
  exists (take_space s), b, (take_space s2).
  repeat split; try apply take_space_all_space; try assumption.
  unfold unchecked_line. rewrite Hr. simpl skipn.
  rewrite <- (take_space_lstrip s) at 1. rewrite E1. f_equal. f_equal.
  rewrite <- (take_space_lstrip s2) at 1. now rewrite Hr.
Qed.

Lemma box_split_unchecked (indent : text) (bullet : ascii) (gap rest : text) :
  all_space indent -> is_bullet bullet = true -> all_space gap ->
  box_split (unchecked_line indent bullet gap rest)
  = Some (indent ++ bullet :: gap, rest).
Proof.
  intros Hi Hb Hg. unfold box_split, unchecked_line.
  pose proof (is_bullet_not_space _ Hb) as Hns.
  rewrite lstrip_all_space by assumption. rewrite lstrip_nonspace by assumption.
  rewrite Hb. cbn [andb].
  rewrite (lstrip_all_space gap) by assumption.
  change (lstrip (str "[ ]" ++ rest)) with (str "[ ]" ++ rest).
  rewrite prefixb_app.
  rewrite (take_space_app indent bullet) by assumption.
  change (gap ++ str "[ ]" ++ rest)
    with (gap ++ "["%char :: (str " ]" ++ rest)).
  rewrite (take_space_app gap "["%char) by (assumption || reflexivity).
  reflexivity.
Qed.

Lemma mark_line_unfold (line : text) :
  mark_line line
  = match box_split line with
    | Some (g, rest) => g ++ str "[x]" ++ rest
    | None => match line with
              | c :: line' => c :: mark_line line'
              | [] => []
              end
    end.
Proof. destruct line; reflexivity. Qed.

Lemma mark_line_unchecked (indent : text) (bullet : ascii) (gap rest : text) :
  all_space indent -> is_bullet bullet = true -> all_space gap ->
  mark_line (unchecked_line indent bullet gap rest)
  = checked_line indent bullet gap rest.
Proof.
  intros Hi Hb Hg. rewrite mark_line_unfold, box_split_unchecked by assumption.
  unfold checked_line. now rewrite <- app_assoc.
Qed.


Lemma is_incomplete_task_unchecked (line : text) :
  is_incomplete_task line = true <->
  exists indent bullet gap rest,
    all_space indent /\ all_space gap /\ is_bullet bullet = true
    /\ line = unchecked_line indent bullet gap rest.
Proof.
  unfold is_incomplete_task. split.
  - destruct (box_split line) as [[g rest]|] eqn:E; [|discriminate].
    intros _. destruct (box_split_Some _ _ _ E) as (i & b & gp & _ & H).
    exists i, b, gp, rest. tauto.
  - intros (i & b & gp & rest & Hi & Hg & Hb & ->).
    now rewrite box_split_unchecked.
Qed.

Lemma concat_set_nth (before : list text) (line x : text) (after : list text) :
  concat (set_nth (length before) x (before ++ line :: after))
  = concat before ++ x ++ concat after
  /\ set_nth (length before) x (before ++ line :: after)
     = before ++ x :: after
  /\ nth (length before) (before ++ line :: after) [] = line.
Proof.
  induction before as [|l before (IH1 & IH2 & IH3)]; simpl.
  - repeat split.
  - rewrite IH2, IH3. repeat split.
    rewrite concat_app. simpl. now rewrite <- app_assoc.
Qed.

Lemma lines_wf_replace (before : list text) (line line' : text)
      (after : list text) :
  lines_wf (before ++ line :: after) ->
  (forall body, no_nl body -> line = body ++ [NL] ->
                exists body', no_nl body' /\ line' = body' ++ [NL]) ->
  (no_nl line -> no_nl line' /\ line' <> []) ->
  lines_wf (before ++ line' :: after).
Proof.
  intros Hwf Hnl Hlast. induction before as [|l before IH]; simpl in *.
  - inversion Hwf as [|l0 Hne Hn|l0 ls Hn Hw]; subst.
    + destruct (Hlast Hn) as [H1 H2]. now apply lines_wf_last.
    + destruct (Hnl l0 Hn eq_refl) as (body' & Hb & ->).
      now apply lines_wf_cons.
  - inversion Hwf as [|l0 Hne Hn E|l0 ls Hn Hw]; subst.
    + destruct before; discriminate.
    + apply lines_wf_cons; [assumption|]. now apply IH.
Qed.

(** The lines of [split('\n')] around one line of [readlines]: the line
    without its line end stands among them, whatever its text. *)
Lemma split_nl_around (before : list text) (line : text) (after : list text) :
  lines_wf (before ++ line :: after) ->
  exists xs ys,
    forall body ending,
      no_nl body ->
      (ending = [NL] /\ ~ no_nl line) \/ (ending = [] /\ no_nl line) ->
      split_nl (concat before ++ (body ++ ending) ++ concat after)
      = xs ++ body :: ys.
Proof.
  induction before as [|l before IH]; simpl; intros Hwf.
  - inversion Hwf as [|l0 Hne Hn|l0 ls Hn Hw]; subst.
    + exists [], []. intros body ending Hb [[-> H]|[-> _]];
        [contradiction|].
      simpl. rewrite !app_nil_r. now rewrite split_nl_no_nl.
    + exists [], (split_nl (concat after)).
      intros body ending Hb [[-> _]|[-> H]].
      * rewrite <- app_assoc. simpl.
        rewrite split_nl_app, split_nl_no_nl by assumption. reflexivity.
      * exfalso. apply H. apply in_or_app. right. now left.
  - inversion Hwf as [|l0 Hne Hn E|l0 ls Hn Hw]; subst.
    + destruct before; discriminate.
    + destruct (IH Hw) as (xs & ys & H). exists (l0 :: xs), ys.
      intros body ending Hb He. rewrite <- !app_assoc. simpl.
      rewrite split_nl_app, split_nl_no_nl by assumption. simpl.
      f_equal. rewrite <- (H body ending Hb He). now rewrite <- app_assoc.
Qed.

Lemma lines_wf_shape (before : list text) (line : text) (after : list text) :
  lines_wf (before ++ line :: after) ->
  (exists body, no_nl body /\ line = body ++ [NL])
  \/ (no_nl line /\ line <> []).
Proof.
  induction before as [|l before IH]; simpl; intros Hwf.
  - inversion Hwf as [|l0 Hne Hn|l0 ls Hn Hw]; subst.
    + now right.
    + left. now exists l0.
  - inversion Hwf as [|l0 Hne Hn E|l0 ls Hn Hw]; subst.
    + destruct before; discriminate.
    + now apply IH.
Qed.

Lemma no_nl_checked (indent : text) (bullet : ascii) (gap rest : text) :
  no_nl (unchecked_line indent bullet gap rest)
  <-> no_nl (checked_line indent bullet gap rest).
Proof.
  unfold no_nl, unchecked_line, checked_line.
  rewrite !in_app_iff. simpl. rewrite !in_app_iff. simpl.
  split; intros H [Hi|[Hb|[Hg|[Ho|[Hm|[Hc|Hr]]]]]];
    try discriminate; apply H; tauto.
Qed.

Lemma unchecked_line_app (indent : text) (bullet : ascii)
      (gap rest ending : text) :
  unchecked_line indent bullet gap (rest ++ ending)
  = unchecked_line indent bullet gap rest ++ ending
  /\ checked_line indent bullet gap (rest ++ ending)
     = checked_line indent bullet gap rest ++ ending.
Proof.
  unfold unchecked_line, checked_line. split; list_assoc; reflexivity.
Qed.

Lemma last_case {A : Type} (l : list A) :
  l = [] \/ exists l' x, l = l' ++ [x].
Proof.
  induction l as [|x l' _] using rev_ind; [now left|]. right. now exists l', x.
Qed.

Lemma unchecked_line_ending (indent : text) (bullet : ascii)
      (gap rest body : text) :
  unchecked_line indent bullet gap rest = body ++ [NL] ->
  exists rest0,
    rest = rest0 ++ [NL] /\ body = unchecked_line indent bullet gap rest0.
Proof.
  intros E. destruct (last_case rest) as [->|(rest0 & c & ->)].
  - exfalso. unfold unchecked_line in E.
    assert (E' : (indent ++ bullet :: gap ++ str "[ ") ++ ["]"%char]
                 = body ++ [NL]).
    { rewrite <- E. list_assoc. reflexivity. }
    apply app_inj_tail in E'. destruct E' as [_ E']. discriminate.
  - destruct (unchecked_line_app indent bullet gap rest0 [c]) as [Hu _].
    rewrite Hu in E. apply app_inj_tail in E. destruct E as [<- ->].
    now exists rest0.
Qed.

Section MarkComplete.

Variable ratio : text -> text -> Q.

Lemma best_match_idx_line (p : text) (lines : list text) (i : nat) :
  best_match_idx ratio p lines = Some i ->
  exists before line after,
    lines = before ++ line :: after /\ length before = i
    /\ is_incomplete_task line = true.
Proof.
  intros E. pose proof (best_match_idx_resolves ratio p lines) as H.
  rewrite E in H.
  inversion H as [b l a Hl He Hb Hi|b l a q Hl Hn Hs Hb Ha Hi|]; subst.
  - exists b, l, a. repeat split. unfold exact_item in He.
    now apply andb_true_iff in He.
  - exists b, l, a. repeat split. unfold line_score in Hs.
    destruct (is_incomplete_task l); [reflexivity|discriminate].
Qed.

(** The line that [mark_complete] selects and what becomes of it, among
    the lines of [readlines] and among those of [split('\n')]. *)
Lemma mark_complete_line (p content : text) (i : nat) :
  best_match_idx ratio p (readlines content) = Some i ->
  exists before after indent bullet gap rest ending xs ys,
    readlines content
    = before ++ (unchecked_line indent bullet gap rest ++ ending) :: after
    /\ length before = i
    /\ all_space indent /\ all_space gap /\ is_bullet bullet = true
    /\ no_nl (unchecked_line indent bullet gap rest)
    /\ (ending = [NL] \/ ending = [])
    /\ mark_line (unchecked_line indent bullet gap rest ++ ending)
       = checked_line indent bullet gap rest ++ ending
    /\ lines_wf (before ++ (checked_line indent bullet gap rest ++ ending)
                        :: after)
    /\ split_nl content = xs ++ unchecked_line indent bullet gap rest :: ys
    /\ split_nl (concat before
                 ++ (checked_line indent bullet gap rest ++ ending)
                 ++ concat after)
       = xs ++ checked_line indent bullet gap rest :: ys.
Proof.
  intros E.
  destruct (best_match_idx_line _ _ _ E) as (before & line & after & Hl & Hi & Hinc).
  apply is_incomplete_task_unchecked in Hinc.
  destruct Hinc as (indent & bullet & gap & rest' & Hsi & Hsg & Hb & ->).
  pose proof (readlines_wf content) as Hwf. rewrite Hl in Hwf.
  destruct (split_nl_around _ _ _ Hwf) as (xs & ys & Hsplit).
  assert (Hcontent : content
                     = concat before
                       ++ unchecked_line indent bullet gap rest'
                       ++ concat after).
  { rewrite <- (concat_readlines content), Hl, concat_app. reflexivity. }
  destruct (lines_wf_shape _ _ _ Hwf) as [(body & Hbody & Hline)|[Hnl Hne]].
  - destruct (unchecked_line_ending _ _ _ _ _ Hline) as (rest & -> & ->).
    destruct (unchecked_line_app indent bullet gap rest [NL]) as [Hu Hc].
    assert (Hnot : ~ no_nl (unchecked_line indent bullet gap (rest ++ [NL]))).
    { rewrite Hu. intros H. apply H. apply in_or_app. right. now left. }
    exists before, after, indent, bullet, gap, rest, [NL], xs, ys.
    rewrite <- Hu.
    repeat split; try assumption; [now left| | | |].
    + rewrite mark_line_unchecked by assumption. exact Hc.
    + apply lines_wf_replace
        with (line := unchecked_line indent bullet gap (rest ++ [NL]));
        [assumption| |].
      * intros _ _ _. exists (checked_line indent bullet gap rest).
        split; [now apply no_nl_checked|reflexivity].
      * intros H. contradiction.
    + rewrite Hcontent, Hu. apply Hsplit; [assumption|]. left. now split.
    + apply Hsplit; [now apply no_nl_checked|]. left. now split.
  - exists before, after, indent, bullet, gap, rest', [], xs, ys.
    rewrite !app_nil_r.
    repeat split; try assumption; [now right| | | |].
    + now apply mark_line_unchecked.
    + apply lines_wf_replace
        with (line := unchecked_line indent bullet gap rest');
        [assumption| |].
      * intros body Hb' Hline. exfalso. apply Hnl. rewrite Hline.
        apply in_or_app. right. now left.
      * intros _. split; [now apply no_nl_checked|].
        unfold checked_line. destruct indent; discriminate.
    + rewrite Hcontent.
      rewrite <- (app_nil_r (unchecked_line indent bullet gap rest')) at 1.
      apply Hsplit; [assumption|]. right. now split.
    + rewrite <- (app_nil_r (checked_line indent bullet gap rest')) at 1.
      apply Hsplit; [now apply no_nl_checked|]. right. now split.
Qed.

End MarkComplete.

(** ** What the checklist parser recognises *)

Lemma all_space_app (a b : text) :
  all_space (a ++ b) <-> all_space a /\ all_space b.
Proof. apply Forall_app. Qed.

Lemma lstrip_nil_all_space (s : text) : lstrip s = [] -> all_space s.
Proof.
  intros H. rewrite <- (take_space_lstrip s), H, app_nil_r.
  apply take_space_all_space.
Qed.

Lemma sep_text_Some (s txt : text) :
  sep_text s = Some txt ->
  exists sep, s = sep ++ txt /\ sep <> [] /\ all_space sep /\ txt <> [].
Proof.
  unfold sep_text. destruct s as [|d rest]; [discriminate|].
  destruct (is_space d) eqn:Hd; [|discriminate].
  destruct (lstrip rest) as [|c r] eqn:E.
  - destruct (last_case rest) as [->|(rest' & x & ->)]; [discriminate|].
    assert (Hx : last (rest' ++ [x]) d = x) by apply last_last.
    destruct (rest' ++ [x]) eqn:E2; [destruct rest'; discriminate|].
    rewrite <- E2 in *. rewrite Hx. intros [= <-].
    exists (d :: rest'). repeat split; [discriminate| |discriminate].
    constructor; [assumption|].
    apply lstrip_nil_all_space in E. now apply all_space_app in E.
  - intros [= <-]. exists (d :: take_space rest).
    repeat split; [|discriminate| |discriminate].
    + simpl. f_equal. rewrite <- E. symmetry. apply take_space_lstrip.
    + constructor; [assumption|apply take_space_all_space].
Qed.

Lemma sep_text_form (sep txt : text) :
  sep <> [] -> all_space sep -> txt <> [] -> sep_text (sep ++ txt) <> None.
Proof.
  intros Hne Hsp Ht. destruct sep as [|d sep]; [contradiction|].
  inversion Hsp as [|? ? Hd Hs]; subst. simpl. rewrite Hd.
  destruct (lstrip (sep ++ txt)); [|discriminate].
  destruct (sep ++ txt) eqn:E; [|discriminate].
  apply app_eq_nil in E. destruct E as [_ ->]. contradiction.
Qed.

Lemma todo_match_form (line : text) :
  todo_match line <> None <-> checklist_form line.
Proof.
  split.
  - unfold todo_match. destruct line as [|dash [|d rest]]; try congruence.
    destruct (Ascii.eqb_spec dash "-"%char) as [->|]; [|simpl; congruence].
    destruct (is_space d) eqn:Hd; [|simpl; congruence]. cbn [andb].
    destruct (lstrip rest) as [|opening [|m [|closing s]]] eqn:E;
      try congruence.
    destruct (Ascii.eqb_spec opening "["%char) as [->|]; [|simpl; congruence].
    destruct (Ascii.eqb_spec closing "]"%char) as [->|];
      [|rewrite andb_false_r; congruence].
    destruct (Ascii.eqb m " "%char || Ascii.eqb m "x"%char) eqn:Hm;
      [|simpl; congruence].
    cbn [andb]. destruct (sep_text s) as [txt|] eqn:Hs; [|congruence].
    intros _. destruct (sep_text_Some _ _ Hs) as (sep & -> & Hne & Hsp & Ht).
    exists (d :: take_space rest), m, sep, txt.
    repeat split; try assumption; [|discriminate| |].
    + simpl. f_equal. f_equal. rewrite <- E. symmetry.
      apply take_space_lstrip.
    + constructor; [assumption|apply take_space_all_space].
    + apply orb_true_iff in Hm. now rewrite !Ascii.eqb_eq in Hm.
  - intros (gap & m & sep & txt & -> & Hg & Hsg & Hm & Hs & Hss & Ht).
    destruct gap as [|d gap]; [contradiction|].
    inversion Hsg as [|? ? Hd Hgs]; subst. simpl. rewrite Hd.
    rewrite lstrip_all_space by assumption. simpl.
    assert (Hmb : Ascii.eqb m " "%char || Ascii.eqb m "x"%char = true).
    { apply orb_true_iff. rewrite !Ascii.eqb_eq. assumption. }
    rewrite Hmb. simpl.
    pose proof (sep_text_form sep txt Hs Hss Ht) as Hsep.
    destruct (sep_text (sep ++ txt)); [discriminate|congruence].
Qed.

Lemma parse_lines_length (ph : option text) (lines : list text) :
  length (parse_lines ph lines) = length (filter is_todo_line lines).
Proof.
  revert ph; induction lines as [|l lines IH]; intros ph; simpl;
    [reflexivity|].
  unfold is_todo_line at 1. destruct (todo_match l) as [[c txt]|]; simpl;
    now rewrite IH.
Qed.

Lemma parse_lines_skip (ph : option text) (xs : list text) (l : text)
      (ys : list text) :
  todo_match l = None -> phase_match l = None ->
  parse_lines ph (xs ++ l :: ys) = parse_lines ph (xs ++ ys).
Proof.
  intros Ht Hp. revert ph; induction xs as [|x xs IH]; intros ph; simpl.
  - now rewrite Ht, Hp.
  - destruct (todo_match x) as [[c txt]|]; now rewrite IH.
Qed.

(** A line that starts with whitespace or a bullet is no heading, and no
    item of the parser when it is indented, has a star as its bullet or
    has no text. *)
Lemma phase_match_boxed (indent : text) (bullet : ascii) (tail : text) :
  all_space indent -> is_bullet bullet = true ->
  phase_match (indent ++ bullet :: tail) = None.
Proof.
  intros Hi Hb. unfold phase_match.
  assert (H : exists c l, indent ++ bullet :: tail = c :: l
                          /\ c <> "#"%char).
  { destruct indent as [|c indent].
    - exists bullet, tail. split; [reflexivity|]. intros ->. discriminate.
    - inversion Hi as [|? ? Hc _]; subst. eexists c, _.
      split; [reflexivity|]. intros ->. discriminate. }
  destruct H as (c & l & -> & Hc).
  change (prefixb (str "###") (c :: l))
    with (Ascii.eqb "#"%char c && prefixb (str "##") l).
  destruct (Ascii.eqb_spec "#"%char c) as [<-|_]; [contradiction|reflexivity].
Qed.

Lemma sep_text_no_item_text (rest : text) :
  no_item_text rest -> sep_text rest = None.
Proof.
  intros [->|(c & -> & Hc)]; simpl; [reflexivity|]. now rewrite Hc.
Qed.

Lemma todo_match_boxed (indent : text) (bullet : ascii) (gap : text)
      (m : ascii) (rest : text) :
  all_space indent -> all_space gap -> is_bullet bullet = true ->
  indent <> [] \/ bullet = "*"%char \/ no_item_text rest ->
  todo_match (indent ++ bullet :: gap ++ "["%char :: m :: "]"%char :: rest)
  = None.
Proof.
  intros Hi Hg Hb H. destruct indent as [|c indent].
  - simpl. apply is_bullet_cases in Hb.
    assert (Hstar : forall tl, todo_match ("*"%char :: tl) = None).
    { intros [|d r]; reflexivity. }
    destruct Hb as [->| ->]; [|apply Hstar].
    destruct H as [H|[H|H]]; [contradiction|discriminate|].
    destruct gap as [|d gap]; [reflexivity|].
    inversion Hg as [|? ? Hd Hgs]; subst.
    cbn -[Ascii.eqb is_space lstrip sep_text]. rewrite Hd.
    rewrite lstrip_all_space by assumption.
    change (lstrip ("["%char :: m :: "]"%char :: rest))
      with ("["%char :: m :: "]"%char :: rest).
    cbv beta iota. rewrite (sep_text_no_item_text _ H).
    destruct (_ && _); [|reflexivity]. destruct (_ && _); reflexivity.
  - inversion Hi as [|? ? Hc _]; subst.
    cbn -[Ascii.eqb is_space lstrip sep_text].
    destruct (indent ++ bullet :: gap ++ "["%char :: m :: "]"%char :: rest);
      [reflexivity|].
    destruct (Ascii.eqb_spec c "-"%char) as [->|_];
      [discriminate|reflexivity].
Qed.

Lemma checked_line_differs (indent : text) (bullet : ascii) (gap rest : text)
      (pre post ending : text) :
  pre ++ (checked_line indent bullet gap rest ++ ending) ++ post
  <> pre ++ (unchecked_line indent bullet gap rest ++ ending) ++ post.
Proof.
  unfold checked_line, unchecked_line. intros E.
  apply app_inv_head in E. rewrite <- !app_assoc in E.
  apply app_inv_head in E. injection E as E.
  rewrite <- !app_assoc in E. apply app_inv_head in E. discriminate.
Qed.

(** ** The claims on [mark_complete] *)

Section MarkCompleteClaims.

Variable ratio : text -> text -> Q.

Lemma mark_complete_selected (p : text) (w : world) (content : text)
      (before : list text) (line : text) (after : list text) :
  task_plan w = Some content ->
  readlines content = before ++ line :: after ->
  best_match_idx ratio p (readlines content) = Some (length before) ->
  mark_complete ratio p w
  = (Done (str "Marked as complete: " ++ task_text line),
     set_task_plan (concat before ++ mark_line line ++ concat after) w).
Proof.
  intros Hw Hl E. unfold mark_complete. rewrite Hw, E, Hl.
  destruct (concat_set_nth before line (mark_line line) after)
    as (H1 & _ & H3).
  rewrite H3 at 1. rewrite H3, H1. reflexivity.
Qed.

(** C1.  [mark_complete] resolves its argument among the lines of the
    plan as the specification says: the result of its two searches is the
    line that [resolves] describes, and only that one.  Lines that are no
    unchecked checklist lines are neither exact items nor scored.  With
    the unchecked items [Fix bug] and [Fix bug in parser], the argument
    [Fix bug] selects the first, by exact match.  Without a candidate the
    not-found warning is returned and nothing is written. *)
Theorem mark_complete_resolution (p : text) (lines : list text) (w : world) :
  (forall r, resolves ratio p lines r <-> best_match_idx ratio p lines = r)
  /\ (forall line,
         is_incomplete_task line = false ->
         exact_item p line = false /\ line_score ratio p line = None)
  /\ (best_match_idx ratio (str "Fix bug")
        [str "- [ ] Fix bug" ++ [NL]; str "- [ ] Fix bug in parser" ++ [NL]]
      = Some 0
      /\ exact_item (str "Fix bug") (str "- [ ] Fix bug" ++ [NL]) = true
      /\ exact_item (str "Fix bug") (str "- [ ] Fix bug in parser" ++ [NL])
         = false)
  /\ (forall content,
         task_plan w = Some content ->
         resolves ratio p (readlines content) None ->
         mark_complete ratio p w
         = (Warning (str "Item '" ++ p
                     ++ str "' not found (or already completed)"), w))
  /\ (forall content i,
         task_plan w = Some content ->
         resolves ratio p (readlines content) (Some i) ->
         fst (mark_complete ratio p w)
         = Done (str "Marked as complete: "
                 ++ task_text (nth i (readlines content) []))).
Proof.
  assert (Hiff : forall ls r,
             resolves ratio p ls r <-> best_match_idx ratio p ls = r).
  { intros ls r. split.
    - intros H. apply (resolves_functional ratio p ls); [|assumption].
      apply best_match_idx_resolves.
    - intros <-. apply best_match_idx_resolves. }
  split; [apply Hiff|]. split; [|split; [|split]].
  - intros line H. unfold exact_item, line_score. now rewrite H.
  - repeat split.
  - intros content Hw H. apply Hiff in H. unfold mark_complete.
    now rewrite Hw, H.
  - intros content i Hw H. apply Hiff in H. unfold mark_complete.
    now rewrite Hw, H.
Qed.

(** C4.  When [mark_complete] finds a match, the document it writes
    differs from the previous one and has its lines except for the matched
    line, in which the empty box is checked: indentation, bullet, the
    whitespace after it and the text after the box, with the line end, are
    as before.  When no candidate matches, no document is written. *)
Theorem mark_complete_frame (p : text) (w : world) (content : text) :
  task_plan w = Some content ->
  (best_match_idx ratio p (readlines content) = None ->
   snd (mark_complete ratio p w) = w)
  /\ (forall i,
         best_match_idx ratio p (readlines content) = Some i ->
         exists before after indent bullet gap rest ending new,
           readlines content
           = before ++ (unchecked_line indent bullet gap rest ++ ending)
                    :: after
           /\ length before = i
           /\ all_space indent /\ all_space gap
           /\ (bullet = "-"%char \/ bullet = "*"%char)
           /\ (ending = [NL] \/ ending = [])
           /\ content
              = concat before
                ++ (unchecked_line indent bullet gap rest ++ ending)
                ++ concat after
           /\ snd (mark_complete ratio p w) = set_task_plan new w
           /\ new
              = concat before
                ++ (checked_line indent bullet gap rest ++ ending)
                ++ concat after
           /\ readlines new
              = before ++ (checked_line indent bullet gap rest ++ ending)
                       :: after
           /\ new <> content).
Proof.
  intros Hw. split.
  - intros E. unfold mark_complete. now rewrite Hw, E.
  - intros i E.
    destruct (mark_complete_line ratio p content i E)
      as (before & after & indent & bullet & gap & rest & ending & xs & ys
          & Hl & Hi & Hsi & Hsg & Hb & Hnl & He & Hm & Hwf & _ & _).
    exists before, after, indent, bullet, gap, rest, ending,
      (concat before ++ (checked_line indent bullet gap rest ++ ending)
       ++ concat after).
    repeat split; try assumption.
    + now apply is_bullet_cases.
    + rewrite <- (concat_readlines content) at 1.
      rewrite Hl, concat_app. reflexivity.
    + subst i. rewrite (mark_complete_selected p w content _ _ _ Hw Hl E).
      simpl. now rewrite Hm.
    + rewrite <- (readlines_concat _ Hwf), concat_app. reflexivity.
    + rewrite <- (concat_readlines content), Hl, concat_app. simpl.
      apply checked_line_differs.
Qed.

Variable planning_dir : text.

(** C10.  The checklist parser behind [get_status] and
    [check_plan_integrity] recognises exactly the lines that begin at
    column 0 with a dash, at least one whitespace character, the box with
    a blank or an [x], at least one whitespace character and a non-empty
    text, and the total it reports is the number of such lines.
    [mark_complete] accepts every line made of indentation, a dash or a
    star, whitespace and the empty box as a candidate; such a line that is
    indented, has a star as its bullet, or has no text after the box
    (nothing, or one whitespace character alone) is no item of the
    parser, checked or not.  So when [mark_complete] checks such a line
    the document changes while the parsed items, and with them the
    completed and total counts of [get_status], stay as they were. *)
Theorem parser_ignores_marked_lines (p : text) (w : world) (content : text) :
  (forall line, is_todo_line line = true <-> checklist_form line)
  /\ (forall plan,
         length (_parse_todos_from_plan plan)
         = length (filter is_todo_line (split_nl plan)))
  /\ (forall indent bullet gap rest,
         all_space indent -> all_space gap -> is_bullet bullet = true ->
         is_incomplete_task (unchecked_line indent bullet gap rest) = true
         /\ (indent <> [] \/ bullet = "*"%char \/ no_item_text rest ->
             is_todo_line (unchecked_line indent bullet gap rest) = false
             /\ is_todo_line (checked_line indent bullet gap rest) = false))
  /\ (task_plan w = Some content ->
      forall i,
        best_match_idx ratio p (readlines content) = Some i ->
        exists indent bullet gap rest ending new,
          nth i (readlines content) []
          = unchecked_line indent bullet gap rest ++ ending
          /\ all_space indent /\ all_space gap /\ is_bullet bullet = true
          /\ no_nl (unchecked_line indent bullet gap rest)
          /\ (ending = [NL] \/ ending = [])
          /\ snd (mark_complete ratio p w) = set_task_plan new w
          /\ new <> content
          /\ (indent <> [] \/ bullet = "*"%char \/ no_item_text rest ->
              _parse_todos_from_plan new = _parse_todos_from_plan content
              /\ exists r r',
                  fst (get_status planning_dir w) = Report r
                  /\ fst (get_status planning_dir
                            (snd (mark_complete ratio p w))) = Report r'
                  /\ report_completed r' = report_completed r
                  /\ report_total r' = report_total r)).
Proof.
  assert (Hnone : forall indent bullet gap rest,
             all_space indent -> all_space gap -> is_bullet bullet = true ->
             indent <> [] \/ bullet = "*"%char \/ no_item_text rest ->
             todo_match (unchecked_line indent bullet gap rest) = None
             /\ todo_match (checked_line indent bullet gap rest) = None).
  { intros indent bullet gap rest Hi Hg Hb H. split.
    - now apply (todo_match_boxed indent bullet gap " "%char rest).
    - now apply (todo_match_boxed indent bullet gap "x"%char rest). }
  split; [|split; [|split]].
  - intros line. rewrite <- todo_match_form. unfold is_todo_line.
    destruct (todo_match line); split; congruence.
  - intros plan. apply parse_lines_length.
  - intros indent bullet gap rest Hi Hg Hb. split.
    + apply is_incomplete_task_unchecked. now exists indent, bullet, gap, rest.
    + intros H. destruct (Hnone indent bullet gap rest Hi Hg Hb H) as [H1 H2].
      unfold is_todo_line. now rewrite H1, H2.
  - intros Hw i E.
    destruct (mark_complete_line ratio p content i E)
      as (before & after & indent & bullet & gap & rest & ending & xs & ys
          & Hl & Hi & Hsi & Hsg & Hb & Hnl & He & Hm & Hwf & Hs1 & Hs2).
    set (new := concat before
                ++ (checked_line indent bullet gap rest ++ ending)
                ++ concat after) in *.
    assert (Hrun : mark_complete ratio p w
                   = (Done (str "Marked as complete: "
                            ++ task_text (unchecked_line indent bullet gap rest
                                          ++ ending)),
                      set_task_plan new w)).
    { subst i. rewrite (mark_complete_selected p w content _ _ _ Hw Hl E).
      now rewrite Hm. }
    exists indent, bullet, gap, rest, ending, new.
    repeat split; try assumption.
    + subst i. rewrite Hl.
      apply (proj2 (proj2 (concat_set_nth before
                             (unchecked_line indent bullet gap rest ++ ending)
                             [] after))).
    + now rewrite Hrun.
    + rewrite <- (concat_readlines content), Hl, concat_app. simpl.
      apply checked_line_differs.
    + destruct (Hnone indent bullet gap rest Hsi Hsg Hb H) as [H1 H2].
      unfold _parse_todos_from_plan. rewrite Hs1, Hs2.
      rewrite !parse_lines_skip;
        try assumption; try (now apply phase_match_boxed). reflexivity.
    + destruct (Hnone indent bullet gap rest Hsi Hsg Hb H) as [H1 H2].
      assert (Hp : _parse_todos_from_plan new
                   = _parse_todos_from_plan content).
      { unfold _parse_todos_from_plan. rewrite Hs1, Hs2.
        rewrite !parse_lines_skip;
          try assumption; try (now apply phase_match_boxed). reflexivity. }
      rewrite Hrun. unfold get_status, _get_planning_data. simpl.
      rewrite Hw. simpl. eexists; eexists.
      split; [reflexivity|]. split; [reflexivity|]. simpl.
      now rewrite Hp.
Qed.

End MarkCompleteClaims.

(** ** Counting occurrences *)

Lemma prefixb_app_inv (pat a b : text) :
  prefixb pat (a ++ b) = true ->
  prefixb pat a = true
  \/ exists p2, p2 <> [] /\ pat = a ++ p2 /\ prefixb p2 b = true.
Proof.
  revert pat; induction a as [|c a IH]; intros pat H.
  - destruct pat as [|x pat]; [now left|]. right.
    exists (x :: pat). repeat split; [discriminate|assumption].
  - destruct pat as [|x pat]; [now left|]. simpl in H.
    apply andb_true_iff in H as [Hx Hp]. apply Ascii.eqb_eq in Hx. subst x.
    destruct (IH _ Hp) as [H|(p2 & Hne & -> & H)].
    + left. simpl. now rewrite Ascii.eqb_refl.
    + right. now exists p2.
Qed.

Lemma prefixb_app_l (pat a b : text) :
  prefixb pat a = true -> prefixb pat (a ++ b) = true.
Proof.
  intros H. apply prefixb_true in H. destruct H as [r ->].
  rewrite <- app_assoc. apply prefixb_app.
Qed.

Lemma prefixb_length (pat s : text) :
  prefixb pat s = true -> length pat <= length s.
Proof.
  intros H. apply prefixb_true in H. destruct H as [r ->].
  rewrite length_app. lia.
Qed.

Lemma count_from_nil (pat : text) (k : nat) : count_from pat k [] = 0.
Proof. reflexivity. Qed.

Lemma count_from_app (pat : text) (k : nat) (a b : text) :
  k <= length a -> no_span pat a b ->
  count_from pat k (a ++ b) = count_from pat k a + count_from pat 0 b.
Proof.
  revert k; induction a as [|c a IH]; intros k Hk Hspan.
  - simpl in Hk. assert (k = 0) by lia. subst k. reflexivity.
  - assert (Hspan' : no_span pat a b).
    { intros a1 a2 -> Hne. apply (Hspan (c :: a1) a2); [reflexivity|assumption]. }
    simpl. destruct k as [|k].
    + destruct (prefixb pat (c :: a ++ b)) eqn:E.
      * assert (E' : prefixb pat (c :: a) = true).
        { apply (Hspan [] (c :: a)); [reflexivity|discriminate|assumption]. }
        rewrite E'. simpl. f_equal. apply IH; [|assumption].
        apply prefixb_length in E'. simpl in E'. lia.
      * destruct (prefixb pat (c :: a)) eqn:E'.
        -- apply (prefixb_app_l _ _ b) in E'. simpl in E'. congruence.
        -- apply IH; [lia|assumption].
    + apply IH; [simpl in Hk; lia|assumption].
Qed.

Lemma no_span_nil (pat a : text) : no_span pat a [].
Proof. intros a1 a2 _ _. now rewrite app_nil_r. Qed.

Lemma no_span_head (pat a : text) (c : ascii) (b : text) :
  ~ In c pat -> no_span pat a (c :: b).
Proof.
  intros Hc a1 a2 _ _ H.
  destruct (prefixb_app_inv _ _ _ H) as [H'|(p2 & Hne & -> & Hp)];
    [assumption|].
  exfalso. apply Hc. destruct p2 as [|x p2]; [contradiction|].
  simpl in Hp. apply andb_true_iff in Hp as [Hx _].
  apply Ascii.eqb_eq in Hx. subst x. apply in_or_app. right. now left.
Qed.

(** After trailing whitespace and a character that the pattern lacks, or
    the end of the text, no occurrence of a pattern that ends with a
    character other than whitespace reaches beyond the whitespace. *)
Lemma no_span_space (pat a w t : text) (z : ascii) :
  In z pat -> is_space z = false -> (exists p', pat = p' ++ [z]) ->
  all_space w -> (t = [] \/ exists c t', t = c :: t' /\ ~ In c pat) ->
  no_span pat a (w ++ t).
Proof.
  intros _ Hz (p' & ->) Hw Ht a1 a2 _ _ H.
  destruct (prefixb_app_inv _ _ _ H) as [H'|(p2 & Hne & E & Hp)];
    [assumption|].
  exfalso.
  destruct (prefixb_app_inv _ _ _ Hp) as [Hpw|(p3 & Hne3 & -> & Hp3)].
  - apply prefixb_true in Hpw. destruct Hpw as [r Hr].
    destruct (last_case p2) as [->|(q & x & ->)]; [contradiction|].
    rewrite app_assoc in E. apply app_inj_tail in E. destruct E as [_ <-].
    rewrite Hr in Hw. apply Forall_app in Hw. destruct Hw as [Hw _].
    apply Forall_app in Hw. destruct Hw as [_ Hx].
    inversion Hx; subst. congruence.
  - destruct Ht as [->|(c & t' & -> & Hc)].
    + destruct p3; [contradiction|discriminate].
    + apply Hc. destruct p3 as [|x p3]; [contradiction|].
      simpl in Hp3. apply andb_true_iff in Hp3 as [Hx _].
      apply Ascii.eqb_eq in Hx. subst x. rewrite E.
      apply in_or_app. right. apply in_or_app. right. now left.
Qed.

Lemma count_from_skip (x : ascii) (pat : text) (c : ascii) (s : text) :
  c <> x -> count_from (x :: pat) 0 (c :: s) = count_from (x :: pat) 0 s.
Proof.
  intros H. cbn [count_from prefixb].
  destruct (Ascii.eqb_spec x c) as [->|_]; [contradiction|reflexivity].
Qed.

Lemma count_from_skip_all (x : ascii) (pat w s : text) :
  ~ In x w -> count_from (x :: pat) 0 (w ++ s) = count_from (x :: pat) 0 s.
Proof.
  induction w as [|c w IH]; intros H; [reflexivity|].
  change ((c :: w) ++ s) with (c :: w ++ s).
  rewrite count_from_skip.
  - apply IH. intros Hin. apply H. now right.
  - intros ->. apply H. now left.
Qed.

Lemma count_from_none (x : ascii) (pat s : text) :
  ~ In x s -> count_from (x :: pat) 0 s = 0.
Proof.
  intros H. rewrite <- (app_nil_r s). now rewrite count_from_skip_all.
Qed.

Lemma all_space_not_in (x : ascii) (w : text) :
  is_space x = false -> all_space w -> ~ In x w.
Proof.
  intros Hx Hw Hin. unfold all_space in Hw. rewrite Forall_forall in Hw.
  apply Hw in Hin. congruence.
Qed.

(** ** The error log *)

Lemma dec_no_hash (n : nat) : ~ In "#"%char (dec n).
Proof.
  unfold dec. generalize (Nat.to_uint n). intros u.
  induction u; simpl; intros H;
    [contradiction|destruct H as [H|H]; [discriminate|contradiction]..].
Qed.

Lemma pad2_no_hash (n : nat) : ~ In "#"%char (pad2 n).
Proof.
  unfold pad2. destruct (n <? 10).
  - intros [H|H]; [discriminate|]. now apply dec_no_hash in H.
  - apply dec_no_hash.
Qed.

Lemma format_date_no_hash (d : datetime) : ~ In "#"%char (format_date d).
Proof.
  unfold format_date. intros H.
  repeat (apply in_app_or in H; destruct H as [H|H];
          [now (apply dec_no_hash in H || apply pad2_no_hash in H)|];
          destruct H as [H|H]; [discriminate|]).
  now apply pad2_no_hash in H.
Qed.

Lemma not_in_marker_nl : ~ In NL ERROR_MARKER.
Proof. vm_compute. intuition discriminate. Qed.

Lemma count_marker (s : text) : count ERROR_MARKER s = count_from ERROR_MARKER 0 s.
Proof. reflexivity. Qed.

Lemma count_marker_app_nl (a b : text) :
  count_from ERROR_MARKER 0 (a ++ NL :: b)
  = count_from ERROR_MARKER 0 a + count_from ERROR_MARKER 0 b.
Proof.
  rewrite count_from_app; [|lia|apply no_span_head, not_in_marker_nl].
  reflexivity.
Qed.

Lemma count_error_entry (d : datetime) (error context : text) :
  count_from ERROR_MARKER 0 (error_entry (format_date d) error context)
  = 1 + count ERROR_MARKER error + count ERROR_MARKER context.
Proof.
  unfold error_entry. rewrite !count_marker.
  change (NL :: str "### Error at " ++ format_date d
          ++ NL :: str "**Error:** " ++ error ++ [NL]
          ++ match context with
             | [] => []
             | _ :: _ => str "**Context:** " ++ context ++ [NL]
             end)
    with ((NL :: str "### Error at " ++ format_date d)
          ++ NL :: (str "**Error:** " ++ error ++ [NL]
                    ++ match context with
                       | [] => []
                       | _ :: _ => str "**Context:** " ++ context ++ [NL]
                       end)).
  rewrite count_marker_app_nl.
  assert (Hhead : count_from ERROR_MARKER 0
                    (NL :: str "### Error at " ++ format_date d) = 1).
  { change (count_from ERROR_MARKER 0
              (NL :: str "### Error at " ++ format_date d))
      with (S (count_from ERROR_MARKER 0 (format_date d))).
    f_equal. apply (count_from_none "#"%char (str "## Error at")).
    apply format_date_no_hash. }
  rewrite Hhead.
  change (count_from ERROR_MARKER 0
            (str "**Error:** " ++ error ++ [NL]
             ++ match context with
                | [] => []
                | _ :: _ => str "**Context:** " ++ context ++ [NL]
                end))
    with (count_from ERROR_MARKER 0
            (error ++ NL :: match context with
                            | [] => []
                            | _ :: _ => str "**Context:** " ++ context ++ [NL]
                            end)).
  rewrite count_marker_app_nl. rewrite <- Nat.add_assoc. f_equal. f_equal.
  destruct context as [|c context]; [reflexivity|].
  change (count_from ERROR_MARKER 0
            (str "**Context:** " ++ (c :: context) ++ [NL]))
    with (count_from ERROR_MARKER 0 ((c :: context) ++ NL :: [])).
  rewrite count_marker_app_nl. simpl (count_from _ 0 []). lia.
Qed.

Lemma count_marker_trim (s t : text) :
  t = [] \/ (exists t', t = NL :: t') ->
  count_from ERROR_MARKER 0 (s ++ t)
  = count_from ERROR_MARKER 0 (rstrip s) + count_from ERROR_MARKER 0 t.
Proof.
  intros Ht. destruct (rstrip_trailing_space s) as [Hs Hw].
  rewrite Hs at 1. rewrite <- app_assoc. rewrite count_from_app; [|lia|].
  - f_equal. apply (count_from_skip_all "#"%char (str "## Error at")).
    now apply all_space_not_in.
  - apply no_span_space with (z := "t"%char); try assumption.
    + vm_compute. tauto.
    + reflexivity.
    + now exists (str "### Error a").
    + destruct Ht as [->|(t' & ->)]; [now left|]. right.
      exists NL, t'. split; [reflexivity|apply not_in_marker_nl].
Qed.

Lemma count_marker_entry (r rest : text) (d : datetime) (error context : text) :
  rest = [] \/ (exists t', rest = NL :: t') ->
  count_from ERROR_MARKER 0
    (r ++ error_entry (format_date d) error context ++ rest)
  = count_from ERROR_MARKER 0 r
    + (1 + count ERROR_MARKER error + count ERROR_MARKER context)
    + count_from ERROR_MARKER 0 rest.
Proof.
  intros Hrest. rewrite <- (count_error_entry d error context).
  set (entry := error_entry (format_date d) error context).
  assert (He : exists tl, entry = NL :: tl) by (eexists; reflexivity).
  destruct He as [tl He]. rewrite He.
  change (r ++ (NL :: tl) ++ rest) with (r ++ NL :: (tl ++ rest)).
  rewrite count_marker_app_nl, <- Nat.add_assoc. f_equal.
  change (count_from ERROR_MARKER 0 (NL :: tl))
    with (count_from ERROR_MARKER 0 tl).
  destruct Hrest as [->|(t' & ->)].
  - rewrite app_nil_r. simpl (count_from _ 0 []). lia.
  - rewrite count_marker_app_nl. reflexivity.
Qed.

Lemma occurs_at_skipn_eq (pat s : text) (p : nat) :
  occurs_at pat s p -> exists b, skipn p s = pat ++ b.
Proof.
  intros (a & b & -> & <-). exists b.
  now rewrite skipn_app, skipn_all, Nat.sub_diag.
Qed.

Section ErrorLog.

Variable planning_dir : text.
Variable now : datetime.

Lemma log_error_text_cases (error context content : text) :
  let entry := error_entry (format_date now) error context in
  (absent_from (str "## Error Log") content 0
   /\ log_error_text now error context content
      = rstrip content ++ [NL; NL] ++ str "## Error Log" ++ entry)
  \/ (exists p,
         first_occurrence (str "## Error Log") content p
         /\ ((absent_from (NL :: str "## ") content (p + 12)
              /\ log_error_text now error context content
                 = rstrip content ++ entry)
             \/ (exists q,
                    first_occurrence_from (NL :: str "## ") content (p + 12) q
                    /\ log_error_text now error context content
                       = rstrip (firstn q content) ++ entry ++ [NL]
                         ++ skipn q content))).
Proof.
  intros entry. unfold log_error_text.
  fold (error_entry (_get_date now) error context).
  change (error_entry (_get_date now) error context) with entry.
  destruct (find (str "## Error Log") content) as [p|] eqn:F.
  - right. exists p. apply find_Some in F. split; [assumption|].
    destruct (first_occurrence_split _ _ _ F) as [_ Hlen].
    change (length (str "## Error Log")) with 12 in *.
    destruct (find_from (NL :: str "## ") content (p + 12)) as [q|] eqn:G.
    + right. exists q. apply find_from_Some in G; [|assumption].
      split; [assumption|reflexivity].
    + left. apply find_from_None in G; [|assumption].
      split; [assumption|reflexivity].
  - left. apply find_None in F. split; [assumption|reflexivity].
Qed.

Lemma log_error_text_count (error context content : text) :
  count ERROR_MARKER (log_error_text now error context content)
  = count ERROR_MARKER content + 1 + count ERROR_MARKER error
    + count ERROR_MARKER context.
Proof.
  rewrite (count_marker (log_error_text _ _ _ _)), (count_marker content).
  destruct (log_error_text_cases error context content)
    as [[_ ->]|(p & _ & [[_ ->]|(q & Hq & ->)])].
  - change (rstrip content ++ [NL; NL] ++ str "## Error Log"
            ++ error_entry (format_date now) error context)
      with (rstrip content
            ++ NL :: ([NL] ++ str "## Error Log"
                      ++ error_entry (format_date now) error context)).
    rewrite count_marker_app_nl.
    change (count_from ERROR_MARKER 0
              ([NL] ++ str "## Error Log"
               ++ error_entry (format_date now) error context))
      with (count_from ERROR_MARKER 0
              (error_entry (format_date now) error context)).
    rewrite count_error_entry.
    rewrite <- (app_nil_r content) at 2.
    rewrite count_marker_trim by now left. simpl (count_from _ 0 []). lia.
  - rewrite <- (app_nil_r (error_entry (format_date now) error context)).
    rewrite count_marker_entry by now left.
    rewrite <- (app_nil_r content) at 2.
    rewrite count_marker_trim by now left. simpl (count_from _ 0 []). lia.
  - destruct Hq as (_ & Hocc & _).
    destruct (occurs_at_skipn_eq _ _ _ Hocc) as [b Hb].
    pose proof (firstn_skipn q content) as Hc. rewrite Hb in Hc.
    rewrite Hb. remember (firstn q content) as pre eqn:Hpre. clear Hpre.
    rewrite <- Hc.
    assert (Hpost : exists post, (NL :: str "## ") ++ b = NL :: post)
      by (eexists; reflexivity).
    destruct Hpost as [post ->].
    rewrite count_marker_entry by (right; eexists; reflexivity).
    rewrite (count_marker_trim pre (NL :: post))
      by (right; eexists; reflexivity).
    change (count_from ERROR_MARKER 0 ([NL] ++ NL :: post))
      with (count_from ERROR_MARKER 0 (NL :: post)).
    lia.
Qed.

End ErrorLog.

Section ErrorLogClaim.

Variable planning_dir : text.
Variable now : datetime.

Lemma get_status_errors (w : world) (content : text) :
  task_plan w = Some content ->
  exists r, fst (get_status planning_dir w) = Report r
            /\ report_errors r = count ERROR_MARKER content.
Proof.
  intros H. unfold get_status, _get_planning_data. rewrite H.
  eexists. split; reflexivity.
Qed.

(** C6, as amended.  On an existing plan document [log_error] puts the
    entry [### Error at {timestamp}] with the error and the context behind
    the right-trimmed text that precedes the first line starting with
    [## ] after the first occurrence of [## Error Log], or at the end of
    the document when no such line follows, or, when [## Error Log] does
    not occur, at the end of the document behind a new [## Error Log]
    heading.  It always calls [log_progress] with [ERROR: {error}], which
    puts a bullet with the timestamp right behind the first occurrence of
    [## Session Log] in the progress document (created from its template
    when absent), or behind a new such heading at the end.  The error
    count of [get_status], the number of occurrences of [### Error at] in
    the plan, grows by 1 plus the occurrences of that marker in the error
    and context texts: by exactly 1 when they contain none. *)
Theorem log_error_effect (error context : text) (w : world) (content : text) :
  task_plan w = Some content ->
  let date := format_date now in
  let entry := error_entry date error context in
  let bullet := str "- [" ++ date ++ str "] ERROR: " ++ error in
  let log := match progress w with
             | Some l => l
             | None => PROGRESS_TEMPLATE (str "Task") date
             end in
  let w' := snd (log_error now error context w) in
  fst (log_error now error context w) = Warning (str "Logged error: " ++ error)
  /\ ((absent_from (str "## Error Log") content 0
       /\ task_plan w'
          = Some (rstrip content ++ [NL; NL] ++ str "## Error Log" ++ entry))
      \/ (exists p,
             first_occurrence (str "## Error Log") content p
             /\ ((absent_from (NL :: str "## ") content (p + 12)
                  /\ task_plan w' = Some (rstrip content ++ entry))
                 \/ (exists q,
                        first_occurrence_from (NL :: str "## ") content
                          (p + 12) q
                        /\ task_plan w'
                           = Some (rstrip (firstn q content) ++ entry ++ [NL]
                                   ++ skipn q content)))))
  /\ ((absent_from (str "## Session Log") log 0
       /\ progress w'
          = Some (rstrip log ++ [NL; NL] ++ str "## Session Log"
                  ++ NL :: bullet ++ [NL]))
      \/ (exists p,
             first_occurrence (str "## Session Log") log p
             /\ progress w'
                = Some (firstn p log ++ str "## Session Log" ++ NL :: bullet
                        ++ skipn (p + 14) log)))
  /\ findings w' = findings w
  /\ (exists r r',
         fst (get_status planning_dir w) = Report r
         /\ fst (get_status planning_dir w') = Report r'
         /\ report_errors r = count ERROR_MARKER content
         /\ report_errors r'
            = report_errors r + 1 + count ERROR_MARKER error
              + count ERROR_MARKER context
         /\ (count ERROR_MARKER error = 0 ->
             count ERROR_MARKER context = 0 ->
             report_errors r' = report_errors r + 1)).
Proof.
  intros Hw date entry bullet log w'.
  assert (Hplan : task_plan w'
                  = Some (log_error_text now error context content)).
  { unfold w', log_error, log_progress. rewrite Hw. simpl.
    destruct (progress w); reflexivity. }
  assert (Hprog : progress w'
                  = Some (log_progress_text now (str "ERROR: " ++ error) true
                            log)).
  { unfold w', log_error, log_progress, log. rewrite Hw. simpl.
    destruct (progress w); reflexivity. }
  split; [unfold log_error; now rewrite Hw|].
  split; [|split; [|split]].
  - rewrite Hplan.
    destruct (log_error_text_cases now error context content)
      as [[Ha ->]|(p & Hp & [[Ha ->]|(q & Hq & ->)])].
    + left. now split.
    + right. exists p. split; [assumption|]. left. now split.
    + right. exists p. split; [assumption|]. right. exists q. now split.
  - rewrite Hprog. unfold log_progress_text.
    destruct (find (str "## Session Log") log) as [p|] eqn:F.
    + right. exists p. apply find_Some in F. split; [assumption|].
      destruct (first_occurrence_split _ _ _ F) as [-> _].
      unfold bullet, _get_date. fold date.
      change (length (str "## Session Log")) with 14.
      f_equal. list_assoc. reflexivity.
    + left. apply find_None in F. split; [assumption|].
      unfold bullet, _get_date. fold date. f_equal. list_assoc. reflexivity.
  - unfold w', log_error, log_progress. rewrite Hw. simpl.
    destruct (progress w); reflexivity.
  - destruct (get_status_errors w content Hw) as (r & Hr & Er).
    destruct (get_status_errors w' _ Hplan) as (r' & Hr' & Er').
    exists r, r'. rewrite log_error_text_count in Er'. rewrite <- Er in Er'.
    repeat split; try assumption. intros H1 H2. rewrite Er', H1, H2. lia.
Qed.

End ErrorLogClaim.

(** C6 fails as it is stated: an error text that contains the marker
    [### Error at] is counted too, so one call of [log_error] raises the
    error count of [get_status] from 0 to 2. *)
Lemma log_error_counts_marker_in_text :
  let now := mk_datetime 2026 1 2 3 4 in
  let w := mk_world true false
             (Some (str "# Task Plan: T" ++ [NL; NL] ++ str "## Error Log"
                    ++ [NL]))
             None None in
  let w' := snd (log_error now (str "### Error at") [] w) in
  status_counts (fst (get_status (str ".") w)) = Some (0, 0, 0)
  /\ status_counts (fst (get_status (str ".") w')) = Some (0, 0, 2).
Proof. split; vm_compute; reflexivity. Qed.

(** ** Finding the heading of a phase *)

Lemma ci_prefixb_spec (p s : text) :
  ci_prefixb p s = true <->
  exists found rest, s = found ++ rest /\ lower found = lower p.
Proof.
  split.
  - revert s; induction p as [|a p IH]; intros s H.
    + now exists [], s.
    + destruct s as [|b s]; [discriminate|]. simpl in H.
      apply andb_true_iff in H as [Hab Hp]. apply Ascii.eqb_eq in Hab.
      destruct (IH _ Hp) as (found & rest & -> & Hl).
      exists (b :: found), rest. split; [reflexivity|].
      simpl. now rewrite Hl, Hab.
  - intros (found & rest & -> & Hl).
    revert found Hl; induction p as [|a p IH]; intros found Hl.
    + reflexivity.
    + destruct found as [|b found]; [discriminate|].
      simpl in Hl. injection Hl as Hb Hl. simpl.
      rewrite Hb, Ascii.eqb_refl. now apply IH.
Qed.

Lemma dotstar_then_unfold (p s : text) :
  dotstar_then p s
  = if ci_prefixb p s then true
    else match s with
         | c :: s' => if Ascii.eqb c NL then false else dotstar_then p s'
         | [] => false
         end.
Proof. destruct s; reflexivity. Qed.

Lemma dotstar_then_spec (p s : text) :
  dotstar_then p s = true <->
  exists mid found rest,
    s = mid ++ found ++ rest /\ no_nl mid /\ lower found = lower p.
Proof.
  split.
  - induction s as [|c s IH]; rewrite dotstar_then_unfold.
    + destruct (ci_prefixb p []) eqn:E; [|discriminate]. intros _.
      apply ci_prefixb_spec in E. destruct E as (found & rest & E & Hl).
      exists [], found, rest. repeat split; [assumption|intros []|assumption].
    + destruct (ci_prefixb p (c :: s)) eqn:E.
      * intros _. apply ci_prefixb_spec in E.
        destruct E as (found & rest & E & Hl).
        exists [], found, rest.
        repeat split; [assumption|intros []|assumption].
      * destruct (Ascii.eqb_spec c NL) as [->|Hc]; [discriminate|].
        intros H. destruct (IH H) as (mid & found & rest & -> & Hm & Hl).
        exists (c :: mid), found, rest.
        repeat split; [|assumption].
        intros [Hin|Hin]; [congruence|contradiction].
  - intros (mid & found & rest & -> & Hm & Hl).
    induction mid as [|c mid IH]; rewrite dotstar_then_unfold.
    + assert (E : ci_prefixb p ([] ++ found ++ rest) = true).
      { apply ci_prefixb_spec. now exists found, rest. }
      now rewrite E.
    + destruct (ci_prefixb p ((c :: mid) ++ found ++ rest)); [reflexivity|].
      simpl. destruct (Ascii.eqb_spec c NL) as [->|Hc].
      * exfalso. apply Hm. now left.
      * apply IH. intros Hin. apply Hm. now right.
Qed.

Lemma ws_plus_then_spec (p s : text) :
  ws_plus_then p s = true <->
  exists ws mid found rest,
    s = ws ++ mid ++ found ++ rest
    /\ ws <> [] /\ all_space ws /\ no_nl mid /\ lower found = lower p.
Proof.
  split.
  - induction s as [|c s IH]; simpl; [discriminate|].
    destruct (is_space c) eqn:Hc; [|discriminate].
    destruct (dotstar_then p s) eqn:D.
    + intros _. apply dotstar_then_spec in D.
      destruct D as (mid & found & rest & -> & Hm & Hl).
      exists [c], mid, found, rest.
      repeat split; try assumption; [discriminate|].
      constructor; [assumption|constructor].
    + intros H. destruct (IH H) as (ws & mid & found & rest & -> & _ & Hw & Hm & Hl).
      exists (c :: ws), mid, found, rest.
      repeat split; try assumption; [discriminate|]. now constructor.
  - intros (ws & mid & found & rest & -> & Hne & Hw & Hm & Hl).
    induction Hw as [|c ws Hc Hw IH]; [contradiction|]. simpl. rewrite Hc.
    destruct (dotstar_then p (ws ++ mid ++ found ++ rest)) eqn:D;
      [reflexivity|].
    destruct ws as [|c' ws].
    + simpl in D. rewrite (proj2 (dotstar_then_spec p _)) in D;
        [discriminate|]. now exists mid, found, rest.
    + apply IH. discriminate.
Qed.

Lemma heading_ci_match_spec (phase s : text) :
  heading_ci_match phase s = true <-> heading_mentions phase s.
Proof.
  unfold heading_ci_match, heading_mentions. split.
  - destruct (prefixb (str "###") s) eqn:E; [|discriminate].
    apply prefixb_true in E. destruct E as [r ->]. simpl skipn.
    intros H. apply ws_plus_then_spec in H.
    destruct H as (ws & mid & found & rest & -> & H).
    now exists ws, mid, found, rest.
  - intros (ws & mid & found & rest & -> & H).
    rewrite prefixb_app. simpl skipn. apply ws_plus_then_spec.
    now exists ws, mid, found, rest.
Qed.

Lemma heading_at_from_0 (bol : bool) (phase s : text) :
  heading_at_from bol phase s 0 <-> bol = true /\ heading_mentions phase s.
Proof.
  split.
  - intros (a & rest & -> & Ha & Hs & Hm).
    destruct a; [|discriminate]. destruct Hs as [[_ Hb]|(a' & Ha')].
    + now split.
    + destruct a'; discriminate.
  - intros [Hb Hm]. exists [], s. repeat split; [now left|assumption].
Qed.

Lemma heading_at_from_S (bol : bool) (phase : text) (c : ascii) (s : text)
      (p : nat) :
  heading_at_from bol phase (c :: s) (S p)
  <-> heading_at_from (Ascii.eqb c NL) phase s p.
Proof.
  split.
  - intros (a & rest & E & Ha & Hs & Hm).
    destruct a as [|x a]; [discriminate|]. simpl in E, Ha.
    injection E as <- ->. injection Ha as Ha.
    exists a, rest. repeat split; try assumption.
    destruct Hs as [[Hnil _]|(a' & Ha')]; [discriminate|].
    destruct (last_case a) as [->|(a0 & y & ->)].
    + left. split; [reflexivity|]. destruct a' as [|z a'].
      * injection Ha' as ->. reflexivity.
      * destruct a'; discriminate.
    + right. exists a0. rewrite app_comm_cons in Ha'.
      apply app_inj_tail in Ha'. destruct Ha' as [_ ->]. reflexivity.
  - intros (a & rest & -> & Ha & Hs & Hm).
    exists (c :: a), rest. repeat split; [simpl; now rewrite Ha| |assumption].
    right. destruct Hs as [[-> Hc]|(a' & ->)].
    + apply Ascii.eqb_eq in Hc. subst c. now exists [].
    + now exists (c :: a').
Qed.

Lemma search_heading_Some (phase : text) (bol : bool) (s : text) (p : nat) :
  search_heading phase bol s = Some p <->
  heading_at_from bol phase s p
  /\ forall q, q < p -> ~ heading_at_from bol phase s q.
Proof.
  assert (Hzero : forall (b : bool) (t : text),
             (if b then heading_ci_match phase t else false) = true
             <-> heading_at_from b phase t 0).
  { intros b t. rewrite heading_at_from_0. destruct b.
    - rewrite heading_ci_match_spec. tauto.
    - split; [discriminate|]. intros [H _]. discriminate. }
  revert bol p; induction s as [|c s IH]; intros bol p.
  - simpl.
    destruct (if bol then heading_ci_match phase [] else false) eqn:E.
    + apply Hzero in E. split.
      * intros [= <-]. split; [assumption|]. intros q Hq. lia.
      * intros [_ Hmin]. destruct p; [reflexivity|].
        exfalso. apply (Hmin 0); [lia|assumption].
    + split; [discriminate|]. intros [H _].
      assert (Hp : p = 0).
      { destruct H as (a & rest & E1 & Ha & _). symmetry in E1.
        apply app_eq_nil in E1. destruct E1 as [-> _]. now simpl in Ha. }
      subst p. apply Hzero in H. congruence.
  - simpl.
    destruct (if bol then heading_ci_match phase (c :: s) else false) eqn:E.
    + apply Hzero in E. split.
      * intros [= <-]. split; [assumption|]. intros q Hq. lia.
      * intros [_ Hmin]. destruct p; [reflexivity|].
        exfalso. apply (Hmin 0); [lia|assumption].
    + assert (Hno : ~ heading_at_from bol phase (c :: s) 0).
      { intros H. apply Hzero in H. congruence. }
      destruct p as [|p].
      * split.
        -- destruct (search_heading phase (Ascii.eqb c NL) s); discriminate.
        -- intros [H _]. contradiction.
      * split.
        -- destruct (search_heading phase (Ascii.eqb c NL) s) as [q|] eqn:F;
             [|discriminate].
           intros [= <-]. apply IH in F. destruct F as [H Hmin].
           split; [now apply heading_at_from_S|].
           intros [|r] Hr Hocc; [contradiction|].
           apply heading_at_from_S in Hocc. apply (Hmin r); [lia|assumption].
        -- intros [H Hmin]. apply heading_at_from_S in H.
           rewrite (proj2 (IH (Ascii.eqb c NL) p)); [reflexivity|].
           split; [assumption|]. intros r Hr Hocc.
           apply (Hmin (S r)); [lia|]. now apply heading_at_from_S.
Qed.

Lemma search_heading_None (phase : text) (bol : bool) (s : text) :
  (forall q, ~ heading_at_from bol phase s q) ->
  search_heading phase bol s = None.
Proof.
  intros H. destruct (search_heading phase bol s) as [p|] eqn:E;
    [|reflexivity].
  apply search_heading_Some in E. destruct E as [E _].
  exfalso. now apply (H p).
Qed.

Lemma search_heading_None_inv (phase : text) (bol : bool) (s : text) :
  search_heading phase bol s = None ->
  forall q, ~ heading_at_from bol phase s q.
Proof.
  revert bol; induction s as [|c s IH]; intros bol; simpl.
  - destruct (if bol then heading_ci_match phase [] else false) eqn:E;
      [discriminate|].
    intros _ q H.
    assert (Hq : q = 0).
    { destruct H as (a & rest & E1 & Ha & _). symmetry in E1.
      apply app_eq_nil in E1. destruct E1 as [-> _]. now simpl in Ha. }
    subst q. apply heading_at_from_0 in H. destruct H as [-> Hm].
    apply heading_ci_match_spec in Hm. congruence.
  - destruct (if bol then heading_ci_match phase (c :: s) else false) eqn:E;
      [discriminate|].
    destruct (search_heading phase (Ascii.eqb c NL) s) eqn:F; [discriminate|].
    intros _ [|q] H.
    + apply heading_at_from_0 in H. destruct H as [-> Hm].
      apply heading_ci_match_spec in Hm. congruence.
    + apply heading_at_from_S in H. exact (IH _ F q H).
Qed.

Lemma heading_at_bound (phase content : text) (p : nat) :
  heading_at phase content p -> p + 1 <= length content.
Proof.
  intros (a & rest & -> & <- & _ & (ws & mid & found & r & -> & _)).
  rewrite !length_app. simpl. lia.
Qed.

(** ** Where [add_todo] puts an item *)

Lemma section_end_find (content : text) (p : nat) :
  p + 1 <= length content ->
  section_end content p
    (match list_min (found_positions
                       [find_from (NL :: str "###") content (p + 1);
                        find_from (NL :: str "## ") content (p + 1)]) with
     | Some m => m
     | None => length content
     end).
Proof.
  intros Hp.
  destruct (find_from (NL :: str "###") content (p + 1)) as [a|] eqn:Fa;
    destruct (find_from (NL :: str "## ") content (p + 1)) as [b|] eqn:Fb;
    cbn [list_min found_positions fold_right].
  - apply find_from_Some in Fa; [|assumption].
    apply find_from_Some in Fb; [|assumption].
    destruct Fa as (Ha1 & Ha2 & Ha3). destruct Fb as (Hb1 & Hb2 & Hb3).
    right. destruct (Nat.le_gt_cases a b) as [Hab|Hab].
    + rewrite Nat.min_r by assumption.
      split; [assumption|]. split; [now left|].
      intros q H1 H2. split; [apply Ha3; lia|apply Hb3; lia].
    + rewrite Nat.min_l by lia.
      split; [assumption|]. split; [now right|].
      intros q H1 H2. split; [apply Ha3; lia|apply Hb3; lia].
  - apply find_from_Some in Fa; [|assumption].
    apply find_from_None in Fb; [|assumption].
    destruct Fa as (Ha1 & Ha2 & Ha3).
    right. split; [assumption|]. split; [now left|].
    intros q H1 H2. split; [apply Ha3; lia|apply Fb; lia].
  - apply find_from_None in Fa; [|assumption].
    apply find_from_Some in Fb; [|assumption].
    destruct Fb as (Hb1 & Hb2 & Hb3).
    right. split; [assumption|]. split; [now right|].
    intros q H1 H2. split; [apply Fa; lia|apply Hb3; lia].
  - apply find_from_None in Fa; [|assumption].
    apply find_from_None in Fb; [|assumption].
    left. repeat split; assumption.
Qed.

Lemma notes_or_errors_find (content : text) :
  content <> [] ->
  ~ occurs_at (str "## Notes") content 0 ->
  ~ occurs_at (str "## Error Log") content 0 ->
  exists e,
    list_min (positive_positions
                [find (str "## Notes") content;
                 find (str "## Error Log") content;
                 Some (length content)]) = Some e
    /\ notes_or_errors content e.
Proof.
  intros Hne Hn0 He0.
  destruct content as [|x content']; [contradiction|].
  set (content := x :: content') in *.
  assert (Hlen : length content = S (length content')) by reflexivity.
  destruct (find (str "## Notes") content) as [a|] eqn:Fa;
    destruct (find (str "## Error Log") content) as [b|] eqn:Fb.
  - apply find_Some in Fa. apply find_Some in Fb.
    destruct Fa as (_ & Ha2 & Ha3). destruct Fb as (_ & Hb2 & Hb3).
    pose proof (occurs_at_bound _ _ _ Ha2) as Ba.
    pose proof (occurs_at_bound _ _ _ Hb2) as Bb.
    change (length (str "## Notes")) with 8 in Ba.
    change (length (str "## Error Log")) with 12 in Bb.
    destruct a as [|a]; [contradiction|]. destruct b as [|b]; [contradiction|].
    rewrite Hlen in *. cbn [list_min positive_positions fold_right].
    exists (Nat.min (S b) (Nat.min (S (length content')) (S a))).
    split; [reflexivity|]. right.
    rewrite (Nat.min_r (S (length content')) (S a)) by lia.
    destruct (Nat.le_gt_cases (S a) (S b)) as [Hab|Hab].
    + rewrite Nat.min_r by assumption. split; [now left|].
      intros q Hq. split; [apply Ha3; lia|apply Hb3; lia].
    + rewrite Nat.min_l by lia. split; [now right|].
      intros q Hq. split; [apply Ha3; lia|apply Hb3; lia].
  - apply find_Some in Fa. apply find_None in Fb.
    destruct Fa as (_ & Ha2 & Ha3).
    pose proof (occurs_at_bound _ _ _ Ha2) as Ba.
    change (length (str "## Notes")) with 8 in Ba.
    destruct a as [|a]; [contradiction|].
    rewrite Hlen in *. cbn [list_min positive_positions fold_right].
    exists (Nat.min (S (length content')) (S a)).
    split; [reflexivity|]. right.
    rewrite Nat.min_r by lia. split; [now left|].
    intros q Hq. split; [apply Ha3; lia|apply Fb; lia].
  - apply find_None in Fa. apply find_Some in Fb.
    destruct Fb as (_ & Hb2 & Hb3).
    pose proof (occurs_at_bound _ _ _ Hb2) as Bb.
    change (length (str "## Error Log")) with 12 in Bb.
    destruct b as [|b]; [contradiction|].
    rewrite Hlen in *. cbn [list_min positive_positions fold_right].
    exists (Nat.min (S (length content')) (S b)).
    split; [reflexivity|]. right.
    rewrite Nat.min_r by lia. split; [now right|].
    intros q Hq. split; [apply Fa; lia|apply Hb3; lia].
  - apply find_None in Fa. apply find_None in Fb.
    rewrite Hlen. cbn [list_min positive_positions fold_right].
    exists (S (length content')). split; [reflexivity|].
    left. repeat split; assumption.
Qed.

(** C9, as amended.  With a phase, [add_todo] looks for the first
    occurrence of the text [### {phase}] anywhere in the document, which
    may be the start of a longer heading, and, failing that, for the first
    heading that mentions the phase: a line start followed by three hash
    signs, whitespace, any characters of one line and the phase name in
    any letter case.  The line with the unchecked item is put behind the
    right-trimmed text that precedes the end of that section: the first
    line end after the position found that three hash signs, or two and a
    blank, follow, or the end of the document.  When nothing is found, a
    new heading [### {phase}] and the item are appended to the
    right-trimmed document.  Without a phase, when the text [## Phases]
    occurs in the document, the line is put, followed by an empty line,
    in front of the first occurrence in the whole document of [## Notes]
    or [## Error Log], whichever is earlier, or at the end when there is
    neither (for a document that starts with neither); otherwise a new
    [## Tasks] section with the item is appended. *)
Theorem add_todo_placement (item : text) (c : ascii) (ph content : text) :
  let phase := c :: ph in
  let new_item := str "- [ ] " ++ item in
  let under (p : nat) :=
    exists e,
      section_end content p e
      /\ add_todo_text item (Some phase) content
         = Some (rstrip (firstn e content) ++ NL :: new_item ++ [NL]
                 ++ skipn e content) in
  (forall p, first_occurrence (str "### " ++ phase) content p -> under p)
  /\ (absent_from (str "### " ++ phase) content 0 ->
      forall p, first_heading phase content p -> under p)
  /\ (absent_from (str "### " ++ phase) content 0 ->
      (forall q, ~ heading_at phase content q) ->
      add_todo_text item (Some phase) content
      = Some (rstrip content ++ [NL; NL] ++ str "### " ++ phase
              ++ NL :: new_item ++ [NL]))
  /\ (forall no_phase,
         no_phase = None \/ no_phase = Some [] ->
         ((exists p, occurs_at (str "## Phases") content p) ->
          ~ occurs_at (str "## Notes") content 0 ->
          ~ occurs_at (str "## Error Log") content 0 ->
          exists e,
            notes_or_errors content e
            /\ add_todo_text item no_phase content
               = Some (rstrip (firstn e content) ++ NL :: new_item
                       ++ [NL; NL] ++ skipn e content))
         /\ (absent_from (str "## Phases") content 0 ->
             add_todo_text item no_phase content
             = Some (rstrip content ++ [NL; NL] ++ str "## Tasks"
                     ++ NL :: new_item ++ [NL]))).
Proof.
  intros phase new_item under. unfold under, new_item, phase.
  clear under new_item phase.
  split; [|split; [|split]].
  - intros p Hp.
    destruct (first_occurrence_split _ _ _ Hp) as [_ Hlen].
    change (length (str "### " ++ c :: ph)) with (4 + length (c :: ph))
      in Hlen.
    apply find_Some in Hp.
    exists (match list_min (found_positions
                             [find_from (NL :: str "###") content (p + 1);
                              find_from (NL :: str "## ") content (p + 1)])
            with
            | Some m => m
            | None => length content
            end).
    split; [apply section_end_find; lia|].
    unfold add_todo_text. cbv beta iota zeta. rewrite Hp. reflexivity.
  - intros Habs p [Hp Hmin].
    pose proof (heading_at_bound _ _ _ Hp) as Hlen.
    apply find_None in Habs.
    assert (Hs : search_heading (c :: ph) true content = Some p).
    { apply search_heading_Some. split; assumption. }
    exists (match list_min (found_positions
                             [find_from (NL :: str "###") content (p + 1);
                              find_from (NL :: str "## ") content (p + 1)])
            with
            | Some m => m
            | None => length content
            end).
    split; [now apply section_end_find|].
    unfold add_todo_text. cbv beta iota zeta. rewrite Habs, Hs. reflexivity.
  - intros Habs Hno. apply find_None in Habs.
    unfold add_todo_text. cbv beta iota zeta.
    rewrite Habs, (search_heading_None (c :: ph) true content Hno).
    reflexivity.
  - intros no_phase Hnp.
    assert (E : add_todo_text item no_phase content
                = add_todo_text item None content).
    { destruct Hnp as [->| ->]; reflexivity. }
    rewrite E. split.
    + intros Hph Hn0 He0. apply contains_true in Hph.
      assert (Hne : content <> []).
      { intros ->. discriminate. }
      destruct (notes_or_errors_find content Hne Hn0 He0) as (e & Hmin & He).
      exists e. split; [assumption|].
      unfold add_todo_text. cbv zeta. rewrite Hph, Hmin. reflexivity.
    + intros Habs.
      assert (Hc : contains (str "## Phases") content = false).
      { unfold contains. apply find_None in Habs. now rewrite Habs. }
      unfold add_todo_text. cbv zeta. rewrite Hc. reflexivity.
Qed.

(** C9 fails as it is stated.  Without a phase, a [## Notes] section that
    stands before [## Phases] receives the item, although nothing follows
    the phases; with the phase [Build], the text [### Build] is found
    inside the earlier heading [### Build2], and the item is put under
    that heading, above the heading [### Build]. *)
Lemma add_todo_misses_section :
  let doc := str "# T" ++ NL :: str "## Notes" ++ NL :: str "n"
             ++ NL :: str "## Phases" ++ NL :: str "### P"
             ++ NL :: str "- [ ] a" ++ [NL] in
  let plan := str "### Build2" ++ NL :: str "- [ ] a"
              ++ NL :: str "### Build" ++ NL :: str "- [ ] b" ++ [NL] in
  find (str "## Phases") doc = Some 15
  /\ find_from (str "## Notes") doc 15 = None
  /\ find_from (str "## Error Log") doc 15 = None
  /\ option_map split_nl (add_todo_text (str "c") None doc)
     = Some [str "# T"; str "- [ ] c"; []; str "## Notes"; str "n";
             str "## Phases"; str "### P"; str "- [ ] a"; []]
  /\ add_todo_text (str "c") None doc
     <> Some (rstrip doc ++ NL :: str "- [ ] c" ++ [NL; NL])
  /\ split_nl plan
     = [str "### Build2"; str "- [ ] a"; str "### Build"; str "- [ ] b"; []]
  /\ option_map split_nl (add_todo_text (str "c") (Some (str "Build")) plan)
     = Some [str "### Build2"; str "- [ ] a"; str "- [ ] c"; [];
             str "### Build"; str "- [ ] b"; []].
Proof.
  repeat split; try (vm_compute; reflexivity).
  vm_compute. discriminate.
Qed.

(** ** The properties at concrete documents *)

Ltac decide_text := solve [reflexivity | vm_compute; reflexivity | vm_compute; lia].

Lemma mark_complete_resolution_witness :
  let r0 := fun _ _ : text => 0%Q in
  let content := str "- [ ] Fix bug" ++ NL :: str "- [ ] Fix bug in parser"
                 ++ [NL] in
  let w := mk_world true false (Some content) None None in
  resolves r0 (str "Fix bug") (readlines content) (Some 0)
  /\ fst (mark_complete r0 (str "Fix bug") w)
     = Done (str "Marked as complete: Fix bug")
  /\ resolves r0 (str "zzz") (readlines content) None
  /\ mark_complete r0 (str "zzz") w
     = (Warning (str "Item 'zzz' not found (or already completed)"), w)
  /\ exact_item (str "Fix bug") (str "## Phases") = false.
Proof.
  intros r0 content w.
  destruct (mark_complete_resolution r0 (str "Fix bug") (readlines content) w)
    as (H1 & H2 & _ & _ & H5).
  destruct (mark_complete_resolution r0 (str "zzz") (readlines content) w)
    as (K1 & _ & _ & K4 & _).
  assert (R1 : resolves r0 (str "Fix bug") (readlines content) (Some 0)).
  { apply H1. decide_text. }
  assert (R2 : resolves r0 (str "zzz") (readlines content) None).
  { apply K1. decide_text. }
  split; [exact R1|]. split; [exact (H5 content 0 eq_refl R1)|].
  split; [exact R2|]. split; [exact (K4 content eq_refl R2)|].
  exact (proj1 (H2 (str "## Phases") eq_refl)).
Defined.

Lemma section_lookup_by_occurrence_witness :
  let now := mk_datetime 2026 1 2 3 4 in
  let plain := str "# T" ++ [NL] in
  let last := str "# T" ++ [NL; NL] ++ str "## Notes" ++ NL :: str "old"
              ++ [NL] in
  let two := str "## A" ++ NL :: str "x" ++ NL :: str "## B" ++ [NL] in
  update_plan_text (str "A") (str "b") plain
  = (false, str "# T" ++ [NL; NL] ++ str "## A" ++ NL :: str "b" ++ [NL])
  /\ update_plan_text (str "Note") (str "new") last
     = (true, str "# T" ++ [NL; NL] ++ str "## Note" ++ NL :: str "new"
              ++ [NL])
  /\ update_plan_text (str "A") (str "y") two
     = (true, str "## A" ++ NL :: str "y" ++ [NL] ++ NL :: str "## B"
              ++ [NL]).
Proof.
  intros now plain last two. split; [|split].
  - refine (proj1 (proj1 (section_lookup_by_occurrence now (str "A") (str "b")
                            (str "t") plain) _)).
    apply find_None. decide_text.
  - refine (proj1 (proj1 (proj2 (section_lookup_by_occurrence now (str "Note")
                                   (str "new") (str "t") last) 5 _) _)).
    + apply find_Some. decide_text.
    + apply find_from_None; decide_text.
  - refine (proj1 (proj2 (proj2 (section_lookup_by_occurrence now (str "A")
                                   (str "y") (str "t") two) 0 _) 6 _)).
    + apply find_Some. decide_text.
    + apply find_from_Some; decide_text.
Defined.

Lemma mark_complete_frame_witness :
  let r0 := fun _ _ : text => 0%Q in
  let content := str "# T" ++ NL :: str "  * [ ] a" ++ NL :: str "- [ ] b"
                 ++ [NL] in
  let w := mk_world true false (Some content) None None in
  (exists before after indent bullet gap rest ending new,
      readlines content
      = before ++ (unchecked_line indent bullet gap rest ++ ending) :: after
      /\ length before = 1
      /\ all_space indent /\ all_space gap
      /\ (bullet = "-"%char \/ bullet = "*"%char)
      /\ (ending = [NL] \/ ending = [])
      /\ content
         = concat before ++ (unchecked_line indent bullet gap rest ++ ending)
           ++ concat after
      /\ snd (mark_complete r0 (str "a") w) = set_task_plan new w
      /\ new
         = concat before ++ (checked_line indent bullet gap rest ++ ending)
           ++ concat after
      /\ readlines new
         = before ++ (checked_line indent bullet gap rest ++ ending) :: after
      /\ new <> content)
  /\ snd (mark_complete r0 (str "zzz") w) = w.
Proof.
  intros r0 content w. split.
  - apply (proj2 (mark_complete_frame r0 (str "a") w content eq_refl) 1).
    decide_text.
  - apply (proj1 (mark_complete_frame r0 (str "zzz") w content eq_refl)).
    decide_text.
Defined.

Lemma read_document_result_witness :
  let w := mk_world true false (Some (repeat "a"%char 100)) None None in
  fst (read_findings 10 5 w) = Warning (str "No findings.md found.")
  /\ fst (read_plan 10 5 (mk_world false false None None None))
     = Warning (str "No task_plan.md found. Use create_plan to start.")
  /\ fst (read_plan 10 100 w) = Warning (str "End of file reached.")
  /\ fst (read_plan 0 0 w) = Raw (repeat "a"%char 100)
  /\ exists kept,
      length kept = 10
      /\ fst (read_plan 10 0 w)
         = Raw (kept ++ NL :: str "... (truncated to 10 characters)").
Proof.
  intros w.
  split; [exact (proj1 (proj2 (proj2 (proj2 (read_document_result 10 5 w))))
                   eq_refl)|].
  split; [exact (proj1 (proj2 (proj2 (read_document_result 10 5
                   (mk_world false false None None None)))) eq_refl)|].
  split.
  - pose proof (proj2 (proj2 (proj2 (proj2 (read_document_result 10 100 w)))))
      as H.
    specialize (H (repeat "a"%char 100) _ (or_introl (conj eq_refl eq_refl))).
    apply (proj1 H); decide_text.
  - assert (Hrest : forall skipped rest : text,
               repeat "a"%char 100 = skipped ++ rest ->
               Z.of_nat (length skipped) = Z.max 0 0 ->
               rest = repeat "a"%char 100).
    { intros skipped rest E Hl. destruct skipped; [now symmetry|].
      simpl in Hl. lia. }
    split.
    + pose proof (proj2 (proj2 (proj2 (proj2 (read_document_result 0 0 w)))))
        as H.
      specialize (H (repeat "a"%char 100) _ (or_introl (conj eq_refl eq_refl))).
      destruct (proj2 H (or_introl (Z.le_refl 0)))
        as (skipped & rest & E & Hl & Hfit & _).
      rewrite (Hrest _ _ E Hl) in Hfit. apply Hfit. decide_text.
    + pose proof (proj2 (proj2 (proj2 (proj2 (read_document_result 10 0 w)))))
        as H.
      specialize (H (repeat "a"%char 100) _ (or_introl (conj eq_refl eq_refl))).
      destruct (proj2 H (or_introl (Z.le_refl 0)))
        as (skipped & rest & E & Hl & _ & Hcut).
      rewrite (Hrest _ _ E Hl) in Hcut.
      destruct Hcut as (kept & dropped & _ & Hk & Hr); [decide_text|].
      exists kept. split; [exact Hk|exact Hr].
Defined.

Lemma log_error_effect_witness :
  let now := mk_datetime 2026 1 2 3 4 in
  let w := mk_world true false
             (Some (str "# T" ++ [NL; NL] ++ str "## Error Log" ++ [NL]))
             None None in
  exists r r',
    fst (get_status (str ".") w) = Report r
    /\ fst (get_status (str ".")
              (snd (log_error now (str "Timeout") (str "during fetch") w)))
       = Report r'
    /\ report_errors r' = report_errors r + 1.
Proof.
  intros now w.
  destruct (log_error_effect (str ".") now (str "Timeout")
              (str "during fetch") w _ eq_refl)
    as (_ & _ & _ & _ & (r & r' & Hr & Hr' & _ & _ & H1)).
  exists r, r'. split; [exact Hr|]. split; [exact Hr'|].
  apply H1; reflexivity.
Defined.

Lemma absent_plan_is_reported_witness :
  let now := mk_datetime 2026 1 2 3 4 in
  let exec := run (fun _ _ => 0%Q) (str ".") 4000 now in
  let w := mk_world false false None None None in
  exec (MarkComplete (str "x")) w = (Warning (str "No task_plan.md found."), w)
  /\ task_plan (snd (exec (LogProgress (str "x") true) w)) = None
  /\ findings (snd (exec (SaveFinding (str "t") (str "c") (str "Notes")) w))
     = Some (save_finding_text now (str "t") (str "c") (str "Notes")
               (FINDINGS_TEMPLATE (str "Task") (format_date now)))
  /\ progress (snd (exec (LogProgress (str "x") true) w))
     = Some (log_progress_text now (str "x") true
               (PROGRESS_TEMPLATE (str "Task") (format_date now)))
  /\ (findings (snd (exec (ReadPlan 0) w)) <> None -> False)
  /\ (progress (snd (exec (AddTodo (str "x") None) w)) <> None -> False)
  /\ is_create_plan (SaveFinding (str "t") (str "c") (str "Notes"))
     || needs_plan (SaveFinding (str "t") (str "c") (str "Notes")) = false
  /\ is_create_plan (LogProgress (str "x") true)
     || needs_plan (LogProgress (str "x") true) = false.
Proof.
  intros now exec w.
  pose proof (absent_plan_is_reported (fun _ _ => 0%Q) (str ".") 4000 now)
    as H.
  split; [exact (proj1 (H (MarkComplete (str "x")) w) eq_refl eq_refl)|].
  split; [exact (proj1 (proj2 (H (LogProgress (str "x") true) w))
                   eq_refl eq_refl)|].
  split; [exact (proj1 (proj2 (proj2 (H GetStatus w)))
                   (str "t") (str "c") (str "Notes") eq_refl)|].
  split; [exact (proj1 (proj2 (proj2 (proj2 (H GetStatus w))))
                   (str "x") true eq_refl)|].
  split;
    [exact (proj1 (proj2 (proj2 (proj2 (proj2 (H (ReadPlan 0) w))))) eq_refl)|].
  split;
    [exact (proj2 (proj2 (proj2 (proj2 (proj2 (H (AddTodo (str "x") None) w)))))
              eq_refl)|].
  assert (Hf : findings (snd (exec (SaveFinding (str "t") (str "c")
                                      (str "Notes")) w)) <> None)
    by discriminate.
  assert (Hp : progress (snd (exec (LogProgress (str "x") true) w)) <> None)
    by discriminate.
  pose proof (proj1 (proj2 (proj2 (proj2 (proj2
                (H (SaveFinding (str "t") (str "c") (str "Notes")) w)))))
                eq_refl Hf) as Tf.
  pose proof (proj2 (proj2 (proj2 (proj2 (proj2
                (H (LogProgress (str "x") true) w)))))
                eq_refl Hp) as Tp.
  split; [destruct Tf; reflexivity|destruct Tp; reflexivity].
Defined.

Lemma insertion_keeps_content_witness :
  let now := mk_datetime 2026 1 2 3 4 in
  let plan := str "# T" ++ [NL] in
  let bare := str "# T" in
  inserts plan (snd (update_plan_text (str "A") (str "b") plan))
    (trailing_space plan) true
  /\ inserts plan (save_finding_text now (str "t") (str "b") (str "A") plan)
       (trailing_space plan) true
  /\ inserts plan (log_error_text now (str "e") (str "c") plan)
       (trailing_space plan) true
  /\ length plan
     < length (snd (update_plan_text (str "A") (str "b") plan))
       + length (trailing_space plan)
  /\ length bare < length (snd (update_plan_text (str "A") (str "b") bare)).
Proof.
  intros now plan bare.
  pose proof (insertion_keeps_content now (str "i") None (str "A") (str "b")
                (str "t") (str "A") (str "e") (str "c") plan)
    as (_ & Hu & Hs & He & Hl).
  pose proof (insertion_keeps_content now (str "i") None (str "A") (str "b")
                (str "t") (str "A") (str "e") (str "c") bare)
    as (_ & Ku & _ & _ & Kl).
  assert (Ha : absent_from (str "## A") plan 0)
    by (apply find_None; decide_text).
  assert (Hb : absent_from (str "## Error Log") plan 0)
    by (apply find_None; decide_text).
  assert (Hc : absent_from (str "## A") bare 0)
    by (apply find_None; decide_text).
  split; [exact (proj2 (Hu Ha))|]. split; [exact (Hs Ha)|].
  split; [exact (He Hb)|].
  split; [exact (proj1 (Hl _ _ _ (proj2 (Hu Ha))))|].
  exact (proj2 (Kl _ [] true (proj2 (Ku Hc))) eq_refl).
Defined.

Lemma add_todo_placement_witness :
  let plan := str "## Phases" ++ NL :: str "### Build" ++ NL :: str "- [ ] a"
              ++ [NL; NL] ++ str "## Notes" ++ [NL] in
  let titled := str "### Phase 1: Analysis" ++ NL :: str "- [ ] a" ++ [NL] in
  let bare := str "# T" ++ [NL] in
  (exists e,
      section_end plan 10 e
      /\ add_todo_text (str "c") (Some (str "Build")) plan
         = Some (rstrip (firstn e plan) ++ NL :: (str "- [ ] " ++ str "c")
                 ++ [NL] ++ skipn e plan))
  /\ (exists e,
         section_end titled 0 e
         /\ add_todo_text (str "c") (Some (str "analysis")) titled
            = Some (rstrip (firstn e titled)
                    ++ NL :: (str "- [ ] " ++ str "c") ++ [NL]
                    ++ skipn e titled))
  /\ add_todo_text (str "c") (Some (str "X")) bare
     = Some (rstrip bare ++ [NL; NL] ++ str "### " ++ str "X"
             ++ NL :: (str "- [ ] " ++ str "c") ++ [NL])
  /\ (exists e,
         notes_or_errors plan e
         /\ add_todo_text (str "c") None plan
            = Some (rstrip (firstn e plan) ++ NL :: (str "- [ ] " ++ str "c")
                    ++ [NL; NL] ++ skipn e plan))
  /\ add_todo_text (str "c") (Some []) bare
     = Some (rstrip bare ++ [NL; NL] ++ str "## Tasks"
             ++ NL :: (str "- [ ] " ++ str "c") ++ [NL]).
Proof.
  intros plan titled bare.
  split; [|split; [|split; [|split]]].
  - refine (proj1 (add_todo_placement (str "c") "B"%char (str "uild") plan)
              10 _).
    apply find_Some. decide_text.
  - refine (proj1 (proj2 (add_todo_placement (str "c") "a"%char (str "nalysis")
                            titled)) _ 0 _).
    + apply find_None. decide_text.
    + apply (proj1 (search_heading_Some (str "analysis") true titled 0)).
      decide_text.
  - refine (proj1 (proj2 (proj2 (add_todo_placement (str "c") "X"%char []
                                   bare))) _ _).
    + apply find_None. decide_text.
    + apply search_heading_None_inv. decide_text.
  - refine (proj1 (proj2 (proj2 (proj2 (add_todo_placement (str "c") "X"%char
                                          [] plan))) None (or_introl eq_refl))
              _ _ _).
    + exists 0. apply occurs_at_0. decide_text.
    + intros H. apply occurs_at_0 in H. discriminate.
    + intros H. apply occurs_at_0 in H. discriminate.
  - refine (proj2 (proj2 (proj2 (proj2 (add_todo_placement (str "c") "X"%char
                                          [] bare))) (Some [])
                    (or_intror eq_refl)) _).
    apply find_None. decide_text.
Defined.

Lemma parser_ignores_marked_lines_witness :
  let r0 := fun _ _ : text => 0%Q in
  let content := str "- [ ] a" ++ NL :: str "  * [ ] b" ++ [NL] in
  let w := mk_world true false (Some content) None None in
  checklist_form (str "- [ ] a")
  /\ is_todo_line (str "- [x] a  b") = true
  /\ is_incomplete_task (unchecked_line (str "  ") "*"%char (str " ")
                           (str " b")) = true
  /\ is_todo_line (unchecked_line (str "  ") "*"%char (str " ") (str " b"))
     = false
  /\ is_todo_line (checked_line [] "-"%char (str " ") (str " ")) = false
  /\ exists new,
      snd (mark_complete r0 (str "b") w) = set_task_plan new w
      /\ new <> content
      /\ _parse_todos_from_plan new = _parse_todos_from_plan content.
Proof.
  intros r0 content w.
  pose proof (parser_ignores_marked_lines r0 (str ".") (str "b") w content)
    as (Hform & _ & Hbox & Hmark).
  assert (Hsp : all_space (str "  ")) by (repeat constructor).
  assert (Hgap : all_space (str " ")) by (repeat constructor).
  split; [apply (proj1 (Hform (str "- [ ] a"))); reflexivity|].
  split.
  { apply (proj2 (Hform (str "- [x] a  b"))).
    exists (str " "), "x"%char, (str " "), (str "a  b").
    repeat split; try assumption; try discriminate. now right. }
  destruct (Hbox (str "  ") "*"%char (str " ") (str " b") Hsp Hgap eq_refl)
    as [Hinc Hnot].
  assert (Hind : str "  " <> [] \/ "*"%char = "*"%char
                 \/ no_item_text (str " b")) by (left; discriminate).
  destruct (Hbox [] "-"%char (str " ") (str " ") (Forall_nil _) Hgap eq_refl)
    as [_ Hnot'].
  assert (Hemp : @nil ascii <> [] \/ "-"%char = "*"%char
                 \/ no_item_text (str " ")).
  { right. right. right. exists " "%char. split; reflexivity. }
  split; [exact Hinc|]. split; [exact (proj1 (Hnot Hind))|].
  split; [exact (proj2 (Hnot' Hemp))|].
  assert (Hbest : best_match_idx r0 (str "b") (readlines content) = Some 1)
    by decide_text.
  destruct (Hmark eq_refl 1 Hbest)
    as (indent & bullet & gap & rest & ending & new & Hnth & Hi & _ & Hb
        & _ & _ & Hrun & Hne & Hsame).
  exists new. split; [exact Hrun|]. split; [exact Hne|].
  apply Hsame. destruct indent as [|c indent]; [|left; discriminate].
  exfalso. apply is_bullet_cases in Hb.
  destruct Hb as [-> | ->]; discriminate.
Defined.

(** * Further properties of the operations *)

(** ** Occurrences in concatenated texts *)









(** ** Updating a section twice *)





Lemma firstn_app_exact {A : Type} (a b : list A) :
  firstn (length a) (a ++ b) = a.
Proof. now rewrite firstn_app, Nat.sub_diag, firstn_all, app_nil_r. Qed.





(** ** The order of the session log *)




(** ** Reading a document page by page *)

Lemma effective_budget_pos (max_plan_length : nat) :
  0 < effective_budget max_plan_length.
Proof.
  unfold effective_budget.
  destruct (max_plan_length =? 0) eqn:E; [lia|].
  apply Nat.eqb_neq in E. lia.
Qed.

Lemma firstn_truncate (max_plan_length : nat) (txt : text) :
  firstn (effective_budget max_plan_length) (_truncate max_plan_length txt)
  = firstn (effective_budget max_plan_length) txt.
Proof.
  destruct (le_lt_dec (length txt) (effective_budget max_plan_length))
    as [Hle|Hlt].
  - now rewrite _truncate_within.
  - destruct (_truncate_beyond max_plan_length txt Hlt) as [-> Hlen].
    rewrite <- Hlen at 1. apply firstn_app_exact.
Qed.

Lemma page_text_read_from (max_plan_length : nat) (content : text) (k : nat) :
  page_text (effective_budget max_plan_length)
    (read_from max_plan_length (Z.of_nat k) content)
  = firstn (effective_budget max_plan_length) (skipn k content).
Proof.
  unfold read_from.
  destruct (0 <? Z.of_nat k)%Z eqn:Hk.
  - destruct (Z.of_nat (length content) <=? Z.of_nat k)%Z eqn:Hend.
    + apply Z.leb_le in Hend. simpl.
      rewrite skipn_all2 by lia. now rewrite firstn_nil.
    + simpl. replace (Z.to_nat (Z.of_nat k)) with k by lia.
      apply firstn_truncate.
  - apply Z.ltb_ge in Hk. assert (k = 0) as -> by lia.
    simpl. apply firstn_truncate.
Qed.

Lemma firstn_add {A : Type} (a b : nat) (l : list A) :
  firstn (a + b) l = firstn a l ++ firstn b (skipn a l).
Proof.
  revert l. induction a as [|a IH]; intros l; [reflexivity|].
  destruct l as [|x l]; simpl.
  - now rewrite firstn_nil.
  - now rewrite IH.
Qed.

Lemma concat_pages (b : nat) (content : text) (m : nat) :
  concat (map (fun n => firstn b (skipn (n * b) content)) (seq 0 m))
  = firstn (m * b) content.
Proof.
  induction m as [|m IH]; [reflexivity|].
  rewrite seq_S, map_app, concat_app, IH. simpl.
  rewrite app_nil_r, (Nat.add_comm b), firstn_add. reflexivity.
Qed.

(** X3 ([read_plan], [read_findings], [_truncate]).  Reading a document at
    the offsets 0, b, 2b, ... for the budget b, and leaving the truncation
    notices out, gives the document back: the pages are consecutive, none
    is longer than b, and together they are the whole text.  A page before
    the end carries the notice. *)
Theorem read_pages_cover (max_plan_length : nat) (w : world) (content : text)
        (m : nat) :
  let b := effective_budget max_plan_length in
  let plan_page n :=
    page_text b (fst (read_plan max_plan_length (Z.of_nat (n * b)) w)) in
  let findings_page n :=
    page_text b (fst (read_findings max_plan_length (Z.of_nat (n * b)) w)) in
  length content <= m * b ->
  (task_plan w = Some content ->
   concat (map plan_page (seq 0 m)) = content
   /\ forall n, length (plan_page n) <= b
                /\ plan_page n = firstn b (skipn (n * b) content)
                /\ (n * b + b < length content ->
                    fst (read_plan max_plan_length (Z.of_nat (n * b)) w)
                    = Raw (plan_page n ++ truncation_notice b)))
  /\ (findings w = Some content ->
      concat (map findings_page (seq 0 m)) = content
      /\ forall n, length (findings_page n) <= b
                   /\ findings_page n = firstn b (skipn (n * b) content)
                   /\ (n * b + b < length content ->
                       fst (read_findings max_plan_length (Z.of_nat (n * b)) w)
                       = Raw (findings_page n ++ truncation_notice b))).
Proof.
  intros b plan_page findings_page Hm.
  assert (Hall : forall read : Z -> reply,
             (forall k, read (Z.of_nat k)
                        = read_from max_plan_length (Z.of_nat k) content) ->
             let page n := page_text b (read (Z.of_nat (n * b))) in
             concat (map page (seq 0 m)) = content
             /\ forall n, length (page n) <= b
                          /\ page n = firstn b (skipn (n * b) content)
                          /\ (n * b + b < length content ->
                              read (Z.of_nat (n * b))
                              = Raw (page n ++ truncation_notice b))).
  { intros read Hread page.
    assert (Hpage : forall n, page n = firstn b (skipn (n * b) content)).
    { intros n. unfold page. rewrite Hread. apply page_text_read_from. }
    split.
    - rewrite (map_ext _ _ Hpage), concat_pages. now apply firstn_all2.
    - intros n. rewrite Hpage. split; [apply firstn_le_length|].
      split; [reflexivity|]. intros Hn.
      rewrite Hread. unfold read_from.
      assert (Hlen : b < length (skipn (n * b) content)).
      { rewrite length_skipn. lia. }
      destruct (0 <? Z.of_nat (n * b))%Z eqn:Hk.
      + destruct (Z.of_nat (length content) <=? Z.of_nat (n * b))%Z eqn:Hend;
          [apply Z.leb_le in Hend; lia|].
        replace (Z.to_nat (Z.of_nat (n * b))) with (n * b) by lia.
        now destruct (_truncate_beyond max_plan_length _ Hlen) as [-> _].
      + apply Z.ltb_ge in Hk. assert (E : n * b = 0) by lia.
        rewrite E in Hlen |- *. simpl skipn in *.
        now destruct (_truncate_beyond max_plan_length _ Hlen) as [-> _]. }
  split; intros Hw.
  - apply (Hall (fun k => fst (read_plan max_plan_length k w))).
    intros k. unfold read_plan. now rewrite Hw.
  - apply (Hall (fun k => fst (read_findings max_plan_length k w))).
    intros k. unfold read_findings. now rewrite Hw.
Qed.

(** ** What checking a line does to the parsed items *)

Lemma parse_lines_app (ph : option text) (xs ys : list text) :
  parse_lines ph (xs ++ ys)
  = parse_lines ph xs ++ parse_lines (phase_after ph xs) ys.
Proof.
  revert ph; induction xs as [|x xs IH]; intros ph; [reflexivity|].
  simpl. destruct (todo_match x) as [[c txt]|]; rewrite IH; reflexivity.
Qed.

(** The parser reads a checked line as it reads the unchecked one, but for
    the flag. *)
Lemma todo_match_mark (indent : text) (bullet : ascii) (gap rest : text) :
  all_space indent -> all_space gap -> is_bullet bullet = true ->
  match todo_match (unchecked_line indent bullet gap rest) with
  | Some (c, txt) =>
      c = false
      /\ todo_match (checked_line indent bullet gap rest) = Some (true, txt)
  | None => todo_match (checked_line indent bullet gap rest) = None
  end.
Proof.
  intros Hi Hg Hb. unfold unchecked_line, checked_line.
  change (str "[ ]" ++ rest) with ("["%char :: " "%char :: "]"%char :: rest).
  change (str "[x]" ++ rest) with ("["%char :: "x"%char :: "]"%char :: rest).
  destruct indent as [|c indent].
  - cbn [app]. destruct gap as [|d gap].
    + cbn -[Ascii.eqb is_space lstrip sep_text].
      change (is_space "["%char) with false. now rewrite andb_false_r.
    + inversion Hg as [|? ? Hd Hgs]; subst.
      cbn -[Ascii.eqb is_space lstrip sep_text]. rewrite Hd.
      rewrite !lstrip_all_space by assumption.
      change (lstrip ("["%char :: " "%char :: "]"%char :: rest))
        with ("["%char :: " "%char :: "]"%char :: rest).
      change (lstrip ("["%char :: "x"%char :: "]"%char :: rest))
        with ("["%char :: "x"%char :: "]"%char :: rest).
      cbv beta iota.
      destruct (Ascii.eqb bullet "-"%char); [|reflexivity].
      cbn [andb].
      change (Ascii.eqb "["%char "["%char
              && (Ascii.eqb " "%char " "%char || Ascii.eqb " "%char "x"%char)
              && Ascii.eqb "]"%char "]"%char) with true.
      change (Ascii.eqb "["%char "["%char
              && (Ascii.eqb "x"%char " "%char || Ascii.eqb "x"%char "x"%char)
              && Ascii.eqb "]"%char "]"%char) with true.
      cbv beta iota. destruct (sep_text rest); [|reflexivity].
      split; reflexivity.
  - inversion Hi as [|? ? Hc _]; subst.
    rewrite (todo_match_boxed (c :: indent) bullet gap " "%char rest);
      try assumption; [|left; discriminate].
    apply (todo_match_boxed (c :: indent) bullet gap "x"%char rest);
      try assumption. left; discriminate.
Qed.

Lemma parse_lines_check (ph : option text) (xs : list text) (l l' : text)
      (ys : list text) :
  phase_match l = None -> phase_match l' = None ->
  match todo_match l with
  | Some (c, txt) => c = false /\ todo_match l' = Some (true, txt)
  | None => todo_match l' = None
  end ->
  match todo_match l with
  | Some (_, txt) =>
      exists before phase after,
        parse_lines ph (xs ++ l :: ys)
        = before ++ mk_todo txt false phase :: after
        /\ parse_lines ph (xs ++ l' :: ys)
           = before ++ mk_todo txt true phase :: after
  | None => parse_lines ph (xs ++ l' :: ys) = parse_lines ph (xs ++ l :: ys)
  end.
Proof.
  intros Hp Hp' H. rewrite !parse_lines_app. cbn [parse_lines].
  rewrite Hp, Hp'.
  destruct (todo_match l) as [[c txt]|].
  - destruct H as [-> ->].
    exists (parse_lines ph xs), (phase_after ph xs),
      (parse_lines (phase_after ph xs) ys).
    split; reflexivity.
  - now rewrite H.
Qed.

Lemma is_incomplete_task_checked (indent : text) (bullet : ascii)
      (gap rest : text) :
  all_space indent -> all_space gap -> is_bullet bullet = true ->
  is_incomplete_task (checked_line indent bullet gap rest) = false.
Proof.
  intros Hi Hg Hb. unfold is_incomplete_task, box_split, checked_line.
  rewrite lstrip_all_space by assumption.
  rewrite lstrip_nonspace by now apply is_bullet_not_space.
  rewrite lstrip_all_space by assumption.
  rewrite Hb. reflexivity.
Qed.

(** Checking a box neither makes nor removes an occurrence of the error
    marker. *)
Lemma count_marker_box (a : text) (m : ascii) (b : text) :
  m = " "%char \/ m = "x"%char ->
  count ERROR_MARKER (a ++ "["%char :: m :: "]"%char :: b)
  = count ERROR_MARKER a + count ERROR_MARKER b.
Proof.
  intros Hm. change (count ERROR_MARKER) with (count_from ERROR_MARKER 0).
  rewrite count_from_app; [|lia|].
  - f_equal. destruct Hm as [-> | ->]; reflexivity.
  - apply no_span_head. intros H. vm_compute in H.
    repeat (destruct H as [H|H]; [discriminate|]). exact H.
Qed.

Lemma filter_completed_flip (before : list todo) (txt : text)
      (phase : option text) (after : list todo) :
  length (filter todo_completed (before ++ mk_todo txt true phase :: after))
  = S (length (filter todo_completed
                 (before ++ mk_todo txt false phase :: after))).
Proof.
  rewrite !filter_app, !length_app. simpl. lia.
Qed.

(** X4 ([mark_complete], [_parse_todos_from_plan], [get_status]).  A
    successful [mark_complete] flips at most one parsed item and nothing
    else: when the line it checks is a line of the parser, the item of that
    line goes from unchecked to checked with its text, its phase and its
    place in the list unchanged, and the completed count of [get_status]
    grows by one; when it is not, the parsed items stay as they are.  The
    total and the error count never change. *)
Theorem mark_complete_checks_one_item
        (ratio : text -> text -> Q) (planning_dir p : text) (w : world)
        (content : text) (i : nat) :
  task_plan w = Some content ->
  best_match_idx ratio p (readlines content) = Some i ->
  exists body ending new,
    nth i (readlines content) [] = body ++ ending
    /\ no_nl body /\ (ending = [NL] \/ ending = [])
    /\ snd (mark_complete ratio p w) = set_task_plan new w
    /\ (is_todo_line body = false ->
        _parse_todos_from_plan new = _parse_todos_from_plan content)
    /\ (is_todo_line body = true ->
        exists before txt phase after,
          _parse_todos_from_plan content
          = before ++ mk_todo txt false phase :: after
          /\ _parse_todos_from_plan new
             = before ++ mk_todo txt true phase :: after)
    /\ exists r r',
        fst (get_status planning_dir w) = Report r
        /\ fst (get_status planning_dir (snd (mark_complete ratio p w)))
           = Report r'
        /\ report_total r' = report_total r
        /\ report_completed r'
           = report_completed r + (if is_todo_line body then 1 else 0)
        /\ report_errors r' = report_errors r.
Proof.
  intros Hw E.
  destruct (mark_complete_line ratio p content i E)
    as (before & after & indent & bullet & gap & rest & ending & xs & ys
        & Hl & Hi & Hsi & Hsg & Hb & Hnl & He & Hm & Hwf & Hs1 & Hs2).
  set (new := concat before
              ++ (checked_line indent bullet gap rest ++ ending)
              ++ concat after) in *.
  assert (Hrun : snd (mark_complete ratio p w) = set_task_plan new w).
  { subst i. rewrite (mark_complete_selected ratio p w content _ _ _ Hw Hl E).
    cbn [snd]. now rewrite Hm. }
  pose proof (todo_match_mark indent bullet gap rest Hsi Hsg Hb) as Hmark.
  pose proof (parse_lines_check None xs _ _ ys
                (phase_match_boxed indent bullet _ Hsi Hb)
                (phase_match_boxed indent bullet _ Hsi Hb) Hmark) as Hparse.
  fold (unchecked_line indent bullet gap rest) in Hparse.
  fold (checked_line indent bullet gap rest) in Hparse.
  rewrite <- Hs1, <- Hs2 in Hparse.
  fold (_parse_todos_from_plan content) in Hparse.
  fold (_parse_todos_from_plan new) in Hparse.
  assert (Herr : count ERROR_MARKER new = count ERROR_MARKER content).
  { rewrite <- (concat_readlines content), Hl, concat_app. unfold new.
    cbn [concat]. unfold checked_line, unchecked_line.
    replace (concat before
             ++ ((indent ++ bullet :: gap ++ str "[x]" ++ rest) ++ ending)
             ++ concat after)
      with ((concat before ++ indent ++ bullet :: gap)
            ++ "["%char :: "x"%char :: "]"%char
            :: rest ++ ending ++ concat after)
      by (list_assoc; reflexivity).
    replace (concat before
             ++ ((indent ++ bullet :: gap ++ str "[ ]" ++ rest) ++ ending)
             ++ concat after)
      with ((concat before ++ indent ++ bullet :: gap)
            ++ "["%char :: " "%char :: "]"%char
            :: rest ++ ending ++ concat after)
      by (list_assoc; reflexivity).
    rewrite !count_marker_box; auto. }
  exists (unchecked_line indent bullet gap rest), ending, new.
  split.
  { subst i. rewrite Hl.
    apply (proj2 (proj2 (concat_set_nth before
                           (unchecked_line indent bullet gap rest ++ ending)
                           [] after))). }
  split; [assumption|]. split; [tauto|]. split; [assumption|].
  unfold is_todo_line.
  destruct (todo_match (unchecked_line indent bullet gap rest))
    as [[c txt]|] eqn:Ht.
  - destruct Hparse as (bf & phase & af & P1 & P2).
    split; [discriminate|]. split.
    + intros _. now exists bf, txt, phase, af.
    + rewrite Hrun. unfold get_status, _get_planning_data.
      cbn [task_plan set_task_plan]. rewrite Hw. cbn [data_exists].
      eexists; eexists. split; [reflexivity|]. split; [reflexivity|].
      cbn [report_total report_completed report_errors data_total
           data_completed data_errors].
      rewrite P1, P2, Herr, filter_completed_flip, !length_app. simpl.
      repeat split; lia.
  - split; [intros _; exact Hparse|]. split; [discriminate|].
    rewrite Hrun. unfold get_status, _get_planning_data.
    cbn [task_plan set_task_plan]. rewrite Hw. cbn [data_exists].
    eexists; eexists. split; [reflexivity|]. split; [reflexivity|].
    cbn [report_total report_completed report_errors data_total
         data_completed data_errors].
    rewrite Hparse, Herr. repeat split; lia.
Qed.

(** X5 ([mark_complete]).  Every successful [mark_complete] takes exactly
    one line out of the lines that can still be checked, and a checked
    line is never a candidate again: on a plan without such a line the
    result is the not-found warning, whatever the argument, and nothing is
    written. *)
Theorem mark_complete_consumes_a_line
        (ratio : text -> text -> Q) (p : text) (w : world) (content : text) :
  task_plan w = Some content ->
  (forall msg,
      fst (mark_complete ratio p w) = Done msg ->
      exists new,
        task_plan (snd (mark_complete ratio p w)) = Some new
        /\ length (unchecked_lines content) = S (length (unchecked_lines new)))
  /\ (unchecked_lines content = [] ->
      mark_complete ratio p w
      = (Warning (str "Item '" ++ p
                  ++ str "' not found (or already completed)"), w)).
Proof.
  intros Hw. split.
  - intros msg Hdone.
    destruct (best_match_idx ratio p (readlines content)) as [i|] eqn:E.
    + destruct (mark_complete_line ratio p content i E)
        as (before & after & indent & bullet & gap & rest & ending & xs & ys
            & Hl & Hi & Hsi & Hsg & Hb & Hnl & He & Hm & Hwf & _ & _).
      subst i.
      rewrite (mark_complete_selected ratio p w content _ _ _ Hw Hl E).
      cbn [snd task_plan set_task_plan]. rewrite Hm.
      eexists. split; [reflexivity|].
      unfold unchecked_lines. rewrite Hl.
      replace (concat before
               ++ (checked_line indent bullet gap rest ++ ending)
               ++ concat after)
        with (concat (before
                      ++ (checked_line indent bullet gap rest ++ ending)
                      :: after))
        by (now rewrite concat_app).
      rewrite (readlines_concat _ Hwf), !filter_app, !length_app.
      cbn [filter].
      rewrite <- (proj1 (unchecked_line_app indent bullet gap rest ending)).
      rewrite <- (proj2 (unchecked_line_app indent bullet gap rest ending)).
      rewrite is_incomplete_task_checked by assumption.
      assert (Hu : is_incomplete_task
                     (unchecked_line indent bullet gap (rest ++ ending))
                   = true).
      { apply is_incomplete_task_unchecked.
        now exists indent, bullet, gap, (rest ++ ending). }
      rewrite Hu. simpl. lia.
    + unfold mark_complete in Hdone. rewrite Hw, E in Hdone. discriminate.
  - intros Hnone. unfold mark_complete. rewrite Hw.
    destruct (best_match_idx ratio p (readlines content)) as [i|] eqn:E;
      [|reflexivity].
    exfalso.
    destruct (best_match_idx_line ratio p _ i E)
      as (before & line & after & Hl & _ & Hinc).
    unfold unchecked_lines in Hnone. rewrite Hl, filter_app in Hnone.
    cbn [filter] in Hnone. rewrite Hinc in Hnone.
    apply app_eq_nil in Hnone. destruct Hnone as [_ Hn]. discriminate.
Qed.

(** ** The phase of a parsed item *)

Lemma phase_after_app (ph : option text) (xs ys : list text) :
  phase_after ph (xs ++ ys) = phase_after (phase_after ph xs) ys.
Proof.
  revert ph; induction xs as [|x xs IH]; intros ph; [reflexivity|].
  cbn [app phase_after]. apply IH.
Qed.

Lemma phase_after_none (ph : option text) (lines : list text) :
  Forall (fun l => phase_match l = None) lines -> phase_after ph lines = ph.
Proof.
  intros H. induction H as [|l lines Hl _ IH]; [reflexivity|].
  cbn [phase_after]. now rewrite Hl.
Qed.

(** A line of the parser is no heading. *)
Lemma todo_match_no_heading (line : text) :
  todo_match line <> None -> phase_match line = None.
Proof.
  intros H. unfold phase_match.
  destruct line as [|c line]; [reflexivity|].
  change (prefixb (str "###") (c :: line))
    with (Ascii.eqb "#"%char c && prefixb (str "##") line).
  destruct (Ascii.eqb_spec "#"%char c) as [<-|_]; [|reflexivity].
  exfalso. apply H. now destruct line.
Qed.

Lemma parse_lines_item (xs : list text) (item : text) (after : list text)
      (done : bool) (txt : text) :
  todo_match item = Some (done, txt) ->
  nth_error (parse_lines None (xs ++ item :: after))
    (length (filter is_todo_line xs))
  = Some (mk_todo txt done (phase_after None xs)).
Proof.
  intros Hitem. rewrite parse_lines_app, <- (parse_lines_length None xs).
  rewrite nth_error_app2, Nat.sub_diag by lia.
  cbn [parse_lines]. rewrite Hitem.
  rewrite (todo_match_no_heading item) by congruence. reflexivity.
Qed.

(** X6 ([_parse_todos_from_plan]).  The parser lists the items in the
    order of their lines and gives each the title of the nearest heading
    line [### title] above it: an item below a heading, with no other
    heading between them, has that title as its phase, and an item with no
    heading above it has none. *)
Theorem parsed_item_phase (content : text) (before : list text) (item : text)
        (after : list text) (done : bool) (txt : text) :
  split_nl content = before ++ item :: after ->
  todo_match item = Some (done, txt) ->
  (Forall (fun l => phase_match l = None) before ->
   nth_error (_parse_todos_from_plan content)
     (length (filter is_todo_line before))
   = Some (mk_todo txt done None))
  /\ (forall above heading between title,
         before = above ++ heading :: between ->
         phase_match heading = Some title ->
         Forall (fun l => phase_match l = None) between ->
         nth_error (_parse_todos_from_plan content)
           (length (filter is_todo_line before))
         = Some (mk_todo txt done (Some title))).
Proof.
  intros Hsplit Hitem. unfold _parse_todos_from_plan. rewrite Hsplit.
  rewrite (parse_lines_item before item after done txt Hitem). split.
  - intros Hnone. now rewrite phase_after_none.
  - intros above heading between title -> Hh Hnone.
    rewrite phase_after_app. cbn [phase_after]. rewrite Hh.
    now rewrite phase_after_none.
Qed.

(** ** Adding an item and checking it *)







Lemma text_eqb_eq (a b : text) : text_eqb a b = true <-> a = b.
Proof.
  unfold text_eqb. destruct (list_eq_dec ascii_dec a b); split; congruence.
Qed.



(** ** The integrity check *)

Lemma filter_length_all {A : Type} (f : A -> bool) (l : list A) :
  length l - length (filter f l) = 0 <-> Forall (fun x => f x = true) l.
Proof.
  induction l as [|x l IH]; cbn [filter length].
  - split; [constructor|reflexivity].
  - pose proof (filter_length_le f l) as Hle.
    destruct (f x) eqn:E; cbn [length].
    + rewrite Nat.sub_succ, IH. split.
      * intros H. now constructor.
      * intros H. now inversion H.
    + split.
      * intros H. lia.
      * intros H. inversion H; congruence.
Qed.

(** X8 ([check_plan_integrity], [_get_planning_data]).  On an existing plan
    the integrity check passes exactly when [findings.md] exists,
    [progress.md] exists and contains the text [- ] somewhere, and every
    item that the parser finds in the plan is checked; a plan in which the
    parser finds no item at all passes.  In every other case the result is
    the warning with the list of issues.  The check writes nothing. *)
Theorem check_plan_integrity_passes (w : world) (content : text) :
  task_plan w = Some content ->
  let todos := _parse_todos_from_plan content in
  let passes :=
    findings w <> None
    /\ (exists log, progress w = Some log /\ contains (str "- ") log = true)
    /\ Forall (fun t => todo_completed t = true) todos in
  snd (check_plan_integrity w) = w
  /\ (passes ->
      fst (check_plan_integrity w)
      = Done (str "Plan Integrity Check Passed!" ++ NL
              :: str "- All files present" ++ NL
              :: str "- All " ++ dec (length todos)
              ++ str " tasks completed" ++ NL :: str "- Progress logged"))
  /\ (~ passes -> exists msg, fst (check_plan_integrity w) = Warning msg)
  /\ (todos = [] ->
      passes <->
      findings w <> None
      /\ exists log, progress w = Some log /\ contains (str "- ") log = true).
Proof.
  intros Hw todos passes.
  unfold check_plan_integrity, _get_planning_data. rewrite Hw.
  cbn [data_exists data_total data_completed data_has_findings
       data_has_progress].
  fold todos.
  pose proof (filter_length_all todo_completed todos) as Hall.
  set (pending := length todos - length (filter todo_completed todos)) in *.
  assert (Hsnd : forall (issues : list text) (a b : reply),
             snd (match issues with [] => (a, w) | _ :: _ => (b, w) end) = w).
  { now intros [|x l] a b. }
  split; [apply Hsnd|]. split; [|split].
  - intros (Hf & (log & Hp & Hc) & Hdone).
    apply Hall in Hdone. rewrite Hdone, Hp, Hc.
    destruct (findings w); [reflexivity|congruence].
  - intros Hno.
    destruct (findings w) as [f|] eqn:Hf; cbn [present app];
      [|eexists; reflexivity].
    destruct (progress w) as [log|] eqn:Hp; cbn [present app];
      [|eexists; reflexivity].
    destruct (0 <? pending) eqn:Hpend; cbn [app]; [eexists; reflexivity|].
    destruct (contains (str "- ") log) eqn:Hc; [|eexists; reflexivity].
    exfalso. apply Hno. split; [discriminate|]. split.
    + now exists log.
    + apply Hall. apply Nat.ltb_ge in Hpend. lia.
  - intros Hnil. unfold passes. rewrite Hnil. split.
    + intros (H1 & H2 & _). now split.
    + intros (H1 & H2). repeat split; try assumption. constructor.
Qed.

(** ** A plan as [create_plan] writes it *)

Lemma dec_digits (n : nat) : Forall (fun c => is_digit c = true) (dec n).
Proof.
  unfold dec. generalize (Nat.to_uint n). intros d.
  induction d; simpl; constructor; auto.
Qed.





























(** ** The grouping of the items in the widgets *)

Lemma phase_eqb_eq (a b : option text) : phase_eqb a b = true <-> a = b.
Proof.
  destruct a as [x|], b as [y|]; simpl; try (split; congruence).
  rewrite text_eqb_eq. split; congruence.
Qed.

Lemma phase_eqb_refl (a : option text) : phase_eqb a a = true.
Proof. now apply phase_eqb_eq. Qed.

Lemma phases_add_keys (phase : option text) (t : todo)
      (phases : list (option text * list todo)) :
  map fst (phases_add phase t phases)
  = if existsb (phase_eqb phase) (map fst phases) then map fst phases
    else map fst phases ++ [phase].
Proof.
  induction phases as [|[k ts] rest IH]; [reflexivity|].
  cbn [phases_add map fst existsb].
  destruct (phase_eqb k phase) eqn:E.
  - apply phase_eqb_eq in E. subst k. now rewrite phase_eqb_refl.
  - assert (E' : phase_eqb phase k = false).
    { destruct (phase_eqb phase k) eqn:F; [|reflexivity].
      apply phase_eqb_eq in F. subst k. now rewrite phase_eqb_refl in E. }
    rewrite E'. cbn [map fst orb]. rewrite IH.
    now destruct (existsb (phase_eqb phase) (map fst rest)).
Qed.

Lemma existsb_phase (phase : option text) (keys : list (option text)) :
  existsb (phase_eqb phase) keys = true <-> In phase keys.
Proof.
  rewrite existsb_exists. split.
  - intros (k & Hk & E). apply phase_eqb_eq in E. now subst.
  - intros H. exists phase. split; [assumption|apply phase_eqb_refl].
Qed.

Lemma phases_add_nodup (phase : option text) (t : todo)
      (phases : list (option text * list todo)) :
  NoDup (map fst phases) -> NoDup (map fst (phases_add phase t phases)).
Proof.
  intros H. rewrite phases_add_keys.
  destruct (existsb (phase_eqb phase) (map fst phases)) eqn:E;
    [assumption|].
  apply NoDup_app; [assumption|repeat constructor; intros []|].
  intros k Hk [<-|[]].
  apply existsb_phase in Hk. congruence.
Qed.

(** The group of a key after one more item. *)
Lemma phases_add_lookup (phase : option text) (t : todo)
      (phases : list (option text * list todo)) (k : option text)
      (ts : list todo) :
  NoDup (map fst phases) ->
  In (k, ts) (phases_add phase t phases) ->
  (k = phase /\ (ts = [t] /\ ~ In phase (map fst phases)
                 \/ exists ts', ts = ts' ++ [t] /\ In (k, ts') phases))
  \/ (k <> phase /\ In (k, ts) phases).
Proof.
  induction phases as [|[k0 ts0] rest IH]; intros Hnd Hin.
  - destruct Hin as [E|[]]. injection E as <- <-.
    left. split; [reflexivity|]. left. split; [reflexivity|intros []].
  - cbn [map fst] in Hnd. inversion Hnd as [|? ? Hk0 Hrest]; subst.
    cbn [phases_add] in Hin. destruct (phase_eqb k0 phase) eqn:E.
    + apply phase_eqb_eq in E. subst k0.
      destruct Hin as [E|Hin].
      * injection E as <- <-. left. split; [reflexivity|]. right.
        exists ts0. split; [reflexivity|now left].
      * right. split; [|now right].
        intros ->. apply Hk0.
        apply (in_map fst) in Hin. exact Hin.
    + assert (Hne : k0 <> phase).
      { intros ->. now rewrite phase_eqb_refl in E. }
      destruct Hin as [E'|Hin].
      * injection E' as <- <-. right. split; [assumption|now left].
      * destruct (IH Hrest Hin) as [(-> & [(-> & Hnot)|(ts' & -> & Hin')])
                                   |(Hk & Hin')].
        -- left. split; [reflexivity|]. left. split; [reflexivity|].
           intros [H|H]; [simpl in H; congruence|contradiction].
        -- left. split; [reflexivity|]. right. exists ts'.
           split; [reflexivity|now right].
        -- right. split; [assumption|now right].
Qed.

Lemma phases_add_items (phase : option text) (t : todo)
      (phases : list (option text * list todo)) :
  Permutation (concat (map snd (phases_add phase t phases)))
    (concat (map snd phases) ++ [t]).
Proof.
  induction phases as [|[k ts] rest IH]; [reflexivity|].
  cbn [phases_add]. destruct (phase_eqb k phase); cbn [map snd concat].
  - rewrite <- !app_assoc. apply Permutation_app_head.
    apply Permutation_app_comm.
  - rewrite <- app_assoc. now apply Permutation_app_head.
Qed.

(** The invariant of the grouping loop. *)
Lemma group_loop (todos seen : list todo)
      (phases : list (option text * list todo)) :
  NoDup (map fst phases) ->
  (forall k ts, In (k, ts) phases ->
                ts <> []
                /\ ts = filter (fun t => phase_eqb (todo_phase t) k) seen) ->
  (forall t, In t seen -> In (todo_phase t) (map fst phases)) ->
  Permutation (concat (map snd phases)) seen ->
  let result :=
    fold_left (fun phases t => phases_add (todo_phase t) t phases) todos
      phases in
  NoDup (map fst result)
  /\ (forall k ts, In (k, ts) result ->
                   ts <> []
                   /\ ts = filter (fun t => phase_eqb (todo_phase t) k)
                             (seen ++ todos))
  /\ (forall t, In t (seen ++ todos) -> In (todo_phase t) (map fst result))
  /\ Permutation (concat (map snd result)) (seen ++ todos).
Proof.
  revert seen phases.
  induction todos as [|t todos IH]; intros seen phases Hnd Hgr Hkeys Hperm.
  - cbn [fold_left]. rewrite app_nil_r. tauto.
  - cbn [fold_left].
    replace (seen ++ t :: todos) with ((seen ++ [t]) ++ todos)
      by now rewrite <- app_assoc.
    apply IH.
    + now apply phases_add_nodup.
    + intros k ts Hin. rewrite filter_app. cbn [filter].
      destruct (phases_add_lookup _ _ _ _ _ Hnd Hin)
        as [(-> & [(-> & Hnot)|(ts' & -> & Hin')])|(Hk & Hin')].
      * rewrite phase_eqb_refl. split; [discriminate|].
        assert (Hnone : filter (fun t0 => phase_eqb (todo_phase t0)
                                            (todo_phase t)) seen = []).
        { destruct (filter _ seen) as [|x l] eqn:F; [reflexivity|].
          exfalso. apply Hnot.
          assert (Hx : In x (filter (fun t0 => phase_eqb (todo_phase t0)
                                                 (todo_phase t)) seen)).
          { rewrite F. now left. }
          apply filter_In in Hx. destruct Hx as [Hx E].
          apply phase_eqb_eq in E. rewrite <- E. now apply Hkeys. }
        now rewrite Hnone.
      * rewrite phase_eqb_refl. destruct (Hgr _ _ Hin') as [_ <-].
        split; [now destruct ts'|reflexivity].
      * destruct (Hgr _ _ Hin') as [Hne ->]. split; [assumption|].
        destruct (phase_eqb (todo_phase t) k) eqn:E.
        -- apply phase_eqb_eq in E. congruence.
        -- now rewrite app_nil_r.
    + intros x Hx. rewrite phases_add_keys.
      apply in_app_or in Hx.
      destruct (existsb (phase_eqb (todo_phase t)) (map fst phases)) eqn:E.
      * destruct Hx as [Hx|[<-|[]]]; [now apply Hkeys|].
        now apply existsb_phase.
      * apply in_or_app. destruct Hx as [Hx|[<-|[]]].
        -- left. now apply Hkeys.
        -- right. now left.
    + rewrite phases_add_items. now apply Permutation_app_tail.
Qed.

Lemma row_items_app (a b : list list_row) :
  row_items (a ++ b) = row_items a ++ row_items b.
Proof.
  induction a as [|[title|t] a IH]; cbn [app row_items];
    [reflexivity|assumption|now rewrite IH].
Qed.

Lemma row_items_rows (ts : list todo) : row_items (map TodoRow ts) = ts.
Proof. induction ts as [|t ts IH]; cbn [map row_items]; congruence. Qed.

Lemma row_items_groups (b : bool) (groups : list (option text * list todo)) :
  row_items
    (flat_map
       (fun entry =>
          match fst entry with
          | Some (c :: title) => if b then [PhaseHeader (c :: title)] else []
          | _ => []
          end ++ map TodoRow (snd entry))
       groups)
  = concat (map snd groups).
Proof.
  induction groups as [|[k ts] rest IH]; [reflexivity|].
  cbn [flat_map map snd concat fst]. rewrite !row_items_app, IH.
  rewrite row_items_rows. f_equal.
  destruct k as [[|c title]|]; [reflexivity| |reflexivity].
  now destruct b.
Qed.

(** X11 ([TodoListWidget], [PlanningMiniApp._update_content]).  The item
    lists of the widgets show every item exactly once: the items are
    grouped by phase, each group holding all the items of its phase in
    their order, no phase twice; the rows are the groups one after the
    other, so a permutation of the items.  When all items have the same
    phase, or none, no header is shown and the rows are the items in their
    order. *)
Theorem todo_rows_group_items (todos : list todo) :
  let phases := group_by_phase todos in
  NoDup (map fst phases)
  /\ (forall k ts,
         In (k, ts) phases ->
         ts <> []
         /\ ts = filter (fun t => phase_eqb (todo_phase t) k) todos)
  /\ (forall t, In t todos -> In (todo_phase t) (map fst phases))
  /\ row_items (todo_rows todos) = concat (map snd phases)
  /\ Permutation (row_items (todo_rows todos)) todos
  /\ (forall phase,
         (forall t, In t todos -> todo_phase t = phase) ->
         todo_rows todos = map TodoRow todos).
Proof.
  intros phases.
  destruct (group_loop todos [] [] (NoDup_nil _))
    as (Hnd & Hgr & Hkeys & Hperm);
    [intros k ts []|intros t []|reflexivity|].
  cbn [app] in Hgr, Hkeys, Hperm. fold (group_by_phase todos) in *.
  fold phases in Hnd, Hgr, Hkeys, Hperm.
  assert (Hrows : row_items (todo_rows todos) = concat (map snd phases)).
  { apply row_items_groups. }
  split; [assumption|]. split; [assumption|]. split; [assumption|].
  split; [assumption|]. split; [now rewrite Hrows|].
  intros phase Hsame.
  assert (Hkey : forall k ts, In (k, ts) phases -> k = phase /\ ts = todos).
  { intros k ts Hin. destruct (Hgr k ts Hin) as [Hne E].
    assert (Hk : k = phase).
    { destruct ts as [|t ts']; [congruence|].
      assert (Ht : In t (filter (fun t => phase_eqb (todo_phase t) k) todos)).
      { rewrite <- E. now left. }
      apply filter_In in Ht. destruct Ht as [Ht Hp].
      apply phase_eqb_eq in Hp. rewrite <- Hp. now apply Hsame. }
    split; [assumption|]. rewrite E. subst k.
    clear -Hsame. induction todos as [|t todos IH]; [reflexivity|].
    cbn [filter]. rewrite (Hsame t (or_introl eq_refl)), phase_eqb_refl.
    f_equal. apply IH. intros x Hx. apply Hsame. now right. }
  unfold todo_rows. fold phases.
  destruct phases as [|[k ts] [|[k' ts'] rest]] eqn:Ephases.
  - destruct todos as [|t todos']; [reflexivity|].
    exfalso. exact (Hkeys t (or_introl eq_refl)).
  - destruct (Hkey k ts (or_introl eq_refl)) as [-> ->].
    cbn [flat_map length fst snd]. change (1 <? 1) with false.
    rewrite app_nil_r. now destruct phase as [[|c title]|].
  - exfalso.
    destruct (Hkey k ts (or_introl eq_refl)) as [-> _].
    destruct (Hkey k' ts' (or_intror (or_introl eq_refl))) as [-> _].
    cbn [map fst] in Hnd. inversion Hnd as [|? ? Hnot _]; subst.
    apply Hnot. now left.
Qed.

(** ** The refresh of the mini app *)

Lemma dec_inj (a b : nat) : dec a = dec b -> a = b.
Proof.
  unfold dec, str. intros H.
  apply (f_equal string_of_list_ascii) in H.
  rewrite !string_of_list_ascii_of_string in H.
  apply (f_equal NilEmpty.uint_of_string) in H.
  rewrite !NilEmpty.usu in H. injection H as H.
  now apply DecimalNat.Unsigned.to_uint_inj.
Qed.

Lemma dec_no_underscore (n : nat) : ~ In "_"%char (dec n).
Proof.
  intros H. pose proof (dec_digits n) as Hd. rewrite Forall_forall in Hd.
  specialize (Hd _ H). discriminate.
Qed.

(** A text is cut at its first occurrence of a character in one way. *)
Lemma split_at_first {A : Type} (c : A) (x1 y1 x2 y2 : list A) :
  ~ In c x1 -> ~ In c x2 ->
  x1 ++ c :: y1 = x2 ++ c :: y2 -> x1 = x2 /\ y1 = y2.
Proof.
  revert x2. induction x1 as [|e x1 IH]; intros [|e' x2] H1 H2 E;
    cbn [app] in E.
  - injection E as <-. now split.
  - injection E as <- _. exfalso. apply H2. now left.
  - injection E as -> _. exfalso. apply H1. now left.
  - injection E as <- E.
    destruct (IH x2) as [<- <-]; try assumption; [| |now split].
    + intros H. apply H1. now right.
    + intros H. apply H2. now right.
Qed.

Lemma split_at_last {A : Type} (c : A) (x1 y1 x2 y2 : list A) :
  ~ In c y1 -> ~ In c y2 ->
  x1 ++ c :: y1 = x2 ++ c :: y2 -> x1 = x2 /\ y1 = y2.
Proof.
  intros H1 H2 E. apply (f_equal (@rev A)) in E.
  rewrite !rev_app_distr in E. cbn [rev] in E. rewrite <- !app_assoc in E.
  cbn [app] in E.
  destruct (split_at_first c (rev y1) (rev x1) (rev y2) (rev x2)) as [Ey Ex];
    try assumption; try (now rewrite <- in_rev).
  apply (f_equal (@rev A)) in Ex, Ey. rewrite !rev_involutive in Ex, Ey.
  now split.
Qed.

Lemma data_hash_inj (d1 d2 : planning_data) :
  data_hash d1 = data_hash d2 <->
  data_task_name d1 = data_task_name d2
  /\ data_completed d1 = data_completed d2
  /\ data_total d1 = data_total d2
  /\ data_errors d1 = data_errors d2.
Proof.
  unfold data_hash. split.
  - intros E.
    replace (data_task_name d1 ++ "_"%char :: dec (data_completed d1)
             ++ "_"%char :: dec (data_total d1)
             ++ "_"%char :: dec (data_errors d1))
      with (((data_task_name d1 ++ "_"%char :: dec (data_completed d1))
             ++ "_"%char :: dec (data_total d1))
            ++ "_"%char :: dec (data_errors d1)) in E
      by (list_assoc; reflexivity).
    replace (data_task_name d2 ++ "_"%char :: dec (data_completed d2)
             ++ "_"%char :: dec (data_total d2)
             ++ "_"%char :: dec (data_errors d2))
      with (((data_task_name d2 ++ "_"%char :: dec (data_completed d2))
             ++ "_"%char :: dec (data_total d2))
            ++ "_"%char :: dec (data_errors d2)) in E
      by (list_assoc; reflexivity).
    apply split_at_last in E; try apply dec_no_underscore.
    destruct E as [E He].
    apply split_at_last in E; try apply dec_no_underscore.
    destruct E as [E Ht].
    apply split_at_last in E; try apply dec_no_underscore.
    destruct E as [En Hc].
    repeat split; [assumption| | |]; now apply dec_inj.
  - intros (-> & -> & -> & ->). reflexivity.
Qed.

(** X12 ([PlanningMiniApp._update_content]).  The first update of the mini
    app builds its content.  A later one builds it again exactly when the
    task name, the number of checked items, the number of items or the
    number of errors differs from the data drawn last: the four values
    determine the text that is compared, so a change of the objective, of
    the text or the phase of an item, or of the presence of a document
    alone leaves the content as it is. *)
Theorem mini_app_redraws_on_change (w1 w2 : world) :
  let d1 := _get_planning_data w1 in
  let d2 := _get_planning_data w2 in
  let first := _update_content None w1 in
  let second := _update_content (fst first) w2 in
  snd first = Some d1
  /\ fst second = Some (data_hash d2)
  /\ (snd second = None <->
      data_task_name d2 = data_task_name d1
      /\ data_completed d2 = data_completed d1
      /\ data_total d2 = data_total d1
      /\ data_errors d2 = data_errors d1)
  /\ (snd second <> None -> snd second = Some d2).
Proof.
  intros d1 d2 first second.
  unfold second, first, _update_content. fold d1 d2. cbn [fst snd].
  split; [reflexivity|].
  destruct (text_eqb (data_hash d2) (data_hash d1)) eqn:E; cbn [fst snd].
  - apply text_eqb_eq in E. split; [now rewrite E|]. split.
    + split; [intros _; now apply data_hash_inj|reflexivity].
    + congruence.
  - split; [reflexivity|]. split; [|reflexivity].
    split; [discriminate|]. intros H. apply data_hash_inj in H.
    apply text_eqb_eq in H. congruence.
Qed.

(** ** Paths *)

Lemma path_join_relative (a b : text) :
  isabs b = false ->
  exists sep, path_join a b = a ++ sep ++ b /\ (sep = [] \/ sep = str "/").
Proof.
  intros Hb. unfold path_join. unfold isabs in Hb. rewrite Hb.
  destruct a as [|c a]; [exists []; split; [reflexivity|now left]|].
  destruct (Ascii.eqb (last (c :: a) " "%char) "/"%char).
  - exists []. split; [reflexivity|now left].
  - exists (str "/"). split; [reflexivity|now right].
Qed.

(** X13 ([_get_planning_dir], [_file_path]).  With an absolute working
    directory the planning directory is an absolute path: the setting
    itself when that is absolute, and the working directory followed by the
    setting otherwise, an unset setting counting as [.].  The path of a
    document is the planning directory followed by its name, and two
    different names never have the same path. *)
Theorem planning_paths (planning_directory cwd : text) :
  isabs cwd = true ->
  let dir := _get_planning_dir planning_directory cwd in
  isabs dir = true
  /\ (isabs planning_directory = true -> dir = planning_directory)
  /\ _get_planning_dir [] cwd = _get_planning_dir (str ".") cwd
  /\ (isabs planning_directory = false ->
      prefixb cwd dir = true)
  /\ forall f1 f2,
      isabs f1 = false -> isabs f2 = false ->
      prefixb dir (_file_path planning_directory cwd f1) = true
      /\ (_file_path planning_directory cwd f1
          = _file_path planning_directory cwd f2 -> f1 = f2).
Proof.
  intros Hcwd dir.
  assert (Hjoin : forall b, isabs b = false ->
                            isabs (path_join cwd b) = true
                            /\ prefixb cwd (path_join cwd b) = true).
  { intros b Hb. destruct (path_join_relative cwd b Hb) as (sep & -> & _).
    split; [|apply prefixb_app].
    unfold isabs in *. now apply prefixb_app_l. }
  assert (Hdir : isabs dir = true
                 /\ (isabs planning_directory = false ->
                     prefixb cwd dir = true)).
  { unfold dir, _get_planning_dir.
    destruct planning_directory as [|c s].
    - change (isabs (str ".")) with false. cbv iota.
      split; [|intros _]; now apply Hjoin.
    - destruct (isabs (c :: s)) eqn:E; [split; [assumption|discriminate]|].
      split; [|intros _]; now apply Hjoin. }
  split; [apply Hdir|]. split.
  { intros H. unfold dir, _get_planning_dir.
    destruct planning_directory as [|c s]; [discriminate|]. now rewrite H. }
  split; [reflexivity|]. split; [apply Hdir|].
  intros f1 f2 H1 H2. unfold _file_path. fold dir.
  destruct (path_join_relative dir f1 H1) as (s1 & E1 & Hs1).
  split; [rewrite E1; apply prefixb_app|].
  unfold path_join. unfold isabs in H1, H2. rewrite H1, H2.
  destruct dir as [|c d] eqn:Ed; [congruence|].
  destruct (Ascii.eqb (last (c :: d) " "%char) "/"%char); intros E.
  - now apply app_inv_head in E.
  - apply app_inv_head in E. now injection E.
Qed.

(** ** The documents that an operation writes *)

(** X14 (all operations).  Each operation writes only its own documents:
    the four reading operations change nothing; [update_plan],
    [mark_complete] and [add_todo] leave the findings and the progress
    log as they are; [save_finding] leaves the plan and the progress log,
    [log_progress] the plan and the findings, and [log_error] the
    findings.  Only [create_plan] and [cleanup_plan] touch all three. *)
Theorem operations_write_own_documents
        (ratio : text -> text -> Q) (planning_dir : text)
        (max_plan_length : nat) (now : datetime) (op : operation)
        (w : world) :
  let w' := snd (run ratio planning_dir max_plan_length now op w) in
  match op with
  | ReadPlan _ | ReadFindings _ | GetStatus | CheckPlanIntegrity => w' = w
  | UpdatePlan _ _ | MarkComplete _ | AddTodo _ _ =>
      findings w' = findings w /\ progress w' = progress w
      /\ dir_exists w' = dir_exists w
  | SaveFinding _ _ _ =>
      task_plan w' = task_plan w /\ progress w' = progress w
      /\ findings w' <> None
  | LogProgress _ _ =>
      task_plan w' = task_plan w /\ findings w' = findings w
      /\ progress w' <> None
  | LogError _ _ =>
      findings w' = findings w
      /\ (task_plan w = None -> w' = w)
      /\ (task_plan w <> None -> progress w' <> None)
  | CreatePlan _ _ _ =>
      task_plan w' <> None /\ findings w' <> None /\ progress w' <> None
  | CleanupPlan =>
      dir_exists w = true ->
      task_plan w' = None /\ findings w' = None /\ progress w' = None
  end.
Proof.
  intros w'. unfold w'. destruct op; cbn [run].
  - repeat split; discriminate.
  - unfold read_plan. now destruct (task_plan w).
  - unfold update_plan. destruct (task_plan w); [|now repeat split].
    destruct (update_plan_text section content t) as [[|] new];
      now repeat split.
  - unfold mark_complete. destruct (task_plan w); [|now repeat split].
    destruct (best_match_idx ratio phase_or_item (readlines t));
      now repeat split.
  - unfold add_todo. destruct (task_plan w); [|now repeat split].
    destruct (add_todo_text item phase t); now repeat split.
  - unfold save_finding. destruct (findings w); repeat split; discriminate.
  - unfold read_findings. now destruct (findings w).
  - unfold log_progress. destruct (progress w); repeat split; discriminate.
  - unfold log_error. destruct (task_plan w) eqn:E.
    + unfold log_progress. cbn [progress set_task_plan].
      destruct (progress w); repeat split; try discriminate; congruence.
    + repeat split; congruence.
  - unfold get_status. now destruct (data_exists (_get_planning_data w)).
  - unfold check_plan_integrity.
    destruct (data_exists (_get_planning_data w)); [|reflexivity].
    cbv zeta. now destruct (_ ++ _).
  - unfold cleanup_plan. intros ->. now destruct (other_entries w).
Qed.

(** ** The order of the entries of a section *)




















(** ** The further properties at concrete documents *)



Lemma read_pages_cover_witness :
  let content := repeat "a"%char 25 in
  let w := mk_world true false (Some content) None None in
  length content <= 3 * effective_budget 10
  /\ concat (map (fun n => page_text 10
                             (fst (read_plan 10 (Z.of_nat (n * 10)) w)))
               (seq 0 3))
     = content.
Proof.
  intros content w.
  assert (H : length content <= 3 * effective_budget 10) by (vm_compute; lia).
  split; [exact H|].
  exact (proj1 (proj1 (read_pages_cover 10 w content 3 H) eq_refl)).
Defined.

Lemma mark_complete_checks_one_item_witness :
  let r0 := fun _ _ : text => 0%Q in
  let content := str "- [ ] a" ++ NL :: str "  * [ ] b" ++ [NL] in
  let w := mk_world true false (Some content) None None in
  best_match_idx r0 (str "a") (readlines content) = Some 0
  /\ exists r r',
      fst (get_status (str ".") w) = Report r
      /\ fst (get_status (str ".") (snd (mark_complete r0 (str "a") w)))
         = Report r'
      /\ report_total r' = report_total r
      /\ report_errors r' = report_errors r.
Proof.
  intros r0 content w.
  assert (Hbest : best_match_idx r0 (str "a") (readlines content) = Some 0)
    by decide_text.
  split; [exact Hbest|].
  destruct (mark_complete_checks_one_item r0 (str ".") (str "a") w content 0
              eq_refl Hbest)
    as (body & ending & new & _ & _ & _ & _ & _ & _
        & r & r' & H1 & H2 & H3 & _ & H5).
  exists r, r'. repeat split; assumption.
Defined.

Lemma mark_complete_consumes_a_line_witness :
  let r0 := fun _ _ : text => 0%Q in
  let content := str "- [x] a" ++ [NL] in
  let w := mk_world true false (Some content) None None in
  unchecked_lines content = []
  /\ mark_complete r0 (str "a") w
     = (Warning (str "Item 'a' not found (or already completed)"), w).
Proof.
  intros r0 content w.
  assert (H : unchecked_lines content = []) by reflexivity.
  split; [exact H|].
  exact (proj2 (mark_complete_consumes_a_line r0 (str "a") w content eq_refl)
           H).
Defined.


Lemma check_plan_integrity_passes_witness :
  let w := mk_world true false (Some (str "- [x] a" ++ [NL]))
             (Some (str "f")) (Some (str "- b")) in
  exists msg, fst (check_plan_integrity w) = Done msg.
Proof.
  intros w.
  pose proof (check_plan_integrity_passes w (str "- [x] a" ++ [NL]) eq_refl)
    as (_ & Hpass & _).
  eexists. apply Hpass. split; [discriminate|]. split.
  - exists (str "- b"). split; reflexivity.
  - repeat constructor.
Defined.



Lemma parsed_item_phase_witness :
  let content := str "### P" ++ NL :: str "- [x] a" ++ [NL] in
  nth_error (_parse_todos_from_plan content) 0
  = Some (mk_todo (str "a") true (Some (str "P"))).
Proof.
  intros content.
  pose proof (parsed_item_phase content [str "### P"] (str "- [x] a") [[]]
                true (str "a") eq_refl eq_refl) as [_ H].
  exact (H [] (str "### P") [] (str "P") eq_refl eq_refl (Forall_nil _)).
Defined.

Lemma todo_rows_group_items_witness :
  let todos := [mk_todo (str "a") false None; mk_todo (str "b") true None] in
  todo_rows todos = map TodoRow todos.
Proof.
  intros todos.
  apply (proj2 (proj2 (proj2 (proj2 (proj2 (todo_rows_group_items todos)))))
           None).
  intros t [<-|[<-|[]]]; reflexivity.
Defined.

Lemma mini_app_redraws_on_change_witness :
  let w := mk_world true false (Some (str "- [ ] a" ++ [NL])) None None in
  let w' := mk_world true false (Some (str "- [ ] b" ++ [NL])) None None in
  snd (_update_content (fst (_update_content None w)) w') = None.
Proof.
  intros w w'.
  apply (proj1 (proj2 (proj2 (mini_app_redraws_on_change w w')))).
  repeat split; reflexivity.
Defined.

Lemma planning_paths_witness :
  isabs (str "/home/u") = true
  /\ isabs (_get_planning_dir (str "plans") (str "/home/u")) = true.
Proof.
  split; [reflexivity|].
  exact (proj1 (planning_paths (str "plans") (str "/home/u") eq_refl)).
Defined.

Lemma operations_write_own_documents_witness :
  let w := mk_world true true (Some (str "p")) (Some (str "f")) None in
  let w' := snd (run (fun _ _ => 0%Q) (str ".") 4000
                   (mk_datetime 2026 1 2 3 4) CleanupPlan w) in
  task_plan w' = None /\ findings w' = None /\ progress w' = None.
Proof.
  intros w w'.
  exact (operations_write_own_documents (fun _ _ => 0%Q) (str ".") 4000
           (mk_datetime 2026 1 2 3 4) CleanupPlan w eq_refl).
Defined.


